(** * Calcium-imaging analysis pipeline: a shallow embedding

    The development follows these functions of the repository:

    - [locate_spikes_peakutils]            (ca_analysis/dff_tools.py)
    - [VascOccAnalyzer._find_spikes]       (ca_analysis/vasc_occ_analysis.py)
    - [VascOccParser._get_params] and
      [concat_vasc_occ_dataarrays]         (calcium_bflow_analysis/vasc_occ_parsing.py)
    - [FileFinder._find_all_relevant_files] (calcium_bflow_analysis/calcium_over_time.py)

    Python floats are modelled by rationals ([Q]); where a float may be
    NaN (the payload of a DataArray) it is an [option Q].  Exceptions are
    an explicit [result] type.  The library routines the code calls
    (numpy indexing, [peakutils.indexes], [xr.DataArray], [xr.concat]) are
    written out as far as the functions above depend on them; where the
    releases of a library differ in what the code observes
    ([peakutils.indexes] on a flat signal), the release is a parameter.
    Where a result depends on how binary64 rounds ([calc_mean_dff],
    [calc_auc]), the rounded operations are parameters.

    A second part follows further functions of the same modules:
    [calc_dff], [calc_dff_batch], [calc_mean_spike_num], [calc_mean_dff]
    and [calc_auc] of dff_tools.py, [VascOccParser._load_dff] and
    [_load_colabeled_idx], [FileFinder.find_files] with [_make_table],
    and [CalciumAnalysisOverTime._get_metadata]. *)

From Stdlib Require Import String Ascii.
From Stdlib Require Import List ZArith QArith Qround Bool Lia Arith PeanoNat Permutation Sorted.
From Stdlib Require Import Lqa.
Import ListNotations.

Set Implicit Arguments.

(** ** Python exceptions and results *)

Inductive exn : Set :=
| AssertionError
| IndexError
| ValueError
| TypeError
| ZeroDivisionError.

Inductive result (A : Type) : Type :=
| Ok (a : A)
| Raise (e : exn).

Arguments Ok {A} a.
Arguments Raise {A} e.

Definition bind {A B : Type} (r : result A) (k : A -> result B) : result B :=
  match r with
  | Ok a => k a
  | Raise e => Raise e
  end.

Notation "x <- r ;; k" := (bind r (fun x => k))
  (at level 61, r at next level, right associativity).

(** ** Numbers *)

(** [int(x)] on a finite float: truncation toward zero. *)
Definition py_int (x : Q) : Z := Z.quot (Qnum x) (Zpos (Qden x)).

(** [round(x)] on a finite float: nearest integer, ties to the even one. *)
Definition py_round (x : Q) : Z :=
  let f := Qfloor x in
  match Qcompare (x - inject_Z f) (1 # 2) with
  | Lt => f
  | Gt => (f + 1)%Z
  | Eq => if Z.even f then f else (f + 1)%Z
  end.

Definition Qltb (a b : Q) : bool := negb (Qle_bool b a).

(** ** Lists as one-dimensional arrays *)

Fixpoint mapi_from {A B : Type} (k : nat) (f : nat -> A -> B) (l : list A) : list B :=
  match l with
  | [] => []
  | x :: t => f k x :: mapi_from (S k) f t
  end.

Definition mapi {A B : Type} (f : nat -> A -> B) (l : list A) : list B :=
  mapi_from 0 f l.

(** [l[i] = v] for an index in range (no change otherwise; the callers
    below only use it in range or check the range first). *)
Definition set_at {A : Type} (i : nat) (v : A) (l : list A) : list A :=
  mapi (fun k x => if (k =? i)%nat then v else x) l.

(** [l[idxs] = v]: fancy-index assignment of one scalar. *)
Definition set_many {A : Type} (idxs : list nat) (v : A) (l : list A) : list A :=
  fold_left (fun acc i => set_at i v acc) idxs l.

(** [l[lo:hi] = v]: slice assignment of one scalar; a slice is clipped to
    the array. *)
Definition set_slice {A : Type} (lo hi : nat) (v : A) (l : list A) : list A :=
  mapi (fun k x => if ((lo <=? k) && (k <? hi))%nat then v else x) l.

(** [np.where(mask)[0]]: the indices at which the mask holds, ascending. *)
Definition np_where (mask : list bool) : list nat :=
  filter (fun i => nth i mask false) (seq 0 (length mask)).

(** [np.diff(y)]. *)
Fixpoint np_diff (y : list Q) : list Q :=
  match y with
  | a :: t => match t with
              | b :: _ => (b - a) :: np_diff t
              | [] => []
              end
  | [] => []
  end.

(** [np.max] and [np.min] raise [ValueError] on an empty array. *)
Definition Qmaxb (a b : Q) : Q := if Qle_bool a b then b else a.
Definition Qminb (a b : Q) : Q := if Qle_bool a b then a else b.

Definition np_max (y : list Q) : result Q :=
  match y with
  | [] => Raise ValueError
  | a :: t => Ok (fold_left Qmaxb t a)
  end.

Definition np_min (y : list Q) : result Q :=
  match y with
  | [] => Raise ValueError
  | a :: t => Ok (fold_left Qminb t a)
  end.

(** [l[k]] for a Python integer [k]: a negative index counts from the
    end, and an index outside the array raises IndexError. *)
Definition getitem (l : list Q) (k : Z) : result Q :=
  let n := Z.of_nat (length l) in
  let k := if (k <? 0)%Z then (k + n)%Z else k in
  if ((0 <=? k)%Z && (k <? n)%Z)%bool then Ok (nth (Z.to_nat k) l 0)
  else Raise IndexError.

(** An index array: numpy keeps the element type with the array, and only
    an integer (or boolean) array may be used as an index. *)
Inductive dtype : Set := int64 | float64.

Record index_array : Set := IndexArray {
  idx_dtype : dtype;
  idx : list nat
}.

(** ** peakutils.indexes

    The peak finder of the peakutils package, as the code calls it:
    [peakutils.indexes(cell, thres=thresh, min_dist=min_dist)].
    The threshold is scaled to the range of the signal; a totally flat
    signal is answered at once with an empty array, whose element type
    depends on the release; plateaus of zero
    slope take the slope of their neighbours; the peaks are the indices
    above the threshold where the slope turns from rising to falling;
    peaks closer than [min_dist] are thinned out, the highest first. *)
Module Peakutils.

(** [np.split(zeros, ...)]: the runs of consecutive indices of [zeros]. *)
Fixpoint zero_plateaus (zeros : list nat) : list (list nat) :=
  match zeros with
  | [] => []
  | z :: rest =>
      match zero_plateaus rest with
      | (z' :: run) :: runs =>
          if (z' =? S z)%nat then (z :: z' :: run) :: runs
          else [z] :: (z' :: run) :: runs
      | _ => [[z]]
      end
  end.

(** A plateau at the left edge takes the slope that follows it. *)
Definition fix_leftmost (st : list Q * list (list nat))
  : result (list Q * list (list nat)) :=
  let (dy, plateaus) := st in
  match plateaus with
  | p0 :: ps =>
      if (hd 0%nat p0 =? 0)%nat then
        v <- getitem dy (Z.of_nat (last p0 0%nat) + 1) ;;
        Ok (set_many p0 v dy, ps)
      else Ok st
  | [] => Ok st
  end.

(** A plateau at the right edge takes the slope that precedes it. *)
Definition fix_rightmost (st : list Q * list (list nat))
  : result (list Q * list (list nat)) :=
  let (dy, plateaus) := st in
  match plateaus with
  | [] => Ok st
  | _ :: _ =>
      let pl := last plateaus [] in
      if (last pl 0%nat =? length dy - 1)%nat then
        v <- getitem dy (Z.of_nat (hd 0%nat pl) - 1) ;;
        Ok (set_many pl v dy, removelast plateaus)
      else Ok st
  end.

(** An inner plateau [a..b] is split at its median [(a+b)/2]: indices
    below it take the slope on the left, the others the slope on the
    right. *)
Definition fill_plateau (dy : list Q) (plateau : list nat) : result (list Q) :=
  let a := hd 0%nat plateau in
  let b := last plateau 0%nat in
  let lower := filter (fun k => (2 * k <? a + b)%nat) plateau in
  let upper := filter (fun k => (a + b <=? 2 * k)%nat) plateau in
  v <- getitem dy (Z.of_nat a - 1) ;;
  let dy := set_many lower v dy in
  w <- getitem dy (Z.of_nat b + 1) ;;
  Ok (set_many upper w dy).

Fixpoint fill_each (dy : list Q) (plateaus : list (list nat)) : result (list Q) :=
  match plateaus with
  | [] => Ok dy
  | plateau :: rest => dy' <- fill_plateau dy plateau ;; fill_each dy' rest
  end.

Definition fill_plateaus (dy : list Q) (zeros : list nat) : result (list Q) :=
  match zeros with
  | [] => Ok dy
  | _ :: _ =>
      st <- fix_leftmost (dy, zero_plateaus zeros) ;;
      st <- fix_rightmost st ;;
      fill_each (fst st) (snd st)
  end.

(** The candidate peaks: a rising slope before, a falling slope after,
    and an amplitude above the threshold. *)
Definition peak_mask (y dy : list Q) (thres : Q) : list bool :=
  map (fun i => Qltb (nth i (dy ++ [0]) 0) 0
                && Qltb 0 (nth i (0 :: dy) 0)
                && Qltb thres (nth i y 0))
      (seq 0 (length y)).

(** [peaks[np.argsort(y[peaks])]]: the peaks by ascending amplitude.
    numpy does not fix the order of peaks of equal amplitude; an
    insertion sort is taken here, and the lemmas on [suppress] below hold
    for every order. *)
Fixpoint insert_by (y : list Q) (p : nat) (sorted : list nat) : list nat :=
  match sorted with
  | [] => [p]
  | q :: t =>
      if Qltb (nth p y 0) (nth q y 0) then p :: q :: t
      else q :: insert_by y p t
  end.

Definition argsort_peaks (y : list Q) (peaks : list nat) : list nat :=
  fold_left (fun acc p => insert_by y p acc) peaks [].

(** One round of the minimum-distance loop: a peak that is still kept
    removes everything within [min_dist] of it, and stays. *)
Definition suppress_step (min_dist : Z) (rem : list bool) (peak : nat) : list bool :=
  if negb (nth peak rem true) then
    let lo := Z.to_nat (Z.max 0 (Z.of_nat peak - min_dist)) in
    let hi := Z.to_nat (Z.of_nat peak + min_dist + 1) in
    set_at peak false (set_slice lo hi true rem)
  else rem.

Definition suppress (min_dist : Z) (highest : list nat) (rem : list bool) : list bool :=
  fold_left (suppress_step min_dist) highest rem.

Definition enforce_min_dist (y : list Q) (peaks : list nat) (min_dist : Z) : list nat :=
  if ((1 <? length peaks)%nat && (1 <? min_dist)%Z)%bool then
    let highest := rev (argsort_peaks y peaks) in
    let rem := set_many peaks false (repeat true (length y)) in
    np_where (map negb (suppress min_dist highest rem))
  else peaks.

(** The releases differ in what [indexes] returns for a totally flat
    signal: [np.array([])], an empty float64 array, up to release 1.3.4,
    and an empty integer array from release 1.3.5 on. *)
Inductive release : Set := upto_1_3_4 | from_1_3_5.

Definition flat_dtype (rel : release) : dtype :=
  match rel with
  | upto_1_3_4 => float64
  | from_1_3_5 => int64
  end.

Definition indexes (rel : release) (y : list Q) (thres : Q) (min_dist : Z)
  : result index_array :=
  ymax <- np_max y ;;
  ymin <- np_min y ;;
  let thres := thres * (ymax - ymin) + ymin in
  let dy := np_diff y in
  let zeros := np_where (map (fun d => Qeq_bool d 0) dy) in
  (* a totally flat signal *)
  if (length zeros =? length y - 1)%nat then Ok (IndexArray (flat_dtype rel) [])
  else
    dy <- fill_plateaus dy zeros ;;
    let peaks := np_where (peak_mask y dy thres) in
    Ok (IndexArray int64 (enforce_min_dist y peaks min_dist)).

End Peakutils.

(** The shape of the plateaus, for the proofs below: a plateau is a run
    [a, a+1, ..., a+len] of indices that ends at or before [bound]; the
    plateaus of an array of length [n] come in ascending order, each
    ending before the next begins; a plateau left for the inner loop
    ends before the last slope. *)
Definition is_run (n : nat) (bound : nat) (r : list nat) : Prop :=
  exists a len, r = seq a (S len) /\ (a + S len <= bound)%nat /\ (bound <= n)%nat.

Fixpoint runs_ok (n : nat) (runs : list (list nat)) : Prop :=
  match runs with
  | [] => True
  | r :: rest =>
      is_run n (match rest with [] => n | r' :: _ => hd 0%nat r' end) r /\
      runs_ok n rest
  end.

Definition inner_run (n : nat) (r : list nat) : Prop :=
  exists a len, r = seq a (S len) /\ (a + S len < n)%nat.

(** ** numpy arrays of any dimension: a shape and the items in row-major order *)

Record ndarray : Set := NdArray {
  shape : list nat;
  items : list Q
}.

Fixpoint chunks (r c : nat) (l : list Q) : list (list Q) :=
  match r with
  | O => []
  | S r' => firstn c l :: chunks r' c (skipn c l)
  end.

(** The rows of a two-dimensional array (what [enumerate(data)] yields). *)
Definition rows_of (a : ndarray) : list (list Q) :=
  match shape a with
  | [r; c] => chunks r c (items a)
  | _ => []
  end.

Definition well_shaped (a : ndarray) : Prop :=
  length (items a) = fold_right Nat.mul 1%nat (shape a).

(** [m[row, peaks] = v]: numpy refuses an index array that is not of
    integer type, and an index out of range. *)
Definition setitem_row (m : list (list Q)) (row : nat) (peaks : index_array) (v : Q)
  : result (list (list Q)) :=
  match idx_dtype peaks with
  | float64 => Raise IndexError
  | int64 =>
      match nth_error m row with
      | None => Raise IndexError
      | Some r =>
          if forallb (fun i => (i <? length r)%nat) (idx peaks)
          then Ok (set_at row (set_many (idx peaks) v r) m)
          else Raise IndexError
      end
  end.

(** ** dff_tools.locate_spikes_peakutils *)

Fixpoint spikes_loop (rel : Peakutils.release) (thresh : Q) (min_dist : Z) (cells : list (list Q)) (row : nat)
    (all_spikes : list (list Q)) : result (list (list Q)) :=
  match cells with
  | [] => Ok all_spikes
  | cell :: rest =>
      peaks <- Peakutils.indexes rel cell thresh min_dist ;;
      all_spikes' <- setitem_row all_spikes row peaks 1 ;;
      spikes_loop rel thresh min_dist rest (S row) all_spikes'
  end.

Definition zeros_like (rows : list (list Q)) : list (list Q) :=
  map (fun r => repeat 0 (length r)) rows.

Definition locate_spikes_peakutils (rel : Peakutils.release) (data : ndarray)
    (fps thresh : Q) : result ndarray :=
  match shape data with
  | [r; c] =>
      if (0 <? r)%nat then
        let all_spikes := zeros_like (rows_of data) in
        let min_dist := py_int fps in
        out <- spikes_loop rel thresh min_dist (rows_of data) 0 all_spikes ;;
        Ok (NdArray (shape data) (concat out))
      else Raise AssertionError
  | _ => Raise AssertionError
  end.

(** A signal is flat when all its consecutive samples are equal. *)
Definition flat (y : list Q) : Prop :=
  forall k, (S k < length y)%nat -> nth k y 0 == nth (S k) y 0.

(** The matrix of the spec's scenario: 2 cells by 10 frames. *)
Definition scenario_matrix : ndarray :=
  NdArray [2%nat; 10%nat]
          [0; 0; 5; 0; 0; 0; 5; 0; 0; 0;
           0; 0; 0; 0; 0; 0; 0; 0; 0; 0].

(** Its first cell alone. *)
Definition scenario_cell0 : ndarray :=
  NdArray [1%nat; 10%nat] [0; 0; 5; 0; 0; 0; 5; 0; 0; 0].

(** One cell with two peaks two frames apart. *)
Definition two_peaks : ndarray :=
  NdArray [1%nat; 5%nat] [0; 3; 0; 5; 0].

(** ** vasc_occ_analysis.VascOccAnalyzer._find_spikes *)

(** The attributes the analyzer reads from [self.data.attrs]. *)
Record occ_attrs : Set := OccAttrs {
  fps : Q;
  frames_before_occ : Z;
  frames_during_occ : Z;
  frames_after_occ : Z
}.

(** The three columns of the [num_of_spikes] data frame, one entry per
    cell. *)
Record spike_counts : Set := SpikeCounts {
  before : list nat;
  during : list Q;
  after : list Q
}.

Record find_state : Set := FindState {
  fs_all_spikes : list (list Q);
  idx_section1 : list nat;
  idx_section2 : list Q;
  idx_section3 : list Q
}.

(** [len(idx[mask])] for a mask computed from the index values; it is
    evaluated only after [all_spikes[row, idx] = 1] went through. *)
Definition count_idx (keep : Z -> bool) (peaks : index_array) : nat :=
  length (filter (fun i => keep (Z.of_nat i)) (idx peaks)).

Definition of_count (n : nat) : Q := inject_Z (Z.of_nat n).

(** The loop over the cells; its state is [all_spikes] and the three
    lists of counts. *)
Fixpoint find_spikes_loop (rel : Peakutils.release) (thresh : Q) (min_dist : Z)
    (before_occ summed_after_occ : Z)
    (norm_factor_during norm_factor_after : Q)
    (cells : list (list Q)) (row : nat) (st : find_state) : result find_state :=
  match cells with
  | [] => Ok st
  | cell :: rest =>
      peaks <- Peakutils.indexes rel cell thresh min_dist ;;
      all_spikes' <- setitem_row (fs_all_spikes st) row peaks 1 ;;
      let n1 := count_idx (fun i => (i <? before_occ)%Z) peaks in
      let n2 := count_idx (fun i => (before_occ <=? i)%Z && (i <? summed_after_occ)%Z) peaks in
      let n3 := count_idx (fun i => (summed_after_occ <=? i)%Z) peaks in
      find_spikes_loop rel thresh min_dist before_occ summed_after_occ
        norm_factor_during norm_factor_after rest (S row)
        (FindState all_spikes'
                   (idx_section1 st ++ [n1])
                   (idx_section2 st ++ [of_count n2 * norm_factor_during])
                   (idx_section3 st ++ [of_count n3 * norm_factor_after]))
  end.

(** [a / b] for two Python integers. *)
Definition true_divide (a b : Z) : result Q :=
  if (b =? 0)%Z then Raise ZeroDivisionError
  else Ok (inject_Z a / inject_Z b).

(** [dff] is the cells x time matrix, given by its rows.  The two
    normalisation factors are computed before the loop.  The frame
    counts are taken as Python integers, for which a zero divisor raises
    ZeroDivisionError; were they numpy integers the quotient would be inf
    or nan instead, so what is proved below is about non-zero epoch
    lengths, where the two agree. *)
Definition _find_spikes (rel : Peakutils.release) (a : occ_attrs) (dff : list (list Q))
  : result (list (list Q) * spike_counts) :=
  let thresh := 8 # 10 in
  let min_dist := py_int (fps a) in
  let before_occ := frames_before_occ a in
  let during_occ := frames_during_occ a in
  let summed_after_occ := (before_occ + during_occ)%Z in
  norm_factor_during <- true_divide before_occ during_occ ;;
  norm_factor_after <- true_divide before_occ (frames_after_occ a) ;;
  let all_spikes := zeros_like dff in
  st <- find_spikes_loop rel thresh min_dist before_occ summed_after_occ
          norm_factor_during norm_factor_after dff 0
          (FindState all_spikes [] [] []) ;;
  Ok (fs_all_spikes st,
      SpikeCounts (idx_section1 st) (idx_section2 st) (idx_section3 st)).

(** The spec's wording of an epoch count: the number of time indices in
    [lo, hi) at which the spike row holds a 1. *)
Definition spikes_between (row : list Q) (lo hi : Z) : nat :=
  length (filter (fun t => Qeq_bool (nth t row 0) 1
                           && (lo <=? Z.of_nat t)%Z && (Z.of_nat t <? hi)%Z)
                 (seq 0 (length row))).

(** The spec's epoch scenario: 200 frames, 100 before and 50 during the
    occlusion, and one cell with spikes at frames 10, 60, 120 and 170. *)
Definition scenario_attrs : occ_attrs := OccAttrs 30 100 50 50.

Definition scenario_cell : list Q :=
  map (fun t => if existsb (Nat.eqb t) [10; 60; 120; 170]%nat then 1 else 0)
      (seq 0 200).

Definition scenario_counts : spike_counts :=
  SpikeCounts [2%nat] [of_count 1 * (100 / 50)] [of_count 1 * (100 / 50)].

(** ** vasc_occ_parsing.VascOccParser._get_params *)

(** The ScanImage frame data of a TIF.  [SI.hChannels.channelsActive] is
    a list of channel numbers, or a bare number when one channel is
    active. *)
Inductive channels : Set :=
| ChannelScalar (c : Z)
| ChannelList (cs : list Z).

Record frame_data : Set := FrameData {
  scanFrameRate : Q;
  channelsActive : channels;
  framesPerSlice : Z
}.

(** The fields of the parser that [_get_params] reads and writes; a
    field that is unset or [None] is [None]. *)
Record parser : Set := Parser {
  frames_before_stim : Z;
  len_of_epoch_in_frames : Z;
  p_fps : option Q;
  num_of_channels : option nat;
  frames_after_stim : option Z;
  start_time : option string;
  timestamps : option (list (option Q))
}.

(** [np.arange(num_of_frames) / fps]; a division by a zero rate yields
    non-finite floats ([None]), no exception. *)
Definition make_timestamps (num_of_frames : Z) (rate : Q) : list (option Q) :=
  map (fun k => if Qeq_bool rate 0 then None
                else Some (inject_Z (Z.of_nat k) / rate))
      (seq 0 (Z.to_nat num_of_frames)).

(** The [except TypeError] branch. *)
Definition params_fallback (self : parser) : parser :=
  Parser (frames_before_stim self) (len_of_epoch_in_frames self)
         (Some (5831 # 100)) (num_of_channels self) (Some 1000%Z) None None.

(** [si_meta] is [f.scanimage_metadata], [None] for a TIF without
    ScanImage metadata; [mtime] is the formatted modification time of the
    first TIF.  Subscripting [None] and [len] of a number raise the
    [TypeError] that the function catches (the frame rate stored before
    the failing [len] is overwritten by the handler); nothing else is
    raised. *)
Definition _get_params (self : parser) (si_meta : option frame_data) (mtime : string)
  : result parser :=
  match si_meta with
  | None => Ok (params_fallback self)
  | Some fd =>
      let rate := scanFrameRate fd in
      match channelsActive fd with
      | ChannelScalar _ => Ok (params_fallback self)
      | ChannelList cs =>
          let num_of_frames := framesPerSlice fd in
          Ok (Parser (frames_before_stim self) (len_of_epoch_in_frames self)
                     (Some rate)
                     (Some (length cs))
                     (Some (num_of_frames -
                            (frames_before_stim self + len_of_epoch_in_frames self))%Z)
                     (Some mtime)
                     (Some (make_timestamps num_of_frames rate)))
      end
  end.

(** A parser set up for 80 frames before and 50 frames during the
    occlusion, and the metadata of a recording of 100 frames. *)
Definition short_parser : parser := Parser 80 50 None None None None None.

Definition short_recording : frame_data := FrameData 30 (ChannelList [1; 2]%Z) 100.

(** ** vasc_occ_parsing.concat_vasc_occ_dataarrays *)

(** A float that may be NaN. *)
Definition float : Set := option Q.

(** A labelled array with dimensions (epoch, neuron, time):
    [data[e][n][t]]. *)
Record DataArray : Set := MkDataArray {
  epoch : list string;
  neuron : list nat;
  time : list Q;
  data : list (list (list float));
  attrs : list (string * Q)
}.

(** [da.data.shape] of an array whose data agree with its coordinates. *)
Definition data_shape (da : DataArray) : nat * nat * nat :=
  (length (epoch da), length (neuron da), length (time da)).

Definition well_formed (da : DataArray) : Prop :=
  length (data da) = length (epoch da) /\
  forall plane, In plane (data da) ->
    length plane = length (neuron da) /\
    forall row, In row plane -> length row = length (time da).

(** [xr.DataArray(data=..., dims=[...], coords={...}, attrs=...)]: the
    constructor refuses coordinates whose sizes differ from the data's. *)
Definition new_DataArray (shp : nat * nat * nat) (values : list (list (list float)))
    (crd_epoch : list string) (crd_neuron : list nat) (crd_time : list Q)
    (ats : list (string * Q)) : result DataArray :=
  let '(e, n, t) := shp in
  if ((e =? length crd_epoch) && (n =? length crd_neuron) && (t =? length crd_time))%nat
  then Ok (MkDataArray crd_epoch crd_neuron crd_time values ats)
  else Raise ValueError.

(** The loop of [concat_vasc_occ_dataarrays]; its state is
    [num_of_neurons], [crd_time] and [new_da_list]. *)
Fixpoint reindex_loop (crd_epoch : list string) (das : list DataArray)
    (num_of_neurons : nat) (crd_time : list Q) (new_da_list : list DataArray)
  : result (list DataArray) :=
  match das with
  | [] => Ok new_da_list
  | da :: rest =>
      let crd_neuron := seq num_of_neurons (length (neuron da)) in
      let crd_time :=
        if negb (length (time da) =? length crd_time)%nat then time da else crd_time in
      reindexed_da <- new_DataArray (data_shape da) (data da)
                                    crd_epoch crd_neuron crd_time (attrs da) ;;
      reindex_loop crd_epoch rest (num_of_neurons + length (neuron da))
                   crd_time (new_da_list ++ [reindexed_da])
  end.

(** *** xr.concat(new_da_list, dim="neuron")

    The arrays are first aligned on the other dimensions with an outer
    join: equal indexes are kept as they are, different indexes are
    replaced by their sorted union and the data are re-indexed on it,
    NaN where an array has no such label.  The re-indexed arrays all
    carry the same epoch coordinate, so only the time axis is joined. *)
Module Xr.

Fixpoint index_eqb (a b : list Q) : bool :=
  match a, b with
  | [], [] => true
  | x :: a', y :: b' => Qeq_bool x y && index_eqb a' b'
  | _, _ => false
  end.

Fixpoint insert_label (t : Q) (l : list Q) : list Q :=
  match l with
  | [] => [t]
  | x :: r =>
      match Qcompare t x with
      | Lt => t :: l
      | Eq => l
      | Gt => x :: insert_label t r
      end
  end.

Definition union_index (idxs : list (list Q)) : list Q :=
  fold_left (fun acc t => insert_label t acc) (concat idxs) [].

Definition outer_join (idxs : list (list Q)) : list Q :=
  match idxs with
  | [] => []
  | first :: others =>
      if forallb (index_eqb first) others then first else union_index idxs
  end.

Fixpoint position (t : Q) (l : list Q) : option nat :=
  match l with
  | [] => None
  | x :: r => if Qeq_bool t x then Some 0%nat
              else option_map S (position t r)
  end.

(** One row re-indexed from the labels [old] to the labels [new]. *)
Definition reindex_row (old new : list Q) (row : list float) : list float :=
  if index_eqb old new then row
  else map (fun t => match position t old with
                     | Some k => nth k row None
                     | None => None
                     end) new.

(** An index that repeats a label. *)
Fixpoint has_duplicates (l : list Q) : bool :=
  match l with
  | [] => false
  | x :: r => existsb (Qeq_bool x) r || has_duplicates r
  end.

(** The arrays are re-indexed when their indexes are not all equal. *)
Definition needs_reindex (idxs : list (list Q)) : bool :=
  match idxs with
  | [] => false
  | first :: others => negb (forallb (index_eqb first) others)
  end.

(** When the arrays have to be re-indexed, an index with a repeated
    label is refused with ValueError. *)
Definition concat_neuron (das : list DataArray) : result DataArray :=
  match das with
  | [] => Raise ValueError
  | first :: _ =>
      if needs_reindex (map time das) && existsb has_duplicates (map time das)
      then Raise ValueError
      else
        let joined := outer_join (map time das) in
        Ok (MkDataArray
              (epoch first)
              (concat (map neuron das))
              joined
              (map (fun e =>
                      concat (map (fun da =>
                                     map (reindex_row (time da) joined)
                                         (nth e (data da) []))
                                  das))
                   (seq 0 (length (epoch first))))
              (attrs first))
  end.

End Xr.

Definition concat_vasc_occ_dataarrays (da_list : list DataArray) : result DataArray :=
  match da_list with
  | [] => Raise IndexError
  | da0 :: _ =>
      let crd_time := time da0 in
      let crd_epoch := epoch da0 in
      new_da_list <- reindex_loop crd_epoch da_list 0 crd_time [] ;;
      Xr.concat_neuron new_da_list
  end.

(** The number of cells of a record, and the number of cells of the
    records before position [k]: n0 + ... + n(k-1). *)
Definition ncells (da : DataArray) : nat := length (neuron da).

Definition cells_before (das : list DataArray) (k : nat) : nat :=
  list_sum (map ncells (firstn k das)).

(** The arrays that the loop builds when no constructor call fails. *)
Fixpoint reindexed_list (crd_epoch : list string) (das : list DataArray)
    (num_of_neurons : nat) (crd_time : list Q) : list DataArray :=
  match das with
  | [] => []
  | da :: rest =>
      let crd_time :=
        if negb (length (time da) =? length crd_time)%nat then time da else crd_time in
      MkDataArray crd_epoch (seq num_of_neurons (length (neuron da))) crd_time
                  (data da) (attrs da)
      :: reindexed_list crd_epoch rest (num_of_neurons + length (neuron da)) crd_time
  end.

(** A label occurs in an index, up to equality of rationals. *)
Definition InQ (t : Q) (l : list Q) : Prop := exists x, In x l /\ x == t.

(** The row [mrow] holds the samples of [row], which are labelled [old],
    under the labels [new]: every sample is found under its label, and a
    label that [old] lacks holds NaN. *)
Definition holds_samples (old new : list Q) (row mrow : list float) : Prop :=
  length mrow = length new /\
  (forall p, (p < length row)%nat ->
     exists q, (q < length new)%nat /\ nth q new 0 == nth p old 0 /\
               nth q mrow None = nth p row None) /\
  (forall q, (q < length new)%nat -> ~ InQ (nth q new 0) old ->
             nth q mrow None = None).

(** No record repeats a label of its time coordinate. *)
Definition unique_times (das : list DataArray) : Prop :=
  forall da, In da das -> Xr.has_duplicates (time da) = false.

(** Records for the examples: one epoch, one cell each. *)
Definition rec_all3 : DataArray :=
  MkDataArray ["all"%string] [0%nat] [0; 1; 2]
              [[[Some 1; Some 2; Some 3]]] [].

Definition rec_run3 : DataArray :=
  MkDataArray ["run"%string] [0%nat] [0; 1; 2]
              [[[Some 4; Some 5; Some 6]]] [].

Definition rec_all2 : DataArray :=
  MkDataArray ["all"%string] [0%nat] [0; 1]
              [[[Some 7; Some 8]]] [].

Definition rec_two_epochs : DataArray :=
  MkDataArray ["all"%string; "run"%string] [0%nat] [0; 1; 2]
              [[[Some 1; Some 2; Some 3]]; [[Some 1; None; None]]] [].

(** A record whose time coordinate repeats the label 0. *)
Definition rec_repeat3 : DataArray :=
  MkDataArray ["all"%string] [0%nat] [0; 0; 1]
              [[[Some 1; Some 2; Some 3]]] [].

(** Two records with 3 and 5 cells, one epoch and two time samples; the
    data of a cell name the record and the cell. *)
Definition rec_3cells : DataArray :=
  MkDataArray ["all"%string] [0; 1; 2]%nat [0; 1]
              [[[Some 10; Some 10]; [Some 11; Some 11]; [Some 12; Some 12]]] [].

Definition rec_5cells : DataArray :=
  MkDataArray ["all"%string] [0; 1; 2; 3; 4]%nat [0; 1]
              [[[Some 20; Some 20]; [Some 21; Some 21]; [Some 22; Some 22];
                [Some 23; Some 23]; [Some 24; Some 24]]] [].

(** The merge of [rec_3cells] and [rec_5cells]. *)
Definition merged_8cells : DataArray :=
  MkDataArray ["all"%string] [0; 1; 2; 3; 4; 5; 6; 7]%nat [0; 1]
              [[[Some 10; Some 10]; [Some 11; Some 11]; [Some 12; Some 12];
                [Some 20; Some 20]; [Some 21; Some 21]; [Some 22; Some 22];
                [Some 23; Some 23]; [Some 24; Some 24]]] [].

(** ** calcium_over_time.FileFinder *)

Record Path : Set := MkPath {
  parent : string;
  name : string
}.

(** The members of [AnalogAcquisitionType] that this code names. *)
Inductive AnalogAcquisitionType : Set := NONE | TREADMILL.

Definition is_NONE (a : AnalogAcquisitionType) : bool :=
  match a with NONE => true | TREADMILL => false end.

(** [str(file.name)[:-4]] *)
Definition stem (file : Path) : string :=
  substring 0 (String.length (name file) - 4) (name file).

(** One row of the table of [find_files]. *)
Record RecordingGroup : Set := MkGroup {
  tif : Path;
  caiman : Path;
  analog : option Path;
  colabeled : option Path
}.

Record found_files : Set := Found {
  fluo_files : list Path;
  analog_files : list (option Path);
  result_files : list Path;
  colabeled_files : list (option Path)
}.

Section FileFinder.

(** The file system, as the finder sees it: [rglob folder pattern] lists
    the files under [folder] that match [pattern], in traversal order. *)
Variable rglob : Path -> string -> list Path.

(** [next(folder.rglob(pattern))]; [None] stands for [StopIteration]. *)
Definition next_rglob (folder : Path) (pattern : string) : option Path :=
  hd_error (rglob folder pattern).

Record FileFinder : Set := MkFileFinder {
  folder_globs : list (Path * string);
  analog_type : AnalogAcquisitionType;
  with_colabeled : bool
}.

(** The body of the inner loop for one file: the lists with the file's
    group appended, or unchanged when the file is skipped ([continue], or
    a FOV that was already analyzed). *)
Definition visit_file (self : FileFinder) (folder file : Path) (acc : found_files)
  : found_files :=
  let fname := stem file in
  let continue_ := acc in
  let after_analog (analog_file : option Path) :=
    match next_rglob folder (fname ++ "*results.npz") with
    | None => continue_
    | Some result_file =>
        let after_colabeled (colabeled_file : option Path) :=
          match next_rglob folder (stem file ++ "*.nc") with
          | Some _ => acc
          | None =>
              Found (fluo_files acc ++ [file])
                    (analog_files acc ++ [analog_file])
                    (result_files acc ++ [result_file])
                    (colabeled_files acc ++ [colabeled_file])
          end in
        if with_colabeled self then
          match next_rglob folder (fname ++ "*_colabeled*.npy") with
          | None => continue_
          | Some colabeled_file => after_colabeled (Some colabeled_file)
          end
        else after_colabeled None
    end in
  if negb (is_NONE (analog_type self)) then
    match next_rglob folder (fname ++ "*analog*.txt") with
    | None => continue_
    | Some analog_file => after_analog (Some analog_file)
    end
  else after_analog None.

Definition visit_folder (self : FileFinder) (acc : found_files)
    (entry : Path * string) : found_files :=
  let (folder, globstr) := entry in
  fold_left (fun acc file => visit_file self folder file acc)
            (rglob folder globstr) acc.

Definition _find_all_relevant_files (self : FileFinder) : found_files :=
  fold_left (visit_folder self) (folder_globs self) (Found [] [] [] []).

(** [zip(fluo_files, result_files, analog_files, colabeled_files)], one
    table row per tuple. *)
Fixpoint _make_table (fluo : list Path) (results : list Path)
    (analogs colabs : list (option Path)) : list RecordingGroup :=
  match fluo, results, analogs, colabs with
  | f :: fluo', r :: results', a :: analogs', c :: colabs' =>
      MkGroup f r a c :: _make_table fluo' results' analogs' colabs'
  | _, _, _, _ => []
  end.

Definition find_files (self : FileFinder) : list RecordingGroup :=
  let found := _find_all_relevant_files self in
  _make_table (fluo_files found) (result_files found)
              (analog_files found) (colabeled_files found).

End FileFinder.

(** What discovery guarantees about a group: its TIF matched the glob of
    some folder, its results file is the first match of the results
    pattern in that folder, the folder holds no .nc file for its stem,
    and the analog and colabeled files are the first matches of their
    patterns when they are asked for, absent otherwise. *)
Definition discovered (rglob : Path -> string -> list Path) (self : FileFinder)
    (g : RecordingGroup) : Prop :=
  exists folder globstr,
    In (folder, globstr) (folder_globs self) /\
    In (tif g) (rglob folder globstr) /\
    next_rglob rglob folder (stem (tif g) ++ "*results.npz") = Some (caiman g) /\
    next_rglob rglob folder (stem (tif g) ++ "*.nc") = None /\
    (if is_NONE (analog_type self) then analog g = None
     else analog g <> None /\
          analog g = next_rglob rglob folder (stem (tif g) ++ "*analog*.txt")) /\
    (if with_colabeled self
     then colabeled g <> None /\
          colabeled g = next_rglob rglob folder (stem (tif g) ++ "*_colabeled*.npy")
     else colabeled g = None).

(** The table of the lists found so far, and the lists being of one
    length. *)
Definition table (found : found_files) : list RecordingGroup :=
  _make_table (fluo_files found) (result_files found)
              (analog_files found) (colabeled_files found).

Definition parallel (found : found_files) : Prop :=
  length (result_files found) = length (fluo_files found) /\
  length (analog_files found) = length (fluo_files found) /\
  length (colabeled_files found) = length (fluo_files found).

(** A small file system: three TIFs, the second without results, the
    third already analyzed. *)
Definition data_dir : Path := MkPath "/" "data".

Definition example_rglob (folder : Path) (pattern : string) : list Path :=
  if (pattern =? "*.tif")%string then
    [MkPath "/data" "fov1.tif"; MkPath "/data" "fov2.tif"; MkPath "/data" "fov3.tif"]
  else if (pattern =? "fov1*results.npz")%string then [MkPath "/data" "fov1_results.npz"]
  else if (pattern =? "fov3*results.npz")%string then [MkPath "/data" "fov3_results.npz"]
  else if (pattern =? "fov3*.nc")%string then [MkPath "/data" "fov3.nc"]
  else [].

Definition example_finder : FileFinder :=
  MkFileFinder [(data_dir, "*.tif"%string)] NONE false.

Definition example_group : RecordingGroup :=
  MkGroup (MkPath "/data" "fov1.tif") (MkPath "/data" "fov1_results.npz") None None.

(** * Further functions of the same modules *)

(** ** dff_tools.calc_mean_spike_num *)

(** [row.sum()] *)
Definition np_sum (row : list Q) : Q := fold_left Qplus row 0.

(** [all_spikes.sum(axis=1) / data.shape[1]]; the detector has returned,
    so [data] is a matrix and [data.shape[1]] exists. *)
Definition calc_mean_spike_num (rel : Peakutils.release) (data : ndarray)
    (fps thresh : Q) : result (list Q) :=
  all_spikes <- locate_spikes_peakutils rel data fps thresh ;;
  let ncols := nth 1 (shape data) 0%nat in
  Ok (map (fun row => np_sum row / inject_Z (Z.of_nat ncols)) (rows_of all_spikes)).

(** The number of 1s of a spike row. *)
Definition count_spikes (row : list Q) : nat :=
  length (filter (fun x => Qeq_bool x 1) row).


(** [f] applied to what a computation returns. *)
Definition result_map {A B : Type} (f : A -> B) (r : result A) : result B :=
  match r with
  | Ok a => Ok (f a)
  | Raise e => Raise e
  end.

(** The spec's scenario cell as a 1 x 200 matrix. *)
Definition scenario_cell_matrix : ndarray := NdArray [1%nat; 200%nat] scenario_cell.


(** ** calcium_over_time: what discovery returns for one file *)

(** The group of a file found under [folder], when it has the files it
    needs and was not analyzed before. *)
Definition group_of (rglob : Path -> string -> list Path) (self : FileFinder)
    (folder file : Path) : option RecordingGroup :=
  let wanted (needed : bool) (pattern : string) : option (option Path) :=
    if needed then option_map Some (next_rglob rglob folder (stem file ++ pattern))
    else Some None in
  match wanted (negb (is_NONE (analog_type self))) "*analog*.txt"%string,
        next_rglob rglob folder (stem file ++ "*results.npz"),
        wanted (with_colabeled self) "*_colabeled*.npy"%string,
        next_rglob rglob folder (stem file ++ "*.nc") with
  | Some analog_file, Some result_file, Some colabeled_file, None =>
      Some (MkGroup file result_file analog_file colabeled_file)
  | _, _, _, _ => None
  end.

Definition option_list {A : Type} (o : option A) : list A :=
  match o with Some a => [a] | None => [] end.

(** [l1] is [l2] with some elements left out, the order kept. *)
Inductive subseq {A : Type} : list A -> list A -> Prop :=
| subseq_nil : subseq [] []
| subseq_skip x l1 l2 : subseq l1 l2 -> subseq l1 (x :: l2)
| subseq_keep x l1 l2 : subseq l1 l2 -> subseq (x :: l1) (x :: l2).

(** ** calcium_over_time.CalciumAnalysisOverTime._get_metadata *)

(** [attrs[key]]; [None] stands for KeyError. *)
Fixpoint attrs_get (key : string) (ats : list (string * Q)) : option Q :=
  match ats with
  | [] => None
  | (k, v) :: rest => if (k =? key)%string then Some v else attrs_get key rest
  end.

(** The loop leaves at the first DataArray that has the key. *)
Fixpoint _get_metadata (list_of_da : list DataArray) (key : string) (default : Q) : Q :=
  match list_of_da with
  | [] => default
  | da :: rest =>
      match attrs_get key (attrs da) with
      | Some val => val
      | None => _get_metadata rest key default
      end
  end.

(** Three records that differ in their attributes. *)
Definition rec_no_fps : DataArray :=
  MkDataArray ["all"%string] [0%nat] [0] [[[Some 1]]] [("day"%string, 1)].

Definition rec_fps_30 : DataArray :=
  MkDataArray ["all"%string] [0%nat] [0] [[[Some 1]]] [("fps"%string, 30)].

Definition rec_fps_58 : DataArray :=
  MkDataArray ["all"%string] [0%nat] [0] [[[Some 1]]] [("fps"%string, 58)].


(** ** Archives of arrays, and further exceptions *)

Inductive py_error : Set :=
| Builtin (e : exn)
| KeyError
| UnboundLocalError
| FileNotFoundError.

Inductive outcome (A : Type) : Type :=
| Returns (a : A)
| Raises (e : py_error).

Arguments Returns {A} a.
Arguments Raises {A} e.

Definition and_then {A B : Type} (r : outcome A) (k : A -> outcome B) : outcome B :=
  match r with
  | Returns a => k a
  | Raises e => Raises e
  end.

Notation "x <~ r ;; k" := (and_then r (fun x => k))
  (at level 61, r at next level, right associativity).

Definition lift {A : Type} (r : result A) : outcome A :=
  match r with
  | Ok a => Returns a
  | Raise e => Raises (Builtin e)
  end.

(** A list comprehension over a computation that may raise. *)
Fixpoint for_each {A B : Type} (f : A -> outcome B) (l : list A) : outcome (list B) :=
  match l with
  | [] => Returns []
  | x :: rest => y <~ f x ;; ys <~ for_each f rest ;; Returns (y :: ys)
  end.

(** The content of a results file: the arrays by their key. *)
Definition npz : Set := list (string * ndarray).

Fixpoint npz_get (key : string) (data : npz) : outcome ndarray :=
  match data with
  | [] => Raises KeyError
  | (k, a) :: rest => if (k =? key)%string then Returns a else npz_get key rest
  end.

(** [np.concatenate(arrays)] along the first axis: the arrays must have
    a first axis and agree on the others. *)
Definition same_tail (tail : list nat) (b : ndarray) : bool :=
  match shape b with
  | [] => false
  | _ :: t => if list_eq_dec Nat.eq_dec t tail then true else false
  end.

Definition np_concatenate (arrays : list ndarray) : result ndarray :=
  match arrays with
  | [] => Raise ValueError
  | a :: rest =>
      match shape a with
      | [] => Raise ValueError
      | _ :: tail =>
          if forallb (same_tail tail) rest
          then Ok (NdArray (list_sum (map (fun b => hd 0%nat (shape b)) arrays) :: tail)
                           (concat (map items arrays)))
          else Raise ValueError
      end
  end.

(** ** dff_tools.calc_dff and calc_dff_batch *)

Section CalcDff.

(** [np.load(file)]: the arrays of the file, or the exception that
    opening or reading it raises. *)
Variable np_load : Path -> outcome npz.

(** [caiman_funcs_for_comparison.detrend_df_f_auto], a function of this
    code base that is not among the files at hand; [None] stands for any
    exception it raises. *)
Variable detrend_df_f_auto :
  ndarray -> ndarray -> ndarray -> ndarray -> ndarray -> option ndarray.

(** The file is loaded before the [try]: what [np.load] raises goes out
    as it is.  The [finally] clause reads [dff.shape]: when the handler
    of the KeyError raised in its turn, [dff] is unbound there and the
    UnboundLocalError replaces the exception on its way out. *)
Definition calc_dff (file : Path) : outcome ndarray :=
  data <~ np_load file ;;
  match npz_get "F_dff" data with
  | Returns dff => Returns dff
  | Raises _ =>
      match npz_get "A" data, npz_get "b" data, npz_get "C" data,
            npz_get "f" data, npz_get "YrA" data with
      | Returns A, Returns b, Returns C, Returns f, Returns YrA =>
          match detrend_df_f_auto A b C f YrA with
          | Some dff => Returns dff
          | None => Raises UnboundLocalError
          end
      | _, _, _, _, _ => Raises UnboundLocalError
      end
  end.

Definition calc_dff_batch (files : list Path) : outcome ndarray :=
  all_data <~ for_each calc_dff files ;;
  lift (np_concatenate all_data).

End CalcDff.

(** ** vasc_occ_parsing.VascOccParser._load_dff and _load_colabeled_idx *)

(** A row of [data_files], with its two files loaded. *)
Record data_row : Set := DataRow {
  row_caiman : npz;
  row_colabeled : list Z
}.

Definition _load_dff (data_files : list data_row) : outcome ndarray :=
  dff <~ for_each (fun row => npz_get "F_dff" (row_caiman row)) data_files ;;
  lift (np_concatenate dff).

(** [cur_idx.max()] *)
Definition np_max_Z (l : list Z) : result Z :=
  match l with
  | [] => Raise ValueError
  | a :: t => Ok (fold_left Z.max t a)
  end.

(** [cur_data.shape[0]] *)
Definition shape0 (a : ndarray) : result nat :=
  match shape a with
  | [] => Raise IndexError
  | n :: _ => Ok n
  end.

Fixpoint load_colabeled_loop (rows : list data_row) (num_of_cells : nat)
    (colabel_idx : list (list Z)) : outcome (list (list Z)) :=
  match rows with
  | [] => Returns colabel_idx
  | row :: rest =>
      cur_data <~ npz_get "F_dff" (row_caiman row) ;;
      let cur_idx := row_colabeled row in
      idx_max <~ lift (np_max_Z cur_idx) ;;
      n <~ lift (shape0 cur_data) ;;
      if (idx_max <=? Z.of_nat n)%Z then
        let cur_idx := map (fun i => (i + Z.of_nat num_of_cells)%Z) cur_idx in
        load_colabeled_loop rest (num_of_cells + n) (colabel_idx ++ [cur_idx])
      else Raises (Builtin AssertionError)
  end.

Definition _load_colabeled_idx (data_files : list data_row) : outcome (list Z) :=
  colabel_idx <~ load_colabeled_loop data_files 0 [] ;;
  Returns (concat colabel_idx).

(** The cells of a row's F_dff, and the cells of the rows before
    position [k]. *)
Definition row_cells (row : data_row) : nat :=
  match npz_get "F_dff" (row_caiman row) with
  | Returns a => hd 0%nat (shape a)
  | Raises _ => 0%nat
  end.

Definition rows_before (rows : list data_row) (k : nat) : nat :=
  list_sum (map row_cells (firstn k rows)).

(** What the loader accepts of a row. *)
Definition row_accepted (row : data_row) : Prop :=
  exists a n tail,
    npz_get "F_dff" (row_caiman row) = Returns a /\ shape a = n :: tail /\
    row_colabeled row <> [] /\
    forall i, In i (row_colabeled row) -> (i <= Z.of_nat n)%Z.

(** Two FOVs of 2 and 3 cells with 2 frames; the first names its cell 1
    and the index 2, one past its last cell. *)
Definition fov_a : data_row :=
  DataRow [("F_dff"%string, NdArray [2%nat; 2%nat] [10; 11; 20; 21])] [1; 2]%Z.

Definition fov_b : data_row :=
  DataRow [("F_dff"%string, NdArray [3%nat; 2%nat] [30; 31; 40; 41; 50; 51])] [0]%Z.


(** A well-shaped matrix with [c] columns. *)
Definition is_matrix (c : nat) (a : ndarray) : Prop :=
  well_shaped a /\ exists r, shape a = [r; c].

(** The index arrays that the loop of [_load_colabeled_idx] has appended
    after the rows [rows], started at [num_of_cells]. *)
Fixpoint shifted_from (rows : list data_row) (num_of_cells : nat) : list (list Z) :=
  match rows with
  | [] => []
  | row :: rest =>
      map (fun i => (i + Z.of_nat num_of_cells)%Z) (row_colabeled row)
      :: shifted_from rest (num_of_cells + row_cells row)
  end.

Definition no_row : data_row := DataRow [] [].

(** An archive without F_dff and without the arrays for detrending. *)
Definition bare_archive : npz := [("dims"%string, NdArray [2%nat] [512; 512])].

(** A folder with the results of two FOVs and a bare archive; no other
    file exists. *)
Definition example_load (file : Path) : outcome npz :=
  if (name file =? "fov_a_results.npz")%string then Returns (row_caiman fov_a)
  else if (name file =? "fov_b_results.npz")%string then Returns (row_caiman fov_b)
  else if (name file =? "bare_results.npz")%string then Returns bare_archive
  else Raises FileNotFoundError.

Definition results_a : Path := MkPath "/data" "fov_a_results.npz".
Definition results_missing : Path := MkPath "/data" "fov_c_results.npz".


(** The cells of several records under the coordinates of the first:
    what the concatenation gives for records of the same size. *)
Definition stack_cells (da0 : DataArray) (rest : list DataArray) : DataArray :=
  MkDataArray
    (epoch da0)
    (seq 0 (list_sum (map ncells (da0 :: rest))))
    (time da0)
    (map (fun e => concat (map (fun da => nth e (data da) []) (da0 :: rest)))
         (seq 0 (length (epoch da0))))
    (attrs da0).

(** The records agree with [da0] on the number of epochs and of time
    samples. *)
Definition same_frame (da0 da : DataArray) : Prop :=
  length (epoch da) = length (epoch da0) /\ length (time da) = length (time da0).


(** ** dff_tools.calc_mean_dff and calc_auc

    Both take a two-dimensional array, given here by [data.shape[1]] and
    its rows.  They compute in binary64: the rounded operations are
    parameters, and what is proved of the two functions rests on the
    sign rules of those operations, which hold whatever the rounding.
    The operations are taken on finite floats and give finite floats:
    overflow is outside the model. *)

(** A loop that appends what each step returns. *)
Fixpoint collect {A B : Type} (f : A -> result B) (l : list A) : result (list B) :=
  match l with
  | [] => Ok []
  | x :: rest => y <- f x ;; ys <- collect f rest ;; Ok (y :: ys)
  end.

(** [data.min(axis=1)]: numpy refuses to reduce over an axis of length 0. *)
Definition min_axis1 (ncols : nat) (rows : list (list Q)) : result (list Q) :=
  if (ncols =? 0)%nat then Raise ValueError else collect np_min rows.

(** [np.arange(n)] *)
Definition np_arange (n : nat) : list Q :=
  map (fun i => inject_Z (Z.of_nat i)) (seq 0 n).

Section FloatArithmetic.

(** The rounded sum, difference, product and quotient of two floats, and
    [a.sum()] in whatever order numpy adds. *)
Variables fadd fsub fmul fdiv : Q -> Q -> Q.
Variable fsum : list Q -> Q.

(** [auc / (data.shape[1] * norm_factor)]: the area is a numpy float or
    a Python float according to the release of scikit-learn, so that a
    zero divisor gives a value that is not finite or raises
    ZeroDivisionError. *)
Variable area_div : Q -> Q -> result float.

Definition calc_mean_dff (ncols : nat) (rows : list (list Q)) : result (list Q) :=
  min_vec <- min_axis1 ncols rows ;;
  let data_no_offset :=
    map (fun rm => map (fun x => fsub x (snd rm)) (fst rm)) (combine rows min_vec) in
  Ok (map (fun row => fdiv (fsum row) (inject_Z (Z.of_nat ncols))) data_no_offset).

(** [y[1:] + y[:-1]] *)
Fixpoint adjacent_sums (y : list Q) : list Q :=
  match y with
  | a :: t => match t with
              | b :: _ => fadd b a :: adjacent_sums t
              | [] => []
              end
  | [] => []
  end.

(** [np.trapz(y, x)]: [(diff(x) * (y[1:] + y[:-1]) / 2.0).sum()]. *)
Definition np_trapz (y x : list Q) : Q :=
  fsum (map (fun ds => fdiv (fmul (fst ds) (snd ds)) 2)
            (combine (np_diff x) (adjacent_sums y))).

(** [sklearn.metrics.auc(x, y)]: the two arrays have the same length and
    at least two points, and [x] is monotonic. *)
Definition sklearn_auc (x y : list Q) : result Q :=
  if negb (length x =? length y)%nat then Raise ValueError
  else if (length x <? 2)%nat then Raise ValueError
  else
    let dx := np_diff x in
    if existsb (fun d => Qltb d 0) dx then
      if forallb (fun d => Qle_bool d 0) dx then Ok (fmul (- (1)) (np_trapz y x))
      else Raise ValueError
    else Ok (fmul 1 (np_trapz y x)).

Definition calc_auc (ncols : nat) (rows : list (list Q)) (norm_factor : Q)
  : result (list float) :=
  let x := np_arange ncols in
  collect (fun cell =>
             m <- np_min cell ;;
             let no_offset := map (fun v => fsub v m) cell in
             auc <- sklearn_auc x no_offset ;;
             area_div auc (fmul (inject_Z (Z.of_nat ncols)) norm_factor))
          rows.

End FloatArithmetic.

(** The operations without rounding, for the examples. *)
Definition exact_sum (l : list Q) : Q := fold_left Qplus l 0.

Definition exact_div (a b : Q) : result float :=
  if Qeq_bool b 0 then Raise ZeroDivisionError else Ok (Some (a / b)).

Definition two_cells : list (list Q) := [[1; 3; 2]; [5; 5; 5]].

(** * Properties *)

(** ** Arrays as lists: indexing after an assignment *)

Lemma length_mapi_from {A B : Type} (f : nat -> A -> B) (l : list A) :
  forall k, length (mapi_from k f l) = length l.
Proof.
  induction l as [|x t IH]; intros k; simpl; [reflexivity|].
  now rewrite IH.
Qed.

Lemma nth_mapi_from {A B : Type} (f : nat -> A -> B) (d : A) (d' : B) (l : list A) :
  forall k i, (i < length l)%nat ->
    nth i (mapi_from k f l) d' = f (k + i)%nat (nth i l d).
Proof.
  induction l as [|x t IH]; intros k i Hi; simpl in *; [lia|].
  destruct i as [|i].
  - now rewrite Nat.add_0_r.
  - rewrite IH by lia. f_equal. lia.
Qed.

Lemma nth_mapi_from_out {A B : Type} (f : nat -> A -> B) (d' : B) (l : list A) :
  forall k i, (length l <= i)%nat -> nth i (mapi_from k f l) d' = d'.
Proof.
  intros k i Hi. apply nth_overflow. now rewrite length_mapi_from.
Qed.

Lemma length_set_at {A : Type} (i : nat) (v : A) (l : list A) :
  length (set_at i v l) = length l.
Proof. apply length_mapi_from. Qed.

Lemma length_set_slice {A : Type} (lo hi : nat) (v : A) (l : list A) :
  length (set_slice lo hi v l) = length l.
Proof. apply length_mapi_from. Qed.

Lemma length_set_many {A : Type} (idxs : list nat) (v : A) :
  forall l : list A, length (set_many idxs v l) = length l.
Proof.
  unfold set_many.
  induction idxs as [|i t IH]; intros l; simpl; [reflexivity|].
  rewrite IH. apply length_set_at.
Qed.

Lemma nth_set_at {A : Type} (i k : nat) (v d : A) (l : list A) :
  nth k (set_at i v l) d =
  if ((k =? i) && (k <? length l))%nat then v else nth k l d.
Proof.
  unfold set_at, mapi.
  destruct (Nat.ltb_spec k (length l)) as [Hk|Hk].
  - rewrite (nth_mapi_from _ d d) by assumption. simpl.
    now rewrite andb_true_r.
  - rewrite nth_mapi_from_out by assumption.
    rewrite andb_false_r. symmetry. now apply nth_overflow.
Qed.

Lemma nth_error_set_at_ne {A : Type} (i k : nat) (v : A) (l : list A) :
  k <> i -> nth_error (set_at i v l) k = nth_error l k.
Proof.
  intros Hne.
  destruct (Nat.ltb_spec k (length l)) as [Hk|Hk].
  - rewrite (nth_error_nth' _ v) by (now rewrite length_set_at).
    rewrite (nth_error_nth' _ v Hk). f_equal.
    rewrite nth_set_at.
    destruct (Nat.eqb_spec k i); [contradiction|reflexivity].
  - assert (H1 : nth_error l k = None) by (now apply nth_error_None).
    assert (H2 : nth_error (set_at i v l) k = None)
      by (apply nth_error_None; now rewrite length_set_at).
    congruence.
Qed.

Lemma nth_set_slice {A : Type} (lo hi k : nat) (v d : A) (l : list A) :
  nth k (set_slice lo hi v l) d =
  if ((lo <=? k) && (k <? hi) && (k <? length l))%nat then v else nth k l d.
Proof.
  unfold set_slice, mapi.
  destruct (Nat.ltb_spec k (length l)) as [Hk|Hk].
  - rewrite (nth_mapi_from _ d d) by assumption. simpl.
    now rewrite andb_true_r.
  - rewrite nth_mapi_from_out by assumption.
    rewrite andb_false_r. symmetry. now apply nth_overflow.
Qed.

Lemma nth_set_many {A : Type} (idxs : list nat) (v d : A) (k : nat) :
  forall l : list A,
    nth k (set_many idxs v l) d =
    if (existsb (Nat.eqb k) idxs && (k <? length l))%nat then v else nth k l d.
Proof.
  unfold set_many.
  induction idxs as [|i t IH]; intros l; simpl; [reflexivity|].
  rewrite IH, length_set_at, nth_set_at.
  destruct (k =? i)%nat, (existsb (Nat.eqb k) t), (k <? length l)%nat; reflexivity.
Qed.

Lemma existsb_eqb_In (k : nat) (l : list nat) :
  existsb (Nat.eqb k) l = true <-> In k l.
Proof.
  rewrite existsb_exists. split.
  - intros [x [Hx He]]. apply Nat.eqb_eq in He. now subst.
  - intros H. exists k. split; [assumption|apply Nat.eqb_refl].
Qed.

Lemma nth_set_many_in {A : Type} (idxs : list nat) (v d : A) (k : nat) (l : list A) :
  In k idxs -> (k < length l)%nat -> nth k (set_many idxs v l) d = v.
Proof.
  intros Hin Hk. rewrite nth_set_many.
  apply existsb_eqb_In in Hin. rewrite Hin.
  apply Nat.ltb_lt in Hk. now rewrite Hk.
Qed.

Lemma nth_set_many_out {A : Type} (idxs : list nat) (v d : A) (k : nat) (l : list A) :
  ~ In k idxs -> nth k (set_many idxs v l) d = nth k l d.
Proof.
  intros Hin. rewrite nth_set_many.
  destruct (existsb (Nat.eqb k) idxs) eqn:E; [|reflexivity].
  apply existsb_eqb_In in E. contradiction.
Qed.

Lemma nth_map_seq {A : Type} (f : nat -> A) (n e : nat) (d : A) :
  (e < n)%nat -> nth e (map f (seq 0 n)) d = f e.
Proof.
  intros He. rewrite (nth_indep _ d (f 0%nat)) by (now rewrite length_map, length_seq).
  rewrite map_nth, seq_nth by assumption. reflexivity.
Qed.

Lemma in_np_where (mask : list bool) (i : nat) :
  In i (np_where mask) <-> (i < length mask)%nat /\ nth i mask false = true.
Proof.
  unfold np_where. rewrite filter_In, in_seq. intuition lia.
Qed.

Lemma NoDup_np_where (mask : list bool) : NoDup (np_where mask).
Proof. apply NoDup_filter, seq_NoDup. Qed.

(** ** The minimum-distance loop of the peak finder *)

Section Suppress.

Variable min_dist : Z.

Lemma length_suppress_step (rem : list bool) (peak : nat) :
  length (Peakutils.suppress_step min_dist rem peak) = length rem.
Proof.
  unfold Peakutils.suppress_step.
  destruct (negb (nth peak rem true)); [|reflexivity].
  now rewrite length_set_at, length_set_slice.
Qed.

Lemma length_suppress (highest : list nat) :
  forall rem, length (Peakutils.suppress min_dist highest rem) = length rem.
Proof.
  unfold Peakutils.suppress.
  induction highest as [|h t IH]; intros rem; simpl; [reflexivity|].
  now rewrite IH, length_suppress_step.
Qed.

(** An index once removed stays removed. *)
Lemma suppress_step_kept (rem : list bool) (peak q : nat) :
  nth q (Peakutils.suppress_step min_dist rem peak) true = false ->
  nth q rem true = false.
Proof.
  unfold Peakutils.suppress_step.
  destruct (nth peak rem true) eqn:E; simpl; [trivial|].
  rewrite nth_set_at, length_set_slice, nth_set_slice.
  destruct (Nat.eqb_spec q peak) as [->|Hne]; simpl.
  - intros _. exact E.
  - destruct ((_ <=? q)%nat && (q <? _)%nat && (q <? length rem)%nat);
      [discriminate|trivial].
Qed.

Lemma suppress_kept (highest : list nat) (q : nat) :
  forall rem, nth q (Peakutils.suppress min_dist highest rem) true = false ->
              nth q rem true = false.
Proof.
  unfold Peakutils.suppress.
  induction highest as [|h t IH]; intros rem H; simpl in *; [assumption|].
  eapply suppress_step_kept, IH, H.
Qed.

(** A kept peak leaves nothing else within [min_dist] of it. *)
Lemma suppress_step_far (rem : list bool) (peak q : nat) :
  nth peak rem true = false -> q <> peak ->
  nth q (Peakutils.suppress_step min_dist rem peak) true = false ->
  (min_dist < Z.abs (Z.of_nat peak - Z.of_nat q))%Z.
Proof.
  intros E Hne. unfold Peakutils.suppress_step. rewrite E. simpl.
  rewrite nth_set_at, length_set_slice, nth_set_slice.
  destruct (Nat.eqb_spec q peak) as [Heq|_]; [contradiction|]. simpl.
  destruct (Nat.ltb_spec q (length rem)) as [Hq|Hq].
  - rewrite andb_true_r.
    destruct (Nat.leb_spec (Z.to_nat (Z.max 0 (Z.of_nat peak - min_dist))) q) as [Hlo|Hlo];
      simpl.
    + destruct (Nat.ltb_spec q (Z.to_nat (Z.of_nat peak + min_dist + 1))) as [Hhi|Hhi];
        [discriminate|].
      intros _. lia.
    + intros _. lia.
  - rewrite andb_false_r. intros H.
    rewrite nth_overflow in H by assumption. discriminate.
Qed.

Lemma suppress_spaced (highest : list nat) (p q : nat) :
  forall rem,
    In p highest -> p <> q ->
    nth p (Peakutils.suppress min_dist highest rem) true = false ->
    nth q (Peakutils.suppress min_dist highest rem) true = false ->
    (min_dist < Z.abs (Z.of_nat p - Z.of_nat q))%Z.
Proof.
  induction highest as [|h t IH]; intros rem Hin Hne Hp Hq; [contradiction|].
  destruct (Nat.eq_dec h p) as [->|Hhp].
  - change (Peakutils.suppress min_dist (p :: t) rem)
      with (Peakutils.suppress min_dist t (Peakutils.suppress_step min_dist rem p))
      in Hp, Hq.
    apply suppress_kept in Hp, Hq.
    apply (suppress_step_far rem); auto.
    now apply suppress_step_kept in Hp.
  - destruct Hin as [Heq|Hin]; [contradiction|].
    apply (IH (Peakutils.suppress_step min_dist rem h)); assumption.
Qed.

End Suppress.

Lemma in_insert_by (y : list Q) (p x : nat) (l : list nat) :
  In x (Peakutils.insert_by y p l) <-> x = p \/ In x l.
Proof.
  induction l as [|q t IH]; simpl.
  - intuition.
  - destruct (Qltb (nth p y 0) (nth q y 0)); simpl; [intuition|].
    rewrite IH. intuition.
Qed.

Lemma in_argsort_peaks (y : list Q) (peaks : list nat) (x : nat) :
  In x (Peakutils.argsort_peaks y peaks) <-> In x peaks.
Proof.
  unfold Peakutils.argsort_peaks.
  assert (H : forall acc, In x (fold_left (fun acc p => Peakutils.insert_by y p acc) peaks acc)
                          <-> In x peaks \/ In x acc).
  { induction peaks as [|p t IH]; intros acc; simpl; [intuition|].
    rewrite IH, in_insert_by. intuition. }
  rewrite H. simpl. intuition.
Qed.

Lemma nth_map_negb (l : list bool) (i : nat) :
  nth i (map negb l) false = negb (nth i l true).
Proof. exact (map_nth negb l true i). Qed.

(** Whatever the filter returns is a candidate peak inside the signal,
    and two returned peaks are at least [min_dist] apart. *)
Lemma enforce_min_dist_bound (y : list Q) (peaks : list nat) (min_dist : Z) (i : nat) :
  (forall p, In p peaks -> (p < length y)%nat) ->
  In i (Peakutils.enforce_min_dist y peaks min_dist) -> (i < length y)%nat.
Proof.
  intros Hb. unfold Peakutils.enforce_min_dist.
  destruct ((1 <? length peaks)%nat && (1 <? min_dist)%Z); [|apply Hb].
  rewrite in_np_where, length_map, length_suppress, length_set_many, repeat_length.
  tauto.
Qed.

Lemma enforce_min_dist_spaced (y : list Q) (peaks : list nat) (min_dist : Z) (i j : nat) :
  (forall p, In p peaks -> ~ In (S p) peaks) ->
  In i (Peakutils.enforce_min_dist y peaks min_dist) ->
  In j (Peakutils.enforce_min_dist y peaks min_dist) ->
  (i < j)%nat ->
  (min_dist < Z.of_nat j - Z.of_nat i)%Z.
Proof.
  intros Hadj. unfold Peakutils.enforce_min_dist.
  destruct (Nat.ltb_spec 1 (length peaks)) as [Hlen|Hlen]; simpl.
  - destruct (Z.ltb_spec 1 min_dist) as [Hmd|Hmd].
    + rewrite !in_np_where, !nth_map_negb, !negb_true_iff.
      intros [_ Hi] [_ Hj] Hlt.
      assert (Hin : In i (rev (Peakutils.argsort_peaks y peaks))).
      { rewrite <- in_rev, in_argsort_peaks.
        apply suppress_kept in Hi.
        rewrite nth_set_many in Hi.
        destruct (existsb (Nat.eqb i) peaks) eqn:E.
        - now apply existsb_eqb_In in E.
        - simpl in Hi. rewrite nth_repeat in Hi. discriminate. }
      assert (Hne : i <> j) by lia.
      pose proof (suppress_spaced min_dist _ _ Hin Hne Hi Hj). lia.
    + intros Hi Hj Hlt.
      assert (j <> S i) by (intros ->; exact (Hadj i Hi Hj)). lia.
  - intros Hi Hj Hlt.
    destruct peaks as [|a [|b t]]; simpl in *; try lia; intuition lia.
Qed.

Lemma length_peak_mask (y dy : list Q) (thres : Q) :
  length (Peakutils.peak_mask y dy thres) = length y.
Proof. unfold Peakutils.peak_mask. now rewrite length_map, length_seq. Qed.

Lemma nth_app_zero (dy : list Q) (i : nat) : nth i (dy ++ [0]) 0 = nth i dy 0.
Proof.
  destruct (Nat.ltb_spec i (length dy)) as [Hi|Hi].
  - now apply app_nth1.
  - rewrite app_nth2 by assumption. rewrite (nth_overflow dy) by assumption.
    destruct (i - length dy)%nat as [|[|k]]; reflexivity.
Qed.

(** A slope cannot fall and rise at once: two neighbouring indices are
    never both candidate peaks. *)
Lemma peak_mask_no_adjacent (y dy : list Q) (thres : Q) (i : nat) :
  In i (np_where (Peakutils.peak_mask y dy thres)) ->
  ~ In (S i) (np_where (Peakutils.peak_mask y dy thres)).
Proof.
  rewrite !in_np_where, length_peak_mask. unfold Peakutils.peak_mask.
  intros [Hi Hmi] [Hs Hms].
  rewrite nth_map_seq in Hmi by assumption.
  rewrite nth_map_seq in Hms by assumption.
  simpl in Hms. rewrite nth_app_zero in Hmi.
  apply andb_prop in Hmi. destruct Hmi as [Hmi _].
  apply andb_prop in Hmi. destruct Hmi as [Hfall _].
  apply andb_prop in Hms. destruct Hms as [Hms _].
  apply andb_prop in Hms. destruct Hms as [_ Hrise].
  unfold Qltb in Hfall, Hrise. apply negb_true_iff in Hfall, Hrise.
  destruct (Qlt_le_dec (nth i dy 0) 0) as [Hlt|Hle].
  - apply Qlt_le_weak, Qle_bool_iff in Hlt. congruence.
  - apply Qle_bool_iff in Hle. congruence.
Qed.

Lemma length_np_diff (y : list Q) : length (np_diff y) = (length y - 1)%nat.
Proof.
  induction y as [|a t IH]; [reflexivity|].
  destruct t as [|b t']; [reflexivity|].
  change (np_diff (a :: b :: t')) with ((b - a) :: np_diff (b :: t')).
  simpl length in *. lia.
Qed.

Lemma nth_np_diff (y : list Q) :
  forall k, (S k < length y)%nat -> nth k (np_diff y) 0 = nth (S k) y 0 - nth k y 0.
Proof.
  induction y as [|a t IH]; intros k Hk; [simpl in Hk; lia|].
  destruct t as [|b t']; [simpl in Hk; lia|].
  change (np_diff (a :: b :: t')) with ((b - a) :: np_diff (b :: t')).
  destruct k as [|k]; [reflexivity|].
  simpl nth at 1. rewrite IH by (simpl in *; lia). reflexivity.
Qed.

(** ** The plateau filling reads inside the slope array *)

Lemma getitem_ok (l : list Q) (k : Z) :
  (- Z.of_nat (length l) <= k < Z.of_nat (length l))%Z ->
  exists v, getitem l k = Ok v.
Proof.
  intros Hk. unfold getitem.
  destruct (Z.ltb_spec k 0) as [Hneg|Hpos].
  - destruct (Z.leb_spec 0 (k + Z.of_nat (length l))); [|lia].
    destruct (Z.ltb_spec (k + Z.of_nat (length l)) (Z.of_nat (length l))); [|lia].
    simpl. eexists. reflexivity.
  - destruct (Z.leb_spec 0 k); [|lia].
    destruct (Z.ltb_spec k (Z.of_nat (length l))); [|lia].
    simpl. eexists. reflexivity.
Qed.

Lemma hd_run (a len : nat) : hd 0%nat (seq a (S len)) = a.
Proof. reflexivity. Qed.

Lemma last_run (a len : nat) : last (seq a (S len)) 0%nat = (a + len)%nat.
Proof. rewrite seq_S. apply last_last. Qed.

Lemma runs_ok_hd_bound (n : nat) (r : list nat) (rest : list (list nat)) :
  runs_ok n (r :: rest) -> (hd 0%nat r < n)%nat.
Proof.
  intros [(a & len & -> & Hb & Hn) _]. rewrite hd_run. lia.
Qed.

Lemma sorted_filter_seq (f : nat -> bool) (n : nat) :
  forall a, StronglySorted lt (filter f (seq a n)).
Proof.
  induction n as [|n IH]; intros a; simpl; [constructor|].
  destruct (f a); [|apply IH].
  constructor; [apply IH|].
  apply Forall_forall. intros x Hx. apply filter_In in Hx.
  destruct Hx as [Hx _]. apply in_seq in Hx. lia.
Qed.

Lemma zero_plateaus_ok (n : nat) (zs : list nat) :
  StronglySorted lt zs -> Forall (fun z => z < n)%nat zs ->
  runs_ok n (Peakutils.zero_plateaus zs) /\
  concat (Peakutils.zero_plateaus zs) = zs.
Proof.
  induction zs as [|z rest IH]; intros Hs Hb; [split; [exact I|reflexivity]|].
  inversion Hs as [|? ? Hs' Hlt]; subst. inversion Hb as [|? ? Hz Hb']; subst.
  destruct (IH Hs' Hb') as (Hok & Hcat). simpl.
  destruct (Peakutils.zero_plateaus rest) as [|r runs] eqn:E.
  - simpl in Hcat. subst rest. split; [|reflexivity].
    split; [|exact I]. exists z, 0%nat. simpl. repeat split; lia.
  - destruct Hok as [(a & len & -> & Hbound & Hn) Hok'].
    assert (Hza : (z < a)%nat).
    { rewrite <- Hcat in Hlt. simpl in Hlt. now inversion Hlt. }
    change (seq a (S len)) with (a :: seq (S a) len) in *. cbv beta iota.
    destruct (Nat.eqb_spec a (S z)) as [->|Hne].
    + split; [|cbn [concat app] in *; now rewrite Hcat].
      split; [|assumption].
      exists z, (S len). split; [reflexivity|]. split; [lia|assumption].
    + split; [|cbn [concat app] in *; now rewrite Hcat].
      split; [|split; [|assumption]].
      * exists z, 0%nat. simpl. repeat split; lia.
      * exists a, len. repeat split; assumption.
Qed.

(** The left edge: the slope after the plateau exists unless the plateau
    is the whole array. *)
Lemma fix_leftmost_total (n : nat) (dy : list Q) (runs : list (list nat)) :
  length dy = n -> runs_ok n runs -> length (concat runs) <> n ->
  exists dy' runs',
    Peakutils.fix_leftmost (dy, runs) = Ok (dy', runs') /\
    length dy' = n /\ runs_ok n runs'.
Proof.
  intros Hlen Hok Hnf. unfold Peakutils.fix_leftmost.
  destruct runs as [|p0 ps]; [now exists dy, []|].
  destruct (Nat.eqb_spec (hd 0%nat p0) 0) as [Hhd|Hhd]; [|now exists dy, (p0 :: ps)].
  destruct Hok as [(a & len & -> & Hbound & Hn) Hok'].
  rewrite hd_run in Hhd. subst a. rewrite last_run. simpl Nat.add.
  assert (Hin : (S len < n)%nat).
  { destruct ps as [|r' ps'].
    - simpl in Hnf. rewrite app_nil_r, length_seq in Hnf. lia.
    - pose proof (runs_ok_hd_bound Hok'). lia. }
  destruct (@getitem_ok dy (Z.of_nat len + 1)) as (v & ->); [lia|].
  cbn [bind]. exists (set_many (seq 0 (S len)) v dy), ps.
  split; [reflexivity|]. split; [now rewrite length_set_many|assumption].
Qed.

Lemma runs_ok_removelast (n : nat) (runs : list (list nat)) :
  runs_ok n runs -> Forall (inner_run n) (removelast runs).
Proof.
  induction runs as [|r rest IH]; intros Hok; [constructor|].
  destruct rest as [|r' rest']; [constructor|].
  destruct Hok as [(a & len & -> & Hbound & Hn) Hok'].
  change (removelast (seq a (S len) :: r' :: rest'))
    with (seq a (S len) :: removelast (r' :: rest')).
  constructor; [|now apply IH].
  exists a, len. split; [reflexivity|].
  pose proof (runs_ok_hd_bound Hok'). lia.
Qed.

Lemma runs_ok_last (n : nat) (runs : list (list nat)) :
  runs_ok n runs -> runs <> [] -> is_run n n (last runs []).
Proof.
  induction runs as [|r rest IH]; intros Hok Hne; [contradiction|].
  destruct rest as [|r' rest'].
  - destruct Hok as [Hr _]. exact Hr.
  - destruct Hok as [_ Hok']. apply IH; [assumption|discriminate].
Qed.

Lemma fix_rightmost_total (n : nat) (dy : list Q) (runs : list (list nat)) :
  length dy = n -> runs_ok n runs ->
  exists dy' runs',
    Peakutils.fix_rightmost (dy, runs) = Ok (dy', runs') /\
    length dy' = n /\ Forall (inner_run n) runs'.
Proof.
  intros Hlen Hok. unfold Peakutils.fix_rightmost.
  destruct runs as [|r0 rs] eqn:Er; [exists dy, []; repeat split; auto|].
  rewrite <- Er in *.
  assert (Hne : runs <> []) by (rewrite Er; discriminate).
  destruct (@runs_ok_last n runs Hok Hne) as (a & len & Hlast & Hbound & _).
  rewrite Hlast, last_run, hd_run.
  destruct (Nat.eqb_spec (a + len) (length dy - 1)) as [Hend|Hend].
  - destruct (@getitem_ok dy (Z.of_nat a - 1)) as (v & ->); [lia|].
    cbn [bind]. eexists _, _. split; [reflexivity|].
    split; [now rewrite length_set_many|now apply runs_ok_removelast].
  - exists dy, runs. split; [reflexivity|]. split; [assumption|].
    rewrite (app_removelast_last [] Hne). apply Forall_app. split.
    + now apply runs_ok_removelast.
    + constructor; [|constructor]. exists a, len. split; [assumption|lia].
Qed.

Lemma fill_each_total (n : nat) (runs : list (list nat)) :
  Forall (inner_run n) runs ->
  forall dy, length dy = n -> exists dy', Peakutils.fill_each dy runs = Ok dy'.
Proof.
  induction 1 as [|r rest (a & len & -> & Hb) _ IH]; intros dy Hlen;
    cbn [Peakutils.fill_each].
  - now exists dy.
  - unfold Peakutils.fill_plateau. rewrite hd_run, last_run.
    destruct (@getitem_ok dy (Z.of_nat a - 1)) as (v & ->); [lia|]. cbn [bind].
    match goal with
    | |- context [getitem ?l ?k] =>
        destruct (@getitem_ok l k) as (w & ->);
        [rewrite length_set_many; lia|]
    end.
    cbn [bind]. apply IH. now rewrite !length_set_many.
Qed.

(** Unless every slope is zero, the plateau filling returns. *)
Lemma fill_plateaus_total (dy : list Q) :
  let zeros := np_where (map (fun d => Qeq_bool d 0) dy) in
  length zeros <> length dy ->
  exists dy', Peakutils.fill_plateaus dy zeros = Ok dy'.
Proof.
  intros zeros Hnf. unfold Peakutils.fill_plateaus.
  destruct zeros as [|z zs] eqn:Ez; [now exists dy|]. rewrite <- Ez in *.
  assert (Hsorted : StronglySorted lt zeros) by apply sorted_filter_seq.
  assert (Hbound : Forall (fun z => z < length dy)%nat zeros).
  { apply Forall_forall. intros x Hx. apply in_np_where in Hx.
    now rewrite length_map in Hx. }
  destruct (zero_plateaus_ok Hsorted Hbound) as (Hok & Hcat).
  destruct (@fix_leftmost_total (length dy) dy (Peakutils.zero_plateaus zeros)
              eq_refl Hok) as (dy1 & runs1 & -> & Hl1 & Hok1);
    [now rewrite Hcat|].
  cbn [bind].
  destruct (@fix_rightmost_total (length dy) dy1 runs1 Hl1 Hok1)
    as (dy2 & runs2 & -> & Hl2 & Hin2).
  cbn [bind fst snd]. now apply (fill_each_total Hin2).
Qed.

(** What [indexes] can return. *)
Lemma indexes_cases {rel : Peakutils.release} (y : list Q) (thres : Q) (min_dist : Z) (ia : index_array) :
  Peakutils.indexes rel y thres min_dist = Ok ia ->
  ia = IndexArray float64 [] \/
  (idx_dtype ia = int64 /\
   (forall i, In i (idx ia) -> (i < length y)%nat) /\
   (forall i j, In i (idx ia) -> In j (idx ia) -> (i < j)%nat ->
                (min_dist < Z.of_nat j - Z.of_nat i)%Z)).
Proof.
  unfold Peakutils.indexes.
  destruct (np_max y) as [ymax|e]; simpl; [|discriminate].
  destruct (np_min y) as [ymin|e]; simpl; [|discriminate].
  destruct (_ =? _)%nat.
  - intros H. injection H as <-. destruct rel; [now left|].
    right. simpl. split; [reflexivity|]. split; intros; contradiction.
  - destruct (Peakutils.fill_plateaus _ _) as [dy|e]; simpl; [|discriminate].
    intros H. injection H as <-. right. simpl.
    split; [reflexivity|]. split.
    + intros i. apply enforce_min_dist_bound.
      intros p Hp. apply in_np_where in Hp. now rewrite length_peak_mask in Hp.
    + intros i j. apply enforce_min_dist_spaced.
      intros p. apply peak_mask_no_adjacent.
Qed.

(** [indexes] raises on an empty signal only. *)
Lemma indexes_raises {rel : Peakutils.release} (y : list Q) (thres : Q) (min_dist : Z) (e : exn) :
  Peakutils.indexes rel y thres min_dist = Raise e -> y = [] /\ e = ValueError.
Proof.
  unfold Peakutils.indexes.
  destruct y as [|a t]; [simpl; intros H; now injection H as <-|].
  cbn [np_max np_min bind].
  destruct (_ =? _)%nat eqn:T; [discriminate|].
  apply Nat.eqb_neq in T.
  destruct (@fill_plateaus_total (np_diff (a :: t))) as (dy' & Hdy).
  - rewrite length_np_diff. exact T.
  - cbv zeta in Hdy. rewrite Hdy. discriminate.
Qed.

(** ** Rows of a two-dimensional array *)

Lemma length_chunks (r c : nat) : forall l, length (chunks r c l) = r.
Proof. induction r as [|r IH]; intros l; simpl; [reflexivity|now rewrite IH]. Qed.

Lemma chunks_row_length (r c : nat) :
  forall l row, length l = (r * c)%nat -> In row (chunks r c l) -> length row = c.
Proof.
  induction r as [|r IH]; intros l row Hl Hin; simpl in *; [contradiction|].
  destruct Hin as [<-|Hin].
  - rewrite length_firstn. lia.
  - apply (IH (skipn c l)); [|assumption]. rewrite length_skipn. lia.
Qed.

Lemma chunks_concat (c : nat) (rows : list (list Q)) :
  (forall row, In row rows -> length row = c) ->
  chunks (length rows) c (concat rows) = rows.
Proof.
  induction rows as [|row t IH]; intros H; simpl; [reflexivity|].
  assert (Hrow : length row = c) by (apply H; now left).
  rewrite firstn_app, skipn_app, Hrow, Nat.sub_diag. simpl.
  rewrite firstn_all2 by lia. rewrite skipn_all2 by lia. simpl.
  rewrite app_nil_r. f_equal. apply IH. intros r' Hr'. apply H. now right.
Qed.

Lemma rows_of_well_shaped (a : ndarray) (r c : nat) (row : list Q) :
  well_shaped a -> shape a = [r; c] -> In row (rows_of a) -> length row = c.
Proof.
  unfold well_shaped, rows_of. intros Hw Hs. rewrite Hs in *. simpl in Hw.
  apply chunks_row_length. lia.
Qed.

(** ** The loop of [locate_spikes_peakutils] *)

Lemma setitem_row_ok (m : list (list Q)) (row : nat) (peaks : index_array) (v : Q)
    (m' : list (list Q)) :
  setitem_row m row peaks v = Ok m' ->
  idx_dtype peaks = int64 /\ (row < length m)%nat /\
  m' = set_at row (set_many (idx peaks) v (nth row m [])) m.
Proof.
  unfold setitem_row. destruct (idx_dtype peaks); [|discriminate].
  destruct (nth_error m row) as [r|] eqn:E; [|discriminate].
  destruct (forallb _ _); [|discriminate].
  intros H. injection H as <-.
  split; [reflexivity|]. split.
  - apply nth_error_Some. congruence.
  - now rewrite (nth_error_nth _ _ _ E).
Qed.

Lemma spikes_loop_spec {rel : Peakutils.release} (thresh : Q) (min_dist : Z) (cells : list (list Q)) :
  forall row m out,
    spikes_loop rel thresh min_dist cells row m = Ok out ->
    length out = length m /\
    (forall k, (k < row \/ row + length cells <= k)%nat -> nth k out [] = nth k m []) /\
    (forall k cell, nth_error cells k = Some cell ->
       (row + k < length m)%nat /\
       exists peaks,
         Peakutils.indexes rel cell thresh min_dist = Ok (IndexArray int64 peaks) /\
         nth (row + k) out [] = set_many peaks 1 (nth (row + k) m [])).
Proof.
  induction cells as [|cell rest IH]; intros row m out H; simpl in H.
  - injection H as <-. split; [reflexivity|]. split; [reflexivity|].
    intros [|k] cell Hc; discriminate.
  - destruct (Peakutils.indexes rel cell thresh min_dist) as [peaks|e] eqn:Ei;
      simpl in H; [|discriminate].
    destruct (setitem_row m row peaks 1) as [m'|e] eqn:Es; simpl in H; [|discriminate].
    apply setitem_row_ok in Es. destruct Es as (Hdt & Hrow & ->).
    apply IH in H. destruct H as (Hlen & Hout & Hin).
    rewrite length_set_at in Hlen, Hin.
    split; [assumption|]. split.
    + intros k Hk. rewrite Hout by (simpl in Hk; lia).
      rewrite nth_set_at.
      destruct (Nat.eqb_spec k row); [simpl in Hk; lia|reflexivity].
    + intros [|k] c Hc; simpl in Hc.
      * injection Hc as <-. rewrite Nat.add_0_r. split; [assumption|].
        exists (idx peaks). split.
        -- destruct peaks as [dt l]. simpl in Hdt. now subst dt.
        -- rewrite Hout by lia. rewrite nth_set_at, Nat.eqb_refl.
           apply Nat.ltb_lt in Hrow. now rewrite Hrow.
      * destruct (Hin k c Hc) as (Hb & peaks' & Hp & Hn).
        replace (row + S k)%nat with (S row + k)%nat by lia.
        split; [assumption|]. exists peaks'. split; [assumption|].
        rewrite Hn, nth_set_at.
        destruct (Nat.eqb_spec (S row + k) row); [lia|reflexivity].
Qed.

Lemma nth_zeros_like (rows : list (list Q)) (k : nat) :
  nth k (zeros_like rows) [] = repeat 0 (length (nth k rows [])).
Proof.
  unfold zeros_like.
  destruct (Nat.ltb_spec k (length rows)) as [Hk|Hk].
  - now rewrite (nth_indep _ [] (repeat 0 (length (@nil Q)))), (map_nth (fun r => repeat 0 (length r)))
      by (now rewrite length_map).
  - rewrite !nth_overflow by (try rewrite length_map; assumption). reflexivity.
Qed.

(** The detector row by row: output row [k] is a row of zeros with a 1 at
    each index that the peak finder returned for cell [k]. *)
Lemma locate_spikes_rows {rel : Peakutils.release} (data : ndarray) (fps thresh : Q) (out : ndarray) :
  well_shaped data ->
  locate_spikes_peakutils rel data fps thresh = Ok out ->
  shape out = shape data /\
  exists r c, shape data = [r; c] /\ (0 < r)%nat /\
    length (rows_of out) = r /\
    forall k cell, nth_error (rows_of data) k = Some cell ->
      length cell = c /\
      exists peaks,
        Peakutils.indexes rel cell thresh (py_int fps) = Ok (IndexArray int64 peaks) /\
        nth_error (rows_of out) k = Some (set_many peaks 1 (repeat 0 c)).
Proof.
  intros Hw. unfold locate_spikes_peakutils.
  destruct (shape data) as [|r [|c [|x s]]] eqn:Hs; try discriminate.
  destruct (Nat.ltb_spec 0 r) as [Hr|Hr]; [|discriminate].
  destruct (spikes_loop rel _ _ _ _ _) as [rows|e] eqn:El; simpl; [|discriminate].
  intros H. injection H as <-. simpl. split; [reflexivity|].
  exists r, c. split; [reflexivity|]. split; [assumption|].
  apply spikes_loop_spec in El. destruct El as (Hlen & _ & Hin).
  assert (Hnrows : length (rows_of data) = r).
  { unfold rows_of. rewrite Hs. apply length_chunks. }
  assert (Hrows : length rows = r).
  { rewrite Hlen. unfold zeros_like. now rewrite length_map. }
  assert (Hrow : forall k cell, nth_error (rows_of data) k = Some cell ->
            length cell = c /\
            exists peaks,
              Peakutils.indexes rel cell thresh (py_int fps) = Ok (IndexArray int64 peaks) /\
              nth k rows [] = set_many peaks 1 (repeat 0 c)).
  { intros k cell Hc.
    assert (Hcl : length cell = c).
    { eapply rows_of_well_shaped; [exact Hw|exact Hs|]. eapply nth_error_In, Hc. }
    split; [assumption|].
    destruct (Hin k cell Hc) as (_ & peaks & Hp & Hn). simpl in Hn.
    exists peaks. split; [assumption|].
    now rewrite Hn, nth_zeros_like, (nth_error_nth _ _ _ Hc), Hcl. }
  assert (Hall : forall row, In row rows -> length row = c).
  { intros row Hr'. apply (In_nth _ _ []) in Hr'. destruct Hr' as (k & Hk & <-).
    destruct (nth_error (rows_of data) k) as [cell|] eqn:Ec.
    - destruct (Hrow k cell Ec) as (_ & peaks & _ & ->).
      now rewrite length_set_many, repeat_length.
    - apply nth_error_None in Ec. lia. }
  assert (Hro : rows_of (NdArray [r; c] (concat rows)) = rows).
  { unfold rows_of. simpl. rewrite <- Hrows. now apply chunks_concat. }
  rewrite Hro. split; [assumption|].
  intros k cell Hc. destruct (Hrow k cell Hc) as (Hcl & peaks & Hp & Hn).
  split; [assumption|]. exists peaks. split; [assumption|].
  rewrite <- Hn. apply nth_error_nth'.
  rewrite Hrows, <- Hnrows. apply nth_error_Some. congruence.
Qed.

(** ** Flat signals *)

Lemma filter_full {A : Type} (f : A -> bool) (l : list A) :
  length (filter f l) = length l -> forall x, In x l -> f x = true.
Proof.
  induction l as [|a t IH]; intros Hlen x Hin; [contradiction|].
  simpl in Hlen. pose proof (filter_length_le f t) as Hle.
  destruct (f a) eqn:E; simpl in Hlen; [|lia].
  destruct Hin as [<-|Hin]; [assumption|]. apply IH; [lia|assumption].
Qed.

(** The flatness test of the peak finder only fires on flat signals. *)
Lemma flat_test_sound (y : list Q) :
  length (np_where (map (fun d => Qeq_bool d 0) (np_diff y))) = (length y - 1)%nat ->
  flat y.
Proof.
  intros H k Hk.
  unfold np_where in H. rewrite length_map, length_np_diff in H.
  assert (Hlen : length (seq 0 (length y - 1)) = (length y - 1)%nat) by apply length_seq.
  rewrite <- Hlen in H at 2.
  pose proof (filter_full _ _ H k) as Hf.
  rewrite in_seq in Hf. specialize (Hf ltac:(lia)).
  rewrite (nth_indep _ false (Qeq_bool 0 0)) in Hf
    by (rewrite length_map, length_np_diff; lia).
  rewrite (map_nth (fun d => Qeq_bool d 0)) in Hf.
  apply Qeq_bool_eq in Hf. rewrite nth_np_diff in Hf by assumption.
  setoid_replace (nth (S k) y 0) with ((nth (S k) y 0 - nth k y 0) + nth k y 0) by ring.
  rewrite Hf. ring.
Qed.

Lemma indexes_not_flat {rel : Peakutils.release} (y : list Q) (thres : Q) (min_dist : Z) :
  ~ flat y ->
  exists peaks, Peakutils.indexes rel y thres min_dist = Ok (IndexArray int64 peaks) /\
                forall i, In i peaks -> (i < length y)%nat.
Proof.
  intros Hnf.
  destruct (Peakutils.indexes rel y thres min_dist) as [ia|e] eqn:E.
  - destruct (indexes_cases _ _ _ E) as [->|(Hdt & Hb & _)].
    + exfalso. apply Hnf. apply flat_test_sound.
      unfold Peakutils.indexes in E.
      destruct (np_max y); simpl in E; [|discriminate].
      destruct (np_min y); simpl in E; [|discriminate].
      destruct (_ =? _)%nat eqn:T in E; [now apply Nat.eqb_eq in T|].
      destruct (Peakutils.fill_plateaus _ _) in E; discriminate.
    + destruct ia as [dt l]. simpl in *. subst dt. now exists l.
  - exfalso. apply indexes_raises in E. destruct E as [-> _].
    apply Hnf. intros k Hk. simpl in Hk. lia.
Qed.

Lemma spikes_loop_total {rel : Peakutils.release} (thresh : Q) (min_dist : Z) (cells : list (list Q)) :
  forall row m,
    (forall cell, In cell cells -> ~ flat cell) ->
    (forall k cell, nth_error cells k = Some cell ->
                    exists r, nth_error m (row + k) = Some r /\ length r = length cell) ->
    exists out, spikes_loop rel thresh min_dist cells row m = Ok out.
Proof.
  induction cells as [|cell rest IH]; intros row m Hnf Hm; simpl.
  - now exists m.
  - destruct (@indexes_not_flat rel cell thresh min_dist (Hnf cell (or_introl eq_refl)))
      as (peaks & -> & Hb). simpl.
    destruct (Hm 0%nat cell eq_refl) as (r & Hr & Hlen).
    rewrite Nat.add_0_r in Hr.
    unfold setitem_row. simpl. rewrite Hr.
    assert (Hall : forallb (fun i => (i <? length r)%nat) peaks = true).
    { apply forallb_forall. intros i Hi. apply Nat.ltb_lt. rewrite Hlen. now apply Hb. }
    rewrite Hall. simpl.
    apply IH.
    + intros c Hc. apply Hnf. now right.
    + intros k c Hc. destruct (Hm (S k) c Hc) as (r' & Hr' & Hlen').
      exists r'. split; [|assumption].
      replace (S row + k)%nat with (row + S k)%nat by lia.
      rewrite <- Hr'. apply nth_error_set_at_ne. lia.
Qed.

(** ** Flat cells *)

Lemma filter_all_true {A : Type} (f : A -> bool) (l : list A) :
  (forall x, In x l -> f x = true) -> filter f l = l.
Proof.
  induction l as [|x t IH]; intros H; simpl; [reflexivity|].
  rewrite (H x (or_introl eq_refl)), IH by (intros y Hy; apply H; now right).
  reflexivity.
Qed.

(** The peak finder answers a flat signal with an empty array of the
    release's element type. *)
Lemma indexes_flat (rel : Peakutils.release) (y : list Q) (thres : Q) (min_dist : Z) :
  flat y -> y <> [] ->
  Peakutils.indexes rel y thres min_dist = Ok (IndexArray (Peakutils.flat_dtype rel) []).
Proof.
  intros Hf Hne. unfold Peakutils.indexes.
  assert (Hmax : exists M, np_max y = Ok M)
    by (destruct y; [congruence|eexists; reflexivity]).
  assert (Hmin : exists m, np_min y = Ok m)
    by (destruct y; [congruence|eexists; reflexivity]).
  destruct Hmax as (M & ->). destruct Hmin as (m & ->). cbn [bind]. cbv zeta.
  replace (length (np_where (map (fun d => Qeq_bool d 0) (np_diff y))) =? length y - 1)%nat
    with true; [reflexivity|].
  symmetry. apply Nat.eqb_eq. unfold np_where.
  rewrite filter_all_true.
  - now rewrite length_seq, length_map, length_np_diff.
  - intros k Hk. apply in_seq in Hk. rewrite length_map, length_np_diff in Hk.
    rewrite (nth_indep _ false (Qeq_bool 0 0))
      by (rewrite length_map, length_np_diff; lia).
    rewrite (map_nth (fun d => Qeq_bool d 0)).
    apply Qeq_bool_iff. rewrite nth_np_diff by lia.
    rewrite (Hf k) by lia. ring.
Qed.

(** From release 1.3.5 on, every index array is an integer array. *)
Lemma indexes_from_1_3_5 (y : list Q) (thres : Q) (min_dist : Z) (ia : index_array) :
  Peakutils.indexes Peakutils.from_1_3_5 y thres min_dist = Ok ia ->
  idx_dtype ia = int64 /\ forall i, In i (idx ia) -> (i < length y)%nat.
Proof.
  intros H. destruct (indexes_cases _ _ _ H) as [->|(Hd & Hb & _)]; [|now split].
  exfalso. unfold Peakutils.indexes in H.
  destruct (np_max y); simpl in H; [|discriminate].
  destruct (np_min y); simpl in H; [|discriminate].
  destruct (_ =? _)%nat in H; [discriminate|].
  destruct (Peakutils.fill_plateaus _ _) in H; discriminate.
Qed.

Lemma setitem_row_raises (m : list (list Q)) (row : nat) (peaks : index_array) (v : Q)
    (e : exn) :
  setitem_row m row peaks v = Raise e -> e = IndexError.
Proof.
  unfold setitem_row. destruct (idx_dtype peaks); [|congruence].
  destruct (nth_error m row); [|congruence].
  destruct (forallb _ _); congruence.
Qed.

(** Up to release 1.3.4 a flat cell stops the loop. *)
Lemma spikes_loop_flat (thresh : Q) (min_dist : Z) (cells : list (list Q)) :
  forall row m,
    (forall cell, In cell cells -> cell <> []) ->
    (exists cell, In cell cells /\ flat cell) ->
    spikes_loop Peakutils.upto_1_3_4 thresh min_dist cells row m = Raise IndexError.
Proof.
  induction cells as [|cell rest IH]; intros row m Hne (bad & Hin & Hflat);
    [contradiction|].
  cbn [spikes_loop].
  destruct (Peakutils.indexes Peakutils.upto_1_3_4 cell thresh min_dist)
    as [peaks|e] eqn:Ei.
  - cbn [bind].
    destruct (setitem_row m row peaks 1) as [m'|e] eqn:Es.
    + cbn [bind]. apply IH; [intros c Hc; apply Hne; now right|].
      exists bad. split; [|assumption].
      destruct Hin as [<-|Hin]; [|assumption].
      rewrite (indexes_flat Peakutils.upto_1_3_4 thresh min_dist Hflat
                 (Hne cell (or_introl eq_refl))) in Ei.
      injection Ei as <-. discriminate Es.
    + cbn [bind]. now rewrite (setitem_row_raises _ _ _ _ Es).
  - apply indexes_raises in Ei. destruct Ei as (-> & _).
    now destruct (Hne [] (or_introl eq_refl)).
Qed.

(** From release 1.3.5 on the loop goes through every matrix whose cells
    have a frame. *)
Lemma spikes_loop_returns (thresh : Q) (min_dist : Z) (cells : list (list Q)) :
  forall row m,
    (forall cell, In cell cells -> cell <> []) ->
    (forall k cell, nth_error cells k = Some cell ->
                    exists r, nth_error m (row + k) = Some r /\ length r = length cell) ->
    exists out, spikes_loop Peakutils.from_1_3_5 thresh min_dist cells row m = Ok out.
Proof.
  induction cells as [|cell rest IH]; intros row m Hne Hm; cbn [spikes_loop].
  - now exists m.
  - destruct (Peakutils.indexes Peakutils.from_1_3_5 cell thresh min_dist)
      as [peaks|e] eqn:Ei.
    + cbn [bind]. destruct (indexes_from_1_3_5 _ _ _ Ei) as (Hdt & Hb).
      destruct (Hm 0%nat cell eq_refl) as (r & Hr & Hlen).
      rewrite Nat.add_0_r in Hr.
      unfold setitem_row. rewrite Hdt, Hr.
      assert (Hall : forallb (fun i => (i <? length r)%nat) (idx peaks) = true).
      { apply forallb_forall. intros i Hi. apply Nat.ltb_lt. rewrite Hlen. now apply Hb. }
      rewrite Hall. cbn [bind].
      apply IH.
      * intros c Hc. apply Hne. now right.
      * intros k c Hc. destruct (Hm (S k) c Hc) as (r' & Hr' & Hlen').
        exists r'. split; [|assumption].
        replace (S row + k)%nat with (row + S k)%nat by lia.
        rewrite <- Hr'. apply nth_error_set_at_ne. lia.
    + apply indexes_raises in Ei. destruct Ei as (-> & _).
      now destruct (Hne [] (or_introl eq_refl)).
Qed.

Lemma set_many_nil {A : Type} (v : A) (l : list A) : set_many [] v l = l.
Proof.
  destruct l as [|d t]; [reflexivity|].
  apply nth_ext with (d := d) (d' := d); [apply length_set_many|].
  intros k _. now rewrite nth_set_many.
Qed.

(** From release 1.3.5 on the detector returns on every well-shaped
    matrix with a cell and a frame, and a flat cell gets no spike. *)
Lemma locate_spikes_returns (data : ndarray) (fps thresh : Q) (r c : nat) :
  well_shaped data -> shape data = [r; c] -> (0 < r)%nat -> (0 < c)%nat ->
  exists out,
    locate_spikes_peakutils Peakutils.from_1_3_5 data fps thresh = Ok out /\
    shape out = shape data /\
    forall k cell, nth_error (rows_of data) k = Some cell -> flat cell ->
      nth_error (rows_of out) k = Some (repeat 0 c).
Proof.
  intros Hw Hs Hr Hc.
  assert (Hne : forall row, In row (rows_of data) -> row <> []).
  { intros row Hrow E. pose proof (rows_of_well_shaped _ Hw Hs Hrow) as Hl.
    rewrite E in Hl. simpl in Hl. lia. }
  destruct (@spikes_loop_returns thresh (py_int fps) (rows_of data) 0
              (zeros_like (rows_of data)) Hne) as (rows & Hrows).
  { intros k cell Hk. exists (repeat 0 (length cell)). split.
    - unfold zeros_like. simpl. now rewrite nth_error_map, Hk.
    - apply repeat_length. }
  assert (Hl : locate_spikes_peakutils Peakutils.from_1_3_5 data fps thresh
               = Ok (NdArray (shape data) (concat rows))).
  { unfold locate_spikes_peakutils. rewrite Hs.
    apply Nat.ltb_lt in Hr. rewrite Hr. cbv zeta. now rewrite Hrows. }
  eexists. split; [exact Hl|]. split; [reflexivity|].
  intros k cell Hk Hflat.
  destruct (locate_spikes_rows _ _ Hw Hl) as (_ & r' & c' & Hs' & _ & _ & Hrow).
  rewrite Hs in Hs'. injection Hs' as <- <-.
  destruct (Hrow k cell Hk) as (_ & peaks & Hp & Ho).
  rewrite (indexes_flat Peakutils.from_1_3_5 thresh (py_int fps) Hflat
             (Hne cell (nth_error_In _ _ Hk))) in Hp.
  injection Hp as <-. now rewrite Ho, set_many_nil.
Qed.

(** ** The spike detector: claims *)

Lemma py_int_inject_Z (z : Z) : py_int (inject_Z z) = z.
Proof. unfold py_int, inject_Z. simpl. apply Z.quot_1_r. Qed.

Lemma py_int_trunc (x : Q) :
  py_int x = if Qle_bool 0 x then Qfloor x else Qceiling x.
Proof.
  destruct x as [n d]. unfold py_int, Qle_bool, Qceiling, Qfloor. simpl.
  rewrite Z.mul_1_r.
  destruct (Z.leb_spec 0 n) as [Hn|Hn].
  - apply Z.quot_div_nonneg; lia.
  - rewrite <- (Z.opp_involutive n) at 1.
    rewrite Z.quot_opp_l by lia. f_equal.
    apply Z.quot_div_nonneg; lia.
Qed.

(** C6, as the claim states it, fails: at a sampling rate of 1.75 the
    detector does not behave as with a minimum distance of round(1.75) = 2
    frames (it keeps two peaks that are 2 frames apart). *)
Lemma min_dist_is_not_rounded :
  (locate_spikes_peakutils Peakutils.upto_1_3_4 two_peaks (7 # 4) (1 # 2)
   <> locate_spikes_peakutils Peakutils.upto_1_3_4 two_peaks
        (inject_Z (py_round (7 # 4))) (1 # 2))
  /\ (locate_spikes_peakutils Peakutils.from_1_3_5 two_peaks (7 # 4) (1 # 2)
      <> locate_spikes_peakutils Peakutils.from_1_3_5 two_peaks
           (inject_Z (py_round (7 # 4))) (1 # 2)).
Proof. split; vm_compute; discriminate. Qed.

(** C6, amended: the minimum peak distance is int(fps), the sampling rate
    truncated toward zero, which is the floor of a non-negative rate and
    the ceiling of a negative one.  The marks of every row of the result
    are the peaks that the peak finder returns for the cell at the
    minimum distance int(fps); two marks of a row are more than int(fps)
    samples apart; and the detector at rate [fps] is the detector at the
    integer rate int(fps). *)
Theorem min_dist_is_truncated (rel : Peakutils.release) (data : ndarray)
    (fps thresh : Q) (out : ndarray) :
  well_shaped data ->
  locate_spikes_peakutils rel data fps thresh = Ok out ->
  py_int fps = (if Qle_bool 0 fps then Qfloor fps else Qceiling fps) /\
  locate_spikes_peakutils rel data (inject_Z (py_int fps)) thresh = Ok out /\
  forall k cell, nth_error (rows_of data) k = Some cell ->
    exists peaks,
      Peakutils.indexes rel cell thresh (py_int fps) = Ok (IndexArray int64 peaks) /\
      nth_error (rows_of out) k = Some (set_many peaks 1 (repeat 0 (length cell))) /\
      (forall i, nth i (set_many peaks 1 (repeat 0 (length cell))) 0 == 1 <-> In i peaks) /\
      (forall i j, In i peaks -> In j peaks -> (i < j)%nat ->
                   (py_int fps < Z.of_nat j - Z.of_nat i)%Z).
Proof.
  intros Hw Hl. split; [apply py_int_trunc|]. split.
  { rewrite <- Hl. unfold locate_spikes_peakutils. now rewrite py_int_inject_Z. }
  destruct (locate_spikes_rows _ _ Hw Hl) as (_ & r & c & Hs & _ & _ & Hrows).
  intros k cell Hk. destruct (Hrows k cell Hk) as (Hc & peaks & Hp & Ho).
  exists peaks. rewrite Hc. split; [assumption|]. split; [assumption|].
  destruct (indexes_cases _ _ _ Hp) as [Hf|(_ & Hb & Hsp)]; [discriminate|].
  cbn [idx] in Hb, Hsp. split; [|exact Hsp].
  intros i. rewrite nth_set_many, nth_repeat. split.
  - destruct (existsb (Nat.eqb i) peaks) eqn:E; [intros _; now apply existsb_eqb_In in E|].
    simpl. intros H. discriminate H.
  - intros Hi. pose proof (Hb i Hi) as Hlt. rewrite Hc in Hlt.
    apply existsb_eqb_In in Hi. rewrite Hi.
    apply Nat.ltb_lt in Hlt. rewrite repeat_length, Hlt. reflexivity.
Qed.

Lemma min_dist_is_truncated_witness :
  py_int (7 # 4) = (if Qle_bool 0 (7 # 4) then Qfloor (7 # 4) else Qceiling (7 # 4)) /\
  locate_spikes_peakutils Peakutils.from_1_3_5 two_peaks (inject_Z (py_int (7 # 4))) (1 # 2)
  = Ok (NdArray [1%nat; 5%nat] [0; 1; 0; 1; 0]) /\
  forall k cell, nth_error (rows_of two_peaks) k = Some cell ->
    exists peaks,
      Peakutils.indexes Peakutils.from_1_3_5 cell (1 # 2) (py_int (7 # 4))
      = Ok (IndexArray int64 peaks) /\
      nth_error (rows_of (NdArray [1%nat; 5%nat] [0; 1; 0; 1; 0])) k
      = Some (set_many peaks 1 (repeat 0 (length cell))) /\
      (forall i, nth i (set_many peaks 1 (repeat 0 (length cell))) 0 == 1 <-> In i peaks) /\
      (forall i j, In i peaks -> In j peaks -> (i < j)%nat ->
                   (py_int (7 # 4) < Z.of_nat j - Z.of_nat i)%Z).
Proof.
  apply (@min_dist_is_truncated Peakutils.from_1_3_5 two_peaks (7 # 4) (1 # 2)
           (NdArray [1%nat; 5%nat] [0; 1; 0; 1; 0])).
  - reflexivity.
  - vm_compute. reflexivity.
Defined.

(** The minimum distance is sharp: at the rate 1.75, int(1.75) = 1, two
    peaks 2 frames apart are both kept; at the rate 2 the lower of the
    two is removed. *)
Example min_dist_is_sharp :
  forall rel,
    locate_spikes_peakutils rel two_peaks (7 # 4) (1 # 2)
    = Ok (NdArray [1%nat; 5%nat] [0; 1; 0; 1; 0]) /\
    locate_spikes_peakutils rel two_peaks 2 (1 # 2)
    = Ok (NdArray [1%nat; 5%nat] [0; 0; 0; 1; 0]).
Proof. intros rel. split; vm_compute; reflexivity. Qed.



(** Up to release 1.3.4 the same call raises IndexError when it reaches
    the flat second cell: the peak finder returns an empty float64
    array, and numpy refuses it as an index. *)
Example flat_row_raises_upto_1_3_4 :
  locate_spikes_peakutils Peakutils.upto_1_3_4 scenario_matrix 3 (1 # 2)
  = Raise IndexError
  /\ locate_spikes_peakutils Peakutils.upto_1_3_4 scenario_cell0 3 (1 # 2)
     = Ok (NdArray [1%nat; 10%nat] [0; 0; 1; 0; 0; 0; 1; 0; 0; 0]).
Proof. split; vm_compute; reflexivity. Qed.

(** Two marks of a row are in fact more than int(fps) samples apart. *)
Lemma spikes_separation_strict {rel : Peakutils.release} (data : ndarray) (fps thresh : Q) (out : ndarray)
    (r i j : nat) (row : list Q) :
  well_shaped data ->
  locate_spikes_peakutils rel data fps thresh = Ok out ->
  nth_error (rows_of out) r = Some row ->
  (i < j)%nat ->
  nth i row 0 == 1 -> nth j row 0 == 1 ->
  (py_int fps < Z.of_nat j - Z.of_nat i)%Z.
Proof.
  intros Hw Hl Hrow Hlt Hi Hj.
  destruct (locate_spikes_rows _ _ Hw Hl) as (_ & nr & c & Hs & _ & Hlen & Hrows).
  assert (Hr : (r < length (rows_of data))%nat).
  { unfold rows_of at 1. rewrite Hs, length_chunks, <- Hlen.
    apply nth_error_Some. congruence. }
  destruct (nth_error (rows_of data) r) as [cell|] eqn:Ec;
    [|apply nth_error_None in Ec; lia].
  destruct (Hrows r cell Ec) as (_ & peaks & Hp & Ho).
  rewrite Hrow in Ho. injection Ho as ->.
  assert (Hmark : forall k, nth k (set_many peaks 1 (repeat 0 c)) 0 == 1 -> In k peaks).
  { intros k Hk. rewrite nth_set_many in Hk.
    destruct (existsb (Nat.eqb k) peaks) eqn:E; [now apply existsb_eqb_In in E|].
    simpl in Hk. rewrite nth_repeat in Hk. discriminate. }
  destruct (indexes_cases _ _ _ Hp) as [Hf|(_ & _ & Hsp)]; [discriminate|].
  apply Hsp; auto.
Qed.

Lemma py_round_le_succ_int (x : Q) : 0 <= x -> (py_round x <= py_int x + 1)%Z.
Proof.
  intros Hx. rewrite py_int_trunc.
  apply Qle_bool_iff in Hx. rewrite Hx.
  unfold py_round. destruct (Qcompare _ _); [destruct (Z.even _)| |]; lia.
Qed.

(** So the marks are also at least round(fps) samples apart. *)
Lemma spikes_separation_rounded {rel : Peakutils.release} (data : ndarray) (fps thresh : Q) (out : ndarray)
    (r i j : nat) (row : list Q) :
  0 <= fps ->
  well_shaped data ->
  locate_spikes_peakutils rel data fps thresh = Ok out ->
  nth_error (rows_of out) r = Some row ->
  (i < j)%nat ->
  nth i row 0 == 1 -> nth j row 0 == 1 ->
  (py_round fps <= Z.of_nat j - Z.of_nat i)%Z.
Proof.
  intros Hfps Hw Hl Hrow Hlt Hi Hj.
  pose proof (@spikes_separation_strict _ _ _ _ _ _ _ _ _ Hw Hl Hrow Hlt Hi Hj).
  pose proof (py_round_le_succ_int Hfps). lia.
Qed.

(** C8: in every row of the spike matrix, two entries marked 1 are at
    least int(fps) samples apart. *)
Theorem spikes_min_separation {rel : Peakutils.release} (data : ndarray) (fps thresh : Q) (out : ndarray)
    (r i j : nat) (row : list Q) :
  well_shaped data ->
  locate_spikes_peakutils rel data fps thresh = Ok out ->
  nth_error (rows_of out) r = Some row ->
  (i < j)%nat ->
  nth i row 0 == 1 -> nth j row 0 == 1 ->
  (py_int fps <= Z.of_nat j - Z.of_nat i)%Z.
Proof.
  intros Hw Hl Hrow Hlt Hi Hj.
  pose proof (@spikes_separation_strict _ _ _ _ _ _ _ _ _ Hw Hl Hrow Hlt Hi Hj). lia.
Qed.

Lemma spikes_min_separation_witness :
  (py_int 1 <= Z.of_nat 3 - Z.of_nat 1)%Z.
Proof.
  apply (@spikes_min_separation Peakutils.from_1_3_5 two_peaks 1 (1 # 2)
           (NdArray [1%nat; 5%nat] [0; 1; 0; 1; 0]) 0 1 3 [0; 1; 0; 1; 0]).
  - reflexivity.
  - vm_compute. reflexivity.
  - reflexivity.
  - lia.
  - reflexivity.
  - reflexivity.
Defined.

(** C10, as the claim states it, fails: a well-shaped matrix with one row
    and no column passes the assertion and the detector raises
    ValueError. *)
Lemma no_column_raises :
  well_shaped (NdArray [1%nat; 0%nat] []) /\
  locate_spikes_peakutils Peakutils.upto_1_3_4 (NdArray [1%nat; 0%nat] [])
    (3003 # 100) (65 # 100) = Raise ValueError /\
  locate_spikes_peakutils Peakutils.from_1_3_5 (NdArray [1%nat; 0%nat] [])
    (3003 # 100) (65 # 100) = Raise ValueError.
Proof. repeat split. Qed.

(** C10, amended: an input that is not a two-dimensional matrix with at
    least one row fails the assertion; a two-dimensional input with at
    least one row never fails it, and the detector returns a matrix of
    the input's shape whenever no row is flat. *)
Theorem assertion_guards_shape {rel : Peakutils.release} (data : ndarray) (fps thresh : Q) :
  ((forall r c, shape data = [r; c] -> r = 0%nat) ->
   locate_spikes_peakutils rel data fps thresh = Raise AssertionError)
  /\
  (forall r c, shape data = [r; c] -> (0 < r)%nat ->
     locate_spikes_peakutils rel data fps thresh <> Raise AssertionError /\
     (well_shaped data ->
      (forall row, In row (rows_of data) -> ~ flat row) ->
      exists out, locate_spikes_peakutils rel data fps thresh = Ok out /\
                  shape out = shape data)).
Proof.
  split.
  - intros H. unfold locate_spikes_peakutils.
    destruct (shape data) as [|r [|c [|x s]]]; try reflexivity.
    rewrite (H r c eq_refl). reflexivity.
  - intros r c Hs Hr. unfold locate_spikes_peakutils. rewrite Hs.
    apply Nat.ltb_lt in Hr. rewrite Hr.
    assert (Hnr : length (rows_of data) = r)
      by (unfold rows_of; rewrite Hs; apply length_chunks).
    split.
    + destruct (spikes_loop rel _ _ _ _ _) eqn:E; simpl; [discriminate|].
      intros He. injection He as ->.
      revert E. generalize (zeros_like (rows_of data)). generalize 0%nat.
      generalize (rows_of data).
      induction l as [|cell rest IH]; intros n m E; simpl in E; [discriminate|].
      destruct (Peakutils.indexes rel cell thresh (py_int fps)) as [peaks|e] eqn:Ei;
        simpl in E.
      * destruct (setitem_row m n peaks 1) as [m'|e] eqn:Es; simpl in E.
        -- eapply IH, E.
        -- injection E as ->. unfold setitem_row in Es.
           destruct (idx_dtype peaks); [|discriminate].
           destruct (nth_error m n); [|discriminate].
           destruct (forallb _ _); discriminate.
      * injection E as ->. apply indexes_raises in Ei.
        destruct Ei as [_ Ei]. discriminate Ei.
    + intros Hw Hnf.
      destruct (@spikes_loop_total rel thresh (py_int fps) (rows_of data) 0
                  (zeros_like (rows_of data)) Hnf) as (out & ->).
      * intros k cell Hc. exists (repeat 0 (length cell)). split.
        -- unfold zeros_like. simpl. now rewrite nth_error_map, Hc.
        -- apply repeat_length.
      * simpl. eexists. split; reflexivity.
Qed.

Lemma assertion_guards_shape_witness :
  locate_spikes_peakutils Peakutils.upto_1_3_4 (NdArray [5%nat] [0; 3; 0; 5; 0]) 1 (1 # 2)
  = Raise AssertionError
  /\ exists out, locate_spikes_peakutils Peakutils.upto_1_3_4 two_peaks 1 (1 # 2) = Ok out /\
                 shape out = shape two_peaks.
Proof.
  split.
  - apply (proj1 (@assertion_guards_shape Peakutils.upto_1_3_4
                    (NdArray [5%nat] [0; 3; 0; 5; 0]) 1 (1 # 2))).
    intros r c H. discriminate H.
  - apply (proj2 (@assertion_guards_shape Peakutils.upto_1_3_4 two_peaks 1 (1 # 2))
             1%nat 5%nat eq_refl).
    + lia.
    + reflexivity.
    + intros row [<-|[]] H.
      specialize (H 0%nat ltac:(simpl; lia)). vm_compute in H. discriminate H.
Defined.

(** ** Epoch counts of [_find_spikes] *)

Lemma indexes_NoDup {rel : Peakutils.release} (y : list Q) (thres : Q) (min_dist : Z) (ia : index_array) :
  Peakutils.indexes rel y thres min_dist = Ok ia -> NoDup (idx ia).
Proof.
  unfold Peakutils.indexes.
  destruct (np_max y); simpl; [|discriminate].
  destruct (np_min y); simpl; [|discriminate].
  destruct (_ =? _)%nat.
  - intros H. injection H as <-. constructor.
  - destruct (Peakutils.fill_plateaus _ _); simpl; [|discriminate].
    intros H. injection H as <-. simpl.
    unfold Peakutils.enforce_min_dist.
    destruct (_ && _); apply NoDup_np_where.
Qed.

(** Counting the marks of a spike row between two bounds is counting the
    peak indices between them. *)
Lemma count_marks (l : list nat) (n : nat) (lo hi : Z) :
  NoDup l -> (forall i, In i l -> (i < n)%nat) ->
  spikes_between (set_many l 1 (repeat 0 n)) lo hi
  = length (filter (fun i => (lo <=? Z.of_nat i)%Z && (Z.of_nat i <? hi)%Z) l).
Proof.
  intros Hnd Hb. unfold spikes_between.
  apply Permutation_length, NoDup_Permutation.
  - apply NoDup_filter, seq_NoDup.
  - now apply NoDup_filter.
  - intros x. rewrite !filter_In, in_seq, length_set_many, repeat_length, nth_set_many.
    rewrite repeat_length, nth_repeat.
    destruct (existsb (Nat.eqb x) l) eqn:E; simpl.
    + apply existsb_eqb_In in E. pose proof (Hb x E) as Hx.
      apply Nat.ltb_lt in Hx. rewrite Hx. simpl.
      apply Nat.ltb_lt in Hx. intuition lia.
    + assert (~ In x l) by (intros Hin; apply existsb_eqb_In in Hin; congruence).
      split; [intros [_ Hf]; discriminate Hf|tauto].
Qed.

Lemma Forall2_nth_error_l {A B : Type} (R : A -> B -> Prop) (l1 : list A) (l2 : list B) :
  Forall2 R l1 l2 ->
  forall k x, nth_error l1 k = Some x -> exists y, nth_error l2 k = Some y /\ R x y.
Proof.
  induction 1 as [|a b t1 t2 Hab _ IH]; intros [|k] x Hx; simpl in *; try discriminate.
  - injection Hx as <-. now exists b.
  - now apply IH.
Qed.

Section FindSpikes.

Variables (thresh : Q) (min_dist before_occ summed_after_occ : Z).
Variables (norm_factor_during norm_factor_after : Q).

(** The loop marks the spikes as [spikes_loop] does, and appends to each
    list one count per cell. *)
Lemma find_spikes_loop_spec {rel : Peakutils.release} (cells : list (list Q)) :
  forall row st st',
    find_spikes_loop rel thresh min_dist before_occ summed_after_occ
                     norm_factor_during norm_factor_after cells row st = Ok st' ->
    spikes_loop rel thresh min_dist cells row (fs_all_spikes st) = Ok (fs_all_spikes st') /\
    exists pl,
      Forall2 (fun cell peaks => Peakutils.indexes rel cell thresh min_dist = Ok peaks)
              cells pl /\
      idx_section1 st' =
        idx_section1 st ++ map (count_idx (fun i => (i <? before_occ)%Z)) pl /\
      idx_section2 st' =
        idx_section2 st
        ++ map (fun p =>
                  of_count (count_idx (fun i => (before_occ <=? i)%Z
                                                && (i <? summed_after_occ)%Z) p)
                  * norm_factor_during) pl /\
      idx_section3 st' =
        idx_section3 st
        ++ map (fun p =>
                  of_count (count_idx (fun i => (summed_after_occ <=? i)%Z) p)
                  * norm_factor_after) pl.
Proof.
  induction cells as [|cell rest IH]; intros row st st' H; simpl in H.
  - injection H as <-. split; [reflexivity|].
    exists []. simpl. rewrite !app_nil_r. repeat split. constructor.
  - simpl.
    destruct (Peakutils.indexes rel cell thresh min_dist) as [peaks|e] eqn:Ei;
      simpl in *; [|discriminate].
    destruct (setitem_row (fs_all_spikes st) row peaks 1) as [m'|e] eqn:Es;
      simpl in *; [|discriminate].
    apply IH in H. simpl in H. destruct H as (Hl & pl & Hf & H1 & H2 & H3).
    split; [assumption|].
    exists (peaks :: pl). simpl.
    rewrite H1, H2, H3, <- !app_assoc. simpl.
    repeat split. now constructor.
Qed.

End FindSpikes.

(** With non-zero epoch lengths the two factors are computed and the
    loop is entered. *)
Lemma find_spikes_nonzero {rel : Peakutils.release} (a : occ_attrs) (dff : list (list Q)) :
  frames_during_occ a <> 0%Z /\ frames_after_occ a <> 0%Z ->
  _find_spikes rel a dff
  = (st <- find_spikes_loop rel (8 # 10) (py_int (fps a)) (frames_before_occ a)
             (frames_before_occ a + frames_during_occ a)
             (inject_Z (frames_before_occ a) / inject_Z (frames_during_occ a))
             (inject_Z (frames_before_occ a) / inject_Z (frames_after_occ a))
             dff 0 (FindState (zeros_like dff) [] [] []) ;;
     Ok (fs_all_spikes st,
         SpikeCounts (idx_section1 st) (idx_section2 st) (idx_section3 st))).
Proof.
  intros (Hd & Ha). unfold _find_spikes, true_divide.
  destruct (Z.eqb_spec (frames_during_occ a) 0) as [E|_]; [contradiction|].
  destruct (Z.eqb_spec (frames_after_occ a) 0) as [E|_]; [contradiction|].
  reflexivity.
Qed.

Lemma find_spikes_zero_length {rel : Peakutils.release} (a : occ_attrs) (dff : list (list Q)) :
  frames_during_occ a = 0%Z \/ frames_after_occ a = 0%Z ->
  _find_spikes rel a dff = Raise ZeroDivisionError.
Proof.
  intros H. unfold _find_spikes, true_divide.
  destruct (Z.eqb_spec (frames_during_occ a) 0) as [E|Hd]; [reflexivity|].
  destruct H as [H|H]; [contradiction|]. rewrite H. reflexivity.
Qed.

(** C3: for positive epoch lengths, the per-cell counts are the number of
    spikes before the occlusion, the number during it scaled by
    before/during, and the number after it scaled by before/after. *)
Theorem epoch_counts {rel : Peakutils.release} (a : occ_attrs) (dff all_spikes : list (list Q))
    (counts : spike_counts) (k : nat) (cell : list Q) :
  (0 < frames_before_occ a)%Z ->
  (0 < frames_during_occ a)%Z ->
  (0 < frames_after_occ a)%Z ->
  _find_spikes rel a dff = Ok (all_spikes, counts) ->
  nth_error dff k = Some cell ->
  exists row,
    nth_error all_spikes k = Some row /\
    length row = length cell /\
    let b := frames_before_occ a in
    let d := frames_during_occ a in
    let total := Z.of_nat (length row) in
    nth_error (before counts) k = Some (spikes_between row 0 b) /\
    nth_error (during counts) k
    = Some (of_count (spikes_between row b (b + d))
            * (inject_Z b / inject_Z d)) /\
    nth_error (after counts) k
    = Some (of_count (spikes_between row (b + d) total)
            * (inject_Z b / inject_Z (frames_after_occ a))).
Proof.
  intros _ Hd Ha H Hc.
  rewrite (find_spikes_nonzero a dff) in H by lia.
  destruct (find_spikes_loop rel _ _ _ _ _ _ dff 0 _) as [st|e] eqn:E;
    simpl in H; [|discriminate].
  injection H as <- <-. simpl.
  apply find_spikes_loop_spec in E. simpl in E.
  destruct E as (Hl & pl & Hf & H1 & H2 & H3).
  apply spikes_loop_spec in Hl. destruct Hl as (Hlen & _ & Hin).
  destruct (Hin k cell Hc) as (Hk & peaks & Hp & Hn). simpl in Hk, Hn.
  destruct (Forall2_nth_error_l Hf k Hc) as (ia & Hia & Hia').
  rewrite Hp in Hia'. injection Hia' as <-.
  rewrite nth_zeros_like, (nth_error_nth _ _ _ Hc) in Hn.
  pose proof (indexes_NoDup _ _ _ Hp) as Hnd. simpl in Hnd.
  destruct (indexes_cases _ _ _ Hp) as [Hfl|(_ & Hb & _)]; [discriminate|].
  simpl in Hb.
  exists (set_many peaks 1 (repeat 0 (length cell))).
  rewrite <- Hn. split.
  { apply nth_error_nth'. rewrite Hlen. exact Hk. }
  rewrite Hn. split; [now rewrite length_set_many, repeat_length|].
  rewrite length_set_many, repeat_length, !count_marks by assumption.
  rewrite H1, H2, H3. simpl. rewrite !nth_error_map, Hia. simpl.
  unfold count_idx. simpl. repeat split.
  - erewrite filter_ext_in; [reflexivity|]. intros i Hi. simpl.
    destruct (Z.leb_spec 0 (Z.of_nat i)); [reflexivity|lia].
  - erewrite filter_ext_in; [reflexivity|]. intros i Hi. simpl.
    apply Hb in Hi. apply inj_lt, Z.ltb_lt in Hi. rewrite Hi. now rewrite andb_true_r.
Qed.

Lemma epoch_counts_witness :
  exists row,
    nth_error [scenario_cell] 0 = Some row /\
    length row = length scenario_cell /\
    nth_error (before scenario_counts) 0 = Some (spikes_between row 0 100) /\
    nth_error (during scenario_counts) 0
    = Some (of_count (spikes_between row 100 (100 + 50)) * (inject_Z 100 / inject_Z 50)) /\
    nth_error (after scenario_counts) 0
    = Some (of_count (spikes_between row (100 + 50) (Z.of_nat (length row)))
            * (inject_Z 100 / inject_Z 50)).
Proof.
  apply (@epoch_counts Peakutils.from_1_3_5 scenario_attrs [scenario_cell] [scenario_cell] scenario_counts
           0 scenario_cell).
  - reflexivity.
  - reflexivity.
  - reflexivity.
  - vm_compute. reflexivity.
  - reflexivity.
Defined.

(** The scenario of C3 in numbers: the detector marks the four spikes of
    the cell, 2 before, 1 during and 1 after the occlusion, and the
    counts are 2, 1 * (100/50) = 2 and 1 * (100/50) = 2. *)
Example epoch_counts_scenario :
  _find_spikes Peakutils.from_1_3_5 scenario_attrs [scenario_cell] = Ok ([scenario_cell], scenario_counts) /\
  spikes_between scenario_cell 0 100 = 2%nat /\
  spikes_between scenario_cell 100 150 = 1%nat /\
  spikes_between scenario_cell 150 200 = 1%nat /\
  before scenario_counts = [2%nat] /\
  Forall2 Qeq (during scenario_counts) [2] /\
  Forall2 Qeq (after scenario_counts) [2].
Proof.
  repeat split; try (vm_compute; reflexivity);
    repeat constructor; vm_compute; reflexivity.
Qed.

(** ** The stack parameters: claims *)

(** C1, as the claim states it, fails: with 100 frames in total, 80
    before and 50 during the occlusion, the remainder is negative, and
    [_get_params] returns normally and stores -30. *)
Lemma negative_remainder_is_stored :
  (framesPerSlice short_recording
   - frames_before_stim short_parser - len_of_epoch_in_frames short_parser < 0)%Z
  /\ exists p, _get_params short_parser (Some short_recording) "2019-01-01 00:00:00" = Ok p
               /\ frames_after_stim p = Some (-30)%Z.
Proof. split; [reflexivity|]. eexists. split; reflexivity. Qed.

(** C1, amended: for a recording whose metadata parse, [_get_params]
    returns normally and stores total - before - during as the number of
    frames after the occlusion, whatever its sign; the stored number is
    >= 0 exactly when before + during <= total. *)
Theorem after_frames_is_remainder (self : parser) (rate : Q) (cs : list Z)
    (total : Z) (mtime : string) :
  exists p,
    _get_params self (Some (FrameData rate (ChannelList cs) total)) mtime = Ok p /\
    frames_after_stim p
    = Some (total - frames_before_stim self - len_of_epoch_in_frames self)%Z /\
    forall after_frames, frames_after_stim p = Some after_frames ->
      ((frames_before_stim self + len_of_epoch_in_frames self <= total)%Z
       <-> (0 <= after_frames)%Z).
Proof.
  eexists. split; [reflexivity|]. simpl. split.
  - f_equal. lia.
  - intros after_frames H. injection H as <-. lia.
Qed.

(** When the metadata do not parse, the fallback stores 1000 frames. *)
Lemma after_frames_fallback (self : parser) (si_meta : option frame_data) (mtime : string) :
  (si_meta = None \/
   exists fd c, si_meta = Some fd /\ channelsActive fd = ChannelScalar c) ->
  _get_params self si_meta mtime = Ok (params_fallback self) /\
  frames_after_stim (params_fallback self) = Some 1000%Z.
Proof.
  intros [->|(fd & c & -> & Hc)]; simpl; [split; reflexivity|].
  rewrite Hc. split; reflexivity.
Qed.

(** ** The re-indexing loop of [concat_vasc_occ_dataarrays] *)

Section Reindex.

Variable crd_epoch : list string.

Lemma new_DataArray_reindexed (da : DataArray) (num : nat) (crd_time : list Q) :
  let ct := if negb (length (time da) =? length crd_time)%nat then time da else crd_time in
  new_DataArray (data_shape da) (data da) crd_epoch (seq num (length (neuron da))) ct
                (attrs da)
  = if (length (epoch da) =? length crd_epoch)%nat
    then Ok (MkDataArray crd_epoch (seq num (length (neuron da))) ct (data da) (attrs da))
    else Raise ValueError.
Proof.
  intros ct. unfold new_DataArray, data_shape.
  rewrite length_seq, Nat.eqb_refl, andb_true_r.
  assert (Ht : (length (time da) =? length ct)%nat = true).
  { subst ct. destruct (Nat.eqb_spec (length (time da)) (length crd_time)) as [He|He];
      simpl; apply Nat.eqb_eq; congruence. }
  now rewrite Ht, andb_true_r.
Qed.

Lemma reindex_loop_ok (das : list DataArray) :
  forall num crd_time acc,
    (forall da, In da das -> length (epoch da) = length crd_epoch) ->
    reindex_loop crd_epoch das num crd_time acc
    = Ok (acc ++ reindexed_list crd_epoch das num crd_time).
Proof.
  induction das as [|da rest IH]; intros num ct acc H; cbn [reindex_loop reindexed_list].
  - now rewrite app_nil_r.
  - rewrite new_DataArray_reindexed.
    rewrite (proj2 (Nat.eqb_eq _ _) (H da (or_introl eq_refl))). cbn [bind].
    rewrite IH by (intros d Hd; apply H; now right).
    now rewrite <- app_assoc.
Qed.

Lemma reindex_loop_mismatch (das : list DataArray) :
  forall num crd_time acc,
    (exists da, In da das /\ length (epoch da) <> length crd_epoch) ->
    reindex_loop crd_epoch das num crd_time acc = Raise ValueError.
Proof.
  induction das as [|da rest IH]; intros num ct acc (bad & Hin & Hbad);
    cbn [reindex_loop].
  - contradiction.
  - rewrite new_DataArray_reindexed.
    destruct (Nat.eqb_spec (length (epoch da)) (length crd_epoch)) as [He|He];
      [|reflexivity].
    cbn [bind]. apply IH. exists bad. split; [|assumption].
    destruct Hin as [<-|Hin]; [contradiction|assumption].
Qed.


(** Record [k] keeps its data and attributes and gets the first record's
    epochs, the cell indices that follow those of the records before it,
    and a time coordinate of its own length. *)
Lemma reindexed_list_nth (das : list DataArray) :
  forall num crd_time k da,
    nth_error das k = Some da ->
    exists da',
      nth_error (reindexed_list crd_epoch das num crd_time) k = Some da' /\
      epoch da' = crd_epoch /\
      neuron da' = seq (num + cells_before das k) (ncells da) /\
      data da' = data da /\ attrs da' = attrs da /\
      length (time da') = length (time da).
Proof.
  induction das as [|d rest IH]; intros num ct k da Hk; [destruct k; discriminate|].
  destruct k as [|k]; simpl in Hk.
  - injection Hk as ->. eexists. split; [reflexivity|]. simpl.
    unfold cells_before. simpl. rewrite Nat.add_0_r.
    repeat split.
    destruct (Nat.eqb_spec (length (time da)) (length ct)); simpl; congruence.
  - destruct (IH (num + length (neuron d))%nat
                 (if negb (length (time d) =? length ct)%nat then time d else ct)
                 k da Hk) as (da' & Hn & He & Hneu & Hrest).
    exists da'. split; [exact Hn|]. split; [assumption|]. split; [|assumption].
    rewrite Hneu. f_equal. unfold cells_before, ncells. simpl. lia.
Qed.



Lemma reindexed_list_neurons (das : list DataArray) :
  forall num crd_time,
    concat (map neuron (reindexed_list crd_epoch das num crd_time))
    = seq num (list_sum (map ncells das)).
Proof.
  induction das as [|d rest IH]; intros num ct; simpl; [reflexivity|].
  rewrite IH. unfold ncells at 2. now rewrite seq_app.
Qed.

End Reindex.

(** ** The outer join of the time indexes *)

Lemma InQ_cons (x a : Q) (l : list Q) : InQ x (a :: l) <-> a == x \/ InQ x l.
Proof.
  unfold InQ. simpl. split.
  - intros (y & [<-|Hy] & He); [now left|right; now exists y].
  - intros [He|(y & Hy & He)]; [exists a; auto|exists y; auto].
Qed.

Lemma InQ_insert_label (x t : Q) (l : list Q) :
  InQ x (Xr.insert_label t l) <-> t == x \/ InQ x l.
Proof.
  induction l as [|a r IH]; simpl.
  - rewrite InQ_cons. reflexivity.
  - destruct (Qcompare t a) eqn:C.
    + apply Qeq_alt in C. rewrite InQ_cons. split; [tauto|].
      intros [He|H]; [left; now rewrite <- C|assumption].
    + rewrite !InQ_cons. reflexivity.
    + rewrite !InQ_cons, IH. tauto.
Qed.

Lemma InQ_fold_insert (x : Q) (ts : list Q) :
  forall acc, InQ x (fold_left (fun acc t => Xr.insert_label t acc) ts acc)
              <-> InQ x ts \/ InQ x acc.
Proof.
  induction ts as [|t r IH]; intros acc; simpl.
  - split; [tauto|]. intros [(y & [] & _)|H]; assumption.
  - rewrite IH, InQ_insert_label, InQ_cons. tauto.
Qed.

Lemma InQ_concat (x : Q) (idxs : list (list Q)) :
  InQ x (concat idxs) <-> exists i, In i idxs /\ InQ x i.
Proof.
  unfold InQ. split.
  - intros (y & Hy & He). apply in_concat in Hy. destruct Hy as (i & Hi & Hyi).
    exists i. split; [assumption|]. now exists y.
  - intros (i & Hi & y & Hy & He). exists y. split; [|assumption].
    apply in_concat. now exists i.
Qed.

Lemma InQ_union_index (x : Q) (idxs : list (list Q)) :
  InQ x (Xr.union_index idxs) <-> exists i, In i idxs /\ InQ x i.
Proof.
  unfold Xr.union_index. rewrite InQ_fold_insert, InQ_concat.
  split; [|tauto]. intros [H|(y & [] & _)]. exact H.
Qed.

Lemma index_eqb_InQ (a : list Q) :
  forall b x, Xr.index_eqb a b = true -> (InQ x a <-> InQ x b).
Proof.
  induction a as [|p a' IH]; intros [|q b'] x H; simpl in H; try discriminate.
  - reflexivity.
  - apply andb_prop in H. destruct H as [Hpq Hab].
    apply Qeq_bool_eq in Hpq. rewrite !InQ_cons, (IH b' x Hab), Hpq. reflexivity.
Qed.

(** The joined index holds exactly the labels of the indexes it joins. *)
Lemma InQ_outer_join (x : Q) (idxs : list (list Q)) :
  InQ x (Xr.outer_join idxs) <-> exists i, In i idxs /\ InQ x i.
Proof.
  destruct idxs as [|first others]; simpl.
  - split; [intros (y & [] & _)|intros (i & [] & _)].
  - destruct (forallb (Xr.index_eqb first) others) eqn:E.
    + split.
      * intros H. exists first. auto.
      * intros (i & [<-|Hi] & Hx); [assumption|].
        rewrite forallb_forall in E. now apply (index_eqb_InQ _ _ x (E i Hi)).
    + apply InQ_union_index.
Qed.

(** ** The concatenation *)

Lemma concat_vasc_occ_equal_epochs (da0 : DataArray) (rest : list DataArray) :
  (forall da, In da (da0 :: rest) -> length (epoch da) = length (epoch da0)) ->
  concat_vasc_occ_dataarrays (da0 :: rest)
  = Xr.concat_neuron (reindexed_list (epoch da0) (da0 :: rest) 0 (time da0)).
Proof.
  intros H. unfold concat_vasc_occ_dataarrays.
  now rewrite reindex_loop_ok.
Qed.

Lemma concat_vasc_occ_mismatch (da0 : DataArray) (rest : list DataArray) :
  (exists da, In da (da0 :: rest) /\ length (epoch da) <> length (epoch da0)) ->
  concat_vasc_occ_dataarrays (da0 :: rest) = Raise ValueError.
Proof.
  intros H. unfold concat_vasc_occ_dataarrays.
  now rewrite reindex_loop_mismatch.
Qed.

Lemma epochs_agree_dec (da0 : DataArray) (das : list DataArray) :
  (forall da, In da das -> length (epoch da) = length (epoch da0)) \/
  (exists da, In da das /\ length (epoch da) <> length (epoch da0)).
Proof.
  induction das as [|d rest [IH|(bad & Hin & Hbad)]].
  - left. intros da [].
  - destruct (Nat.eq_dec (length (epoch d)) (length (epoch da0))) as [He|He].
    + left. intros da [<-|Hin]; auto.
    + right. exists d. split; [now left|assumption].
  - right. exists bad. split; [now right|assumption].
Qed.

Lemma concat_vasc_occ_ok_inv (da_list : list DataArray) (ds : DataArray) :
  concat_vasc_occ_dataarrays da_list = Ok ds ->
  exists da0 rest,
    da_list = da0 :: rest /\
    (forall da, In da da_list -> length (epoch da) = length (epoch da0)) /\
    Xr.concat_neuron (reindexed_list (epoch da0) da_list 0 (time da0)) = Ok ds.
Proof.
  destruct da_list as [|da0 rest]; [discriminate|].
  intros H. exists da0, rest. split; [reflexivity|].
  destruct (epochs_agree_dec da0 (da0 :: rest)) as [Ha|Hb].
  - split; [assumption|]. now rewrite <- concat_vasc_occ_equal_epochs.
  - rewrite concat_vasc_occ_mismatch in H by assumption. discriminate.
Qed.

Lemma nth_error_concat_block {A : Type} (blocks : list (list A)) :
  forall k j b,
    nth_error blocks k = Some b -> (j < length b)%nat ->
    nth_error (concat blocks) (list_sum (map (@length A) (firstn k blocks)) + j)
    = nth_error b j.
Proof.
  induction blocks as [|b0 rest IH]; intros k j b Hk Hj; [destruct k; discriminate|].
  destruct k as [|k]; simpl in *.
  - injection Hk as ->. now rewrite nth_error_app1.
  - rewrite nth_error_app2 by lia.
    replace (length b0 + list_sum (map (@length A) (firstn k rest)) + j - length b0)%nat
      with (list_sum (map (@length A) (firstn k rest)) + j)%nat by lia.
    now apply IH.
Qed.

Lemma firstn_seq_le (n a len : nat) :
  (n <= len)%nat -> firstn n (seq a len) = seq a n.
Proof.
  intros H. replace len with (n + (len - n))%nat by lia.
  rewrite seq_app, firstn_app, length_seq, Nat.sub_diag. simpl.
  rewrite app_nil_r. apply firstn_all2. rewrite length_seq. lia.
Qed.

Lemma list_sum_firstn_le {A : Type} (f : A -> nat) (l : list A) :
  forall k x, nth_error l k = Some x ->
    (list_sum (map f (firstn k l)) + f x <= list_sum (map f l))%nat.
Proof.
  induction l as [|a t IH]; intros k x Hk; [destruct k; discriminate|].
  destruct k as [|k]; simpl in *.
  - injection Hk as ->. lia.
  - specialize (IH k x Hk). lia.
Qed.

Lemma map_data_reindexed_list (ce : list string) (das : list DataArray) :
  forall num ct, map data (reindexed_list ce das num ct) = map data das.
Proof.
  induction das as [|d rest IH]; intros num ct; simpl; [reflexivity|].
  now rewrite IH.
Qed.

Lemma length_reindex_row (old new : list Q) (row : list float) :
  length old = length row -> length (Xr.reindex_row old new row) = length new.
Proof.
  intros H. unfold Xr.reindex_row.
  destruct (Xr.index_eqb old new) eqn:E; [|apply length_map].
  rewrite <- H. clear H row. revert new E.
  induction old as [|a o IH]; intros [|b n] E; simpl in *; try discriminate; [reflexivity|].
  apply andb_prop in E. f_equal. now apply IH.
Qed.

Lemma Qeq_bool_sym (x y : Q) : Qeq_bool x y = Qeq_bool y x.
Proof.
  destruct (Qeq_bool x y) eqn:E; symmetry.
  - apply Qeq_bool_iff. apply Qeq_bool_iff in E. now symmetry.
  - apply not_true_is_false. intros H. apply Qeq_bool_iff in H.
    symmetry in H. apply Qeq_bool_iff in H. congruence.
Qed.

Lemma index_eqb_sym (a : list Q) : forall b, Xr.index_eqb a b = Xr.index_eqb b a.
Proof.
  induction a as [|x a IH]; intros [|y b]; simpl; try reflexivity.
  now rewrite Qeq_bool_sym, IH.
Qed.

Lemma index_eqb_refl (a : list Q) : Xr.index_eqb a a = true.
Proof. induction a as [|x a IH]; simpl; [reflexivity|]. now rewrite Qeq_bool_refl. Qed.

Lemma index_eqb_nth (a : list Q) :
  forall b, Xr.index_eqb a b = true ->
    length a = length b /\
    forall p, (p < length a)%nat -> nth p a 0 == nth p b 0.
Proof.
  induction a as [|x a IH]; intros [|y b] H; simpl in H; try discriminate.
  - split; [reflexivity|]. intros p Hp. simpl in Hp. lia.
  - apply andb_prop in H. destruct H as (Hxy & Hab).
    destruct (IH b Hab) as (Hl & Hn). split; [simpl; now rewrite Hl|].
    intros [|p] Hp; simpl in *; [now apply Qeq_bool_iff|]. apply Hn. lia.
Qed.

(** In an index without repeated labels, a label is found at its place. *)
Lemma position_unique (old : list Q) :
  forall p t, Xr.has_duplicates old = false -> (p < length old)%nat ->
    t == nth p old 0 -> Xr.position t old = Some p.
Proof.
  induction old as [|x r IH]; intros p t Hd Hp Ht; simpl in *; [lia|].
  apply orb_false_elim in Hd. destruct Hd as (Hx & Hr).
  destruct p as [|p].
  - apply Qeq_bool_iff in Ht. now rewrite Ht.
  - assert (Hne : Qeq_bool t x = false).
    { apply not_true_is_false. intros E. apply Qeq_bool_iff in E.
      assert (Hex : existsb (Qeq_bool x) r = true).
      { apply existsb_exists. exists (nth p r 0). split; [apply nth_In; lia|].
        apply Qeq_bool_iff. now rewrite <- E, Ht. }
      congruence. }
    rewrite Hne, (IH p t Hr) by (assumption || lia). reflexivity.
Qed.

Lemma position_None (old : list Q) (t : Q) :
  ~ InQ t old -> Xr.position t old = None.
Proof.
  induction old as [|x r IH]; intros H; simpl; [reflexivity|].
  rewrite InQ_cons in H.
  destruct (Qeq_bool t x) eqn:E.
  - apply Qeq_bool_iff in E. exfalso. apply H. left. now symmetry.
  - rewrite IH by tauto. reflexivity.
Qed.

(** What re-indexing does to a row. *)
Lemma reindex_row_holds (old new : list Q) (row : list float) :
  length row = length old ->
  (Xr.index_eqb old new = false -> Xr.has_duplicates old = false) ->
  (forall t, InQ t old -> InQ t new) ->
  holds_samples old new row (Xr.reindex_row old new row).
Proof.
  intros Hl Hd Hin. unfold holds_samples, Xr.reindex_row.
  destruct (Xr.index_eqb old new) eqn:E.
  - destruct (index_eqb_nth _ _ E) as (Hlen & Hn).
    split; [congruence|]. split.
    + intros p Hp. exists p. split; [lia|]. split; [|reflexivity].
      symmetry. apply Hn. lia.
    + intros q Hq Hnot. exfalso. apply Hnot.
      exists (nth q old 0). split; [apply nth_In; lia|]. apply Hn. lia.
  - specialize (Hd eq_refl). split; [apply length_map|]. split.
    + intros p Hp.
      destruct (Hin (nth p old 0)) as (x & Hx & Hxe).
      { exists (nth p old 0). split; [apply nth_In; lia|reflexivity]. }
      apply (In_nth _ _ 0) in Hx. destruct Hx as (q & Hq & <-).
      exists q. split; [assumption|]. split; [assumption|].
      rewrite (nth_indep _ None
                 ((fun t => match Xr.position t old with
                            | Some k => nth k row None
                            | None => None
                            end) 0))
        by (now rewrite length_map).
      rewrite (map_nth (fun t => match Xr.position t old with
                                 | Some k => nth k row None
                                 | None => None
                                 end)).
      rewrite (@position_unique old p (nth q new 0)) by (assumption || lia).
      reflexivity.
    + intros q Hq Hnot.
      rewrite (nth_indep _ None
                 ((fun t => match Xr.position t old with
                            | Some k => nth k row None
                            | None => None
                            end) 0))
        by (now rewrite length_map).
      rewrite (map_nth (fun t => match Xr.position t old with
                                 | Some k => nth k row None
                                 | None => None
                                 end)).
      now rewrite position_None.
Qed.

(** When nothing is refused, an index that differs from the joined one
    repeats no label. *)
Lemma guard_reindex (idxs : list (list Q)) :
  Xr.needs_reindex idxs && existsb Xr.has_duplicates idxs = false ->
  forall i, In i idxs -> Xr.index_eqb i (Xr.outer_join idxs) = false ->
            Xr.has_duplicates i = false.
Proof.
  intros H i Hi Hne. apply andb_false_elim in H. destruct H as [H|H].
  - exfalso. destruct idxs as [|first others]; [contradiction|].
    simpl in H, Hne. apply negb_false_iff in H. rewrite H in Hne.
    destruct Hi as [<-|Hi]; [now rewrite index_eqb_refl in Hne|].
    rewrite forallb_forall in H. rewrite index_eqb_sym, (H i Hi) in Hne. discriminate.
  - apply not_true_is_false. intros Hd.
    assert (existsb Xr.has_duplicates idxs = true)
      by (apply existsb_exists; now exists i).
    congruence.
Qed.

Lemma concat_neuron_reindexed (da0 : DataArray) (rest : list DataArray) :
  let news := reindexed_list (epoch da0) (da0 :: rest) 0 (time da0) in
  let joined := Xr.outer_join (map time news) in
  Xr.needs_reindex (map time news) && existsb Xr.has_duplicates (map time news) = false ->
  Xr.concat_neuron news
  = Ok (MkDataArray
          (epoch da0) (concat (map neuron news)) joined
          (map (fun e =>
                  concat (map (fun da => map (Xr.reindex_row (time da) joined)
                                             (nth e (data da) []))
                              news))
               (seq 0 (length (epoch da0))))
          (attrs da0)).
Proof.
  intros news joined H. subst joined. unfold news in *.
  cbn [reindexed_list] in *. unfold Xr.concat_neuron. rewrite H. reflexivity.
Qed.

Lemma concat_neuron_refused (da0 : DataArray) (rest : list DataArray) :
  let news := reindexed_list (epoch da0) (da0 :: rest) 0 (time da0) in
  Xr.needs_reindex (map time news) && existsb Xr.has_duplicates (map time news) = true ->
  Xr.concat_neuron news = Raise ValueError.
Proof.
  intros news H. unfold news in *.
  cbn [reindexed_list] in *. unfold Xr.concat_neuron. rewrite H. reflexivity.
Qed.

(** The coordinate given to a record is the first record's or the time
    coordinate of a record of the input. *)
Lemma reindexed_list_times (ce : list string) (das : list DataArray) :
  forall num ct x, In x (reindexed_list ce das num ct) ->
    time x = ct \/ exists da, In da das /\ time x = time da.
Proof.
  induction das as [|d rest IH]; intros num ct x Hx; simpl in Hx; [contradiction|].
  destruct Hx as [<-|Hx]; simpl.
  - destruct (negb _); [right; exists d; split; [now left|reflexivity]|now left].
  - apply IH in Hx. destruct Hx as [Hx|(da & Hda & Hx)].
    + rewrite Hx. destruct (negb _); [right; exists d; split; [now left|reflexivity]|now left].
    + right. exists da. split; [now right|assumption].
Qed.

Lemma unique_times_guard (da0 : DataArray) (rest : list DataArray) :
  unique_times (da0 :: rest) ->
  existsb Xr.has_duplicates
          (map time (reindexed_list (epoch da0) (da0 :: rest) 0 (time da0))) = false.
Proof.
  intros Hu. apply not_true_is_false. intros H.
  apply existsb_exists in H. destruct H as (t & Ht & Hd).
  apply in_map_iff in Ht. destruct Ht as (x & <- & Hx).
  apply reindexed_list_times in Hx. destruct Hx as [Hx|(da & Hda & Hx)]; rewrite Hx in Hd.
  - rewrite (Hu da0 (or_introl eq_refl)) in Hd. discriminate.
  - rewrite (Hu da Hda) in Hd. discriminate.
Qed.

(** For non-empty input the only exception is ValueError. *)
Lemma concat_vasc_occ_raises (da0 : DataArray) (rest : list DataArray) (e : exn) :
  concat_vasc_occ_dataarrays (da0 :: rest) = Raise e -> e = ValueError.
Proof.
  intros H.
  destruct (epochs_agree_dec da0 (da0 :: rest)) as [Ha|Hb].
  - rewrite concat_vasc_occ_equal_epochs in H by assumption.
    unfold Xr.concat_neuron in H. cbn [reindexed_list] in H.
    destruct (_ && _) in H; [congruence|discriminate].
  - rewrite concat_vasc_occ_mismatch in H by assumption. congruence.
Qed.

(** Records that agree on the number of epoch labels and repeat no time
    label are concatenated. *)
Lemma concat_vasc_occ_returns (da0 : DataArray) (rest : list DataArray) :
  (forall da, In da (da0 :: rest) -> length (epoch da) = length (epoch da0)) ->
  unique_times (da0 :: rest) ->
  exists ds, concat_vasc_occ_dataarrays (da0 :: rest) = Ok ds.
Proof.
  intros H Hu. rewrite concat_vasc_occ_equal_epochs by assumption.
  rewrite concat_neuron_reindexed.
  - eexists. reflexivity.
  - rewrite (unique_times_guard Hu). apply andb_false_r.
Qed.

(** Whatever the concatenation returns has the epoch labels of the first
    record and contiguous cell indices, and holds the samples of every
    cell at the cell's index, under their time labels. *)
Lemma merged_cell_indices (da0 : DataArray) (rest : list DataArray) (ds : DataArray) :
  let da_list := da0 :: rest in
  concat_vasc_occ_dataarrays da_list = Ok ds ->
  exists news,
    reindex_loop (epoch da0) da_list 0 (time da0) [] = Ok news /\
    epoch ds = epoch da0 /\
    neuron ds = seq 0 (list_sum (map ncells da_list)) /\
    (forall t, InQ t (time ds) <-> exists da', In da' news /\ InQ t (time da')) /\
    forall k da, nth_error da_list k = Some da ->
      firstn (ncells da) (skipn (cells_before da_list k) (neuron ds))
      = seq (cells_before da_list k) (ncells da) /\
      exists da',
        nth_error news k = Some da' /\ length (time da') = length (time da) /\
        ((forall d, In d da_list -> well_formed d) ->
         forall e j row,
           (e < length (epoch ds))%nat ->
           nth_error (nth e (data da) []) j = Some row ->
           exists mrow,
             nth_error (nth e (data ds) []) (cells_before da_list k + j) = Some mrow /\
             holds_samples (time da') (time ds) row mrow).
Proof.
  intros da_list H. apply concat_vasc_occ_ok_inv in H.
  destruct H as (da0' & rest' & Heq & Hep & Hc).
  injection Heq as <- <-. fold da_list in Hep, Hc.
  exists (reindexed_list (epoch da0) da_list 0 (time da0)).
  split; [unfold da_list; now rewrite reindex_loop_ok|].
  assert (Hg : Xr.needs_reindex
                 (map time (reindexed_list (epoch da0) da_list 0 (time da0)))
               && existsb Xr.has_duplicates
                    (map time (reindexed_list (epoch da0) da_list 0 (time da0)))
               = false).
  { unfold da_list in *. unfold Xr.concat_neuron in Hc. cbn [reindexed_list] in *.
    destruct (_ && _); [discriminate|reflexivity]. }
  unfold da_list in Hc. rewrite concat_neuron_reindexed in Hc by exact Hg.
  cbv zeta in Hc. fold da_list in Hc.
  pose proof (reindexed_list_neurons (epoch da0) da_list 0 (time da0)) as Hneu.
  pose proof (reindexed_list_nth (epoch da0) da_list 0 (time da0)) as Hnth.
  pose proof (map_data_reindexed_list (epoch da0) da_list 0 (time da0)) as Hdata.
  set (news := reindexed_list (epoch da0) da_list 0 (time da0)) in *.
  pose proof (fun i => @guard_reindex (map time news) Hg i) as Hguard.
  pose proof (fun t => InQ_outer_join t (map time news)) as Hjoin.
  set (joined := Xr.outer_join (map time news)) in *.
  clearbody news joined.
  injection Hc as <-. cbn [neuron data time epoch].
  split; [reflexivity|]. rewrite Hneu. split; [reflexivity|].
  split.
  { intros t. rewrite Hjoin. split.
    - intros (i & Hi & Ht). apply in_map_iff in Hi. destruct Hi as (da' & <- & Hda').
      now exists da'.
    - intros (da' & Hda' & Ht). exists (time da'). split; [|assumption].
      now apply in_map. }
  intros k da Hk.
  pose proof (list_sum_firstn_le ncells da_list k Hk) as Hle.
  fold (cells_before da_list k) in Hle.
  split; [rewrite skipn_seq, firstn_seq_le by lia; reflexivity|].
  destruct (Hnth k da Hk) as (da' & Hn & _ & _ & Hd & _ & Ht).
  exists da'. split; [assumption|]. split; [assumption|].
  intros Hwf e j row He Hrow.
  exists (Xr.reindex_row (time da') joined row). split.
  - rewrite nth_map_seq by assumption.
    set (g := fun da1 : DataArray =>
                map (Xr.reindex_row (time da1) joined) (nth e (data da1) [])).
    assert (Hlen : map (@length (list float)) (map g news) = map ncells da_list).
    { rewrite map_map.
      transitivity (map (fun d => length (nth e d [])) (map data news)).
      - rewrite map_map. apply map_ext. intros d. unfold g. apply length_map.
      - rewrite Hdata, map_map.
        apply map_ext_in. intros d Hd'.
        destruct (Hwf d Hd') as (Hl & Hp).
        apply Hp, nth_In. rewrite Hl, (Hep d Hd'). exact He. }
    assert (Hcb : cells_before da_list k
                  = list_sum (map (@length (list float)) (firstn k (map g news)))).
    { unfold cells_before.
      rewrite <- (firstn_map (@length (list float))), Hlen. now rewrite firstn_map. }
    rewrite Hcb.
    rewrite (@nth_error_concat_block _ (map g news) k j (g da')).
    + unfold g. rewrite nth_error_map, Hd, Hrow. reflexivity.
    + now rewrite nth_error_map, Hn.
    + unfold g. rewrite length_map, Hd. apply nth_error_Some. congruence.
  - assert (Hin' : In (time da') (map time news))
      by (apply in_map; eapply nth_error_In; eassumption).
    apply reindex_row_holds.
    + destruct (Hwf da (nth_error_In _ _ Hk)) as (Hl & Hp).
      rewrite Ht.
      assert (Hpl : In (nth e (data da) []) (data da)).
      { apply nth_In. rewrite Hl, (Hep da (nth_error_In _ _ Hk)). exact He. }
      apply (proj2 (Hp _ Hpl)). eapply nth_error_In; eassumption.
    + now apply Hguard.
    + intros t Hin. apply Hjoin. now exists (time da').
Qed.




(** The scenario of C4: records with 3 and 5 cells merge into cell
    indices 0..7, the cells of the second record at 3..7. *)
Example merge_3_and_5_cells :
  concat_vasc_occ_dataarrays [rec_3cells; rec_5cells] = Ok merged_8cells /\
  neuron merged_8cells = seq 0 8 /\
  cells_before [rec_3cells; rec_5cells] 1 = 3%nat /\
  skipn 3 (neuron merged_8cells) = seq 3 5 /\
  skipn 3 (nth 0 (data merged_8cells) []) = nth 0 (data rec_5cells) [].
Proof. repeat split; vm_compute; reflexivity. Qed.

(** Records of 3 and of 2 time samples: the cell of the second record is
    found in the merged array under the labels 0 and 1, and holds NaN
    under the label 2, which its record lacks. *)
Example merge_3_and_2_samples :
  concat_vasc_occ_dataarrays [rec_all3; rec_all2]
  = Ok (MkDataArray ["all"%string] [0; 1]%nat [0; 1; 2]
                    [[[Some 1; Some 2; Some 3]; [Some 7; Some 8; None]]] []).
Proof. vm_compute. reflexivity. Qed.

(** C2, as the claim states it, fails: two records whose epoch labels
    differ ("all" and "run") are merged without an error, under the
    labels of the first. *)
Lemma differing_epochs_are_merged :
  epoch rec_all3 <> epoch rec_run3 /\
  exists ds, concat_vasc_occ_dataarrays [rec_all3; rec_run3] = Ok ds /\
             epoch ds = epoch rec_all3.
Proof.
  split; [discriminate|]. eexists. split; [vm_compute; reflexivity|reflexivity].
Qed.

(** C2, amended: the concatenation does not compare epoch labels.  When
    every record has as many epoch labels as the first and no record
    repeats a time label, it succeeds; whenever it succeeds, the merged
    array carries the first record's labels.  When some record has a
    different number of epoch labels, the array constructor fails with
    ValueError, and no input makes it fail with another exception. *)
Theorem epochs_taken_from_first (da0 : DataArray) (rest : list DataArray) :
  ((forall da, In da (da0 :: rest) -> length (epoch da) = length (epoch da0)) ->
   unique_times (da0 :: rest) ->
   exists ds, concat_vasc_occ_dataarrays (da0 :: rest) = Ok ds /\
              epoch ds = epoch da0)
  /\
  ((exists da, In da (da0 :: rest) /\ length (epoch da) <> length (epoch da0)) ->
   concat_vasc_occ_dataarrays (da0 :: rest) = Raise ValueError)
  /\
  (forall ds, concat_vasc_occ_dataarrays (da0 :: rest) = Ok ds -> epoch ds = epoch da0)
  /\
  (forall e, concat_vasc_occ_dataarrays (da0 :: rest) = Raise e -> e = ValueError).
Proof.
  assert (Hep : forall ds, concat_vasc_occ_dataarrays (da0 :: rest) = Ok ds ->
                           epoch ds = epoch da0).
  { intros ds Hds. now destruct (@merged_cell_indices da0 rest ds Hds) as (_ & _ & He & _). }
  split; [|split; [|split]].
  - intros H Hu. destruct (concat_vasc_occ_returns H Hu) as (ds & Hds).
    exists ds. split; [assumption|now apply Hep].
  - apply concat_vasc_occ_mismatch.
  - exact Hep.
  - apply concat_vasc_occ_raises.
Qed.

Lemma epochs_taken_from_first_witness :
  (exists ds, concat_vasc_occ_dataarrays [rec_all3; rec_run3] = Ok ds /\
              epoch ds = epoch rec_all3)
  /\ concat_vasc_occ_dataarrays [rec_all3; rec_two_epochs] = Raise ValueError
  /\ epoch merged_8cells = epoch rec_3cells
  /\ ValueError = ValueError.
Proof.
  split; [|split; [|split]].
  - apply (proj1 (epochs_taken_from_first rec_all3 [rec_run3])).
    + intros da [<-|[<-|[]]]; reflexivity.
    + intros da [<-|[<-|[]]]; reflexivity.
  - apply (proj1 (proj2 (epochs_taken_from_first rec_all3 [rec_two_epochs]))).
    exists rec_two_epochs. split; [simpl; tauto|simpl; lia].
  - apply (proj1 (proj2 (proj2 (epochs_taken_from_first rec_3cells [rec_5cells])))).
    vm_compute. reflexivity.
  - apply (proj2 (proj2 (proj2 (epochs_taken_from_first rec_repeat3 [rec_all2])))).
    vm_compute. reflexivity.
Defined.




(** A record that repeats a time label, followed by a record with
    another time axis: the alignment refuses to re-index. *)
Example repeated_label_is_refused :
  concat_vasc_occ_dataarrays [rec_repeat3; rec_all2] = Raise ValueError /\
  concat_vasc_occ_dataarrays [rec_all2; rec_repeat3] = Raise ValueError /\
  exists ds, concat_vasc_occ_dataarrays [rec_repeat3] = Ok ds.
Proof.
  split; [vm_compute; reflexivity|]. split; [vm_compute; reflexivity|].
  eexists. vm_compute. reflexivity.
Qed.

(** ** File discovery *)

Section Discovery.

Variable rglob : Path -> string -> list Path.
Variable self : FileFinder.

Lemma make_table_app (f r : list Path) (a c : list (option Path))
    (x y : Path) (z w : option Path) :
  length r = length f -> length a = length f -> length c = length f ->
  _make_table (f ++ [x]) (r ++ [y]) (a ++ [z]) (c ++ [w])
  = _make_table f r a c ++ [MkGroup x y z w].
Proof.
  revert r a c.
  induction f as [|f0 f' IH]; intros [|r0 r'] [|a0 a'] [|c0 c'] Hr Ha Hc;
    simpl in *; try discriminate; [reflexivity|].
  f_equal. apply IH; congruence.
Qed.

(** One visit leaves the table as it is or appends one discovered group. *)
Lemma visit_file_table (folder : Path) (globstr : string) (file : Path)
    (acc : found_files) :
  In (folder, globstr) (folder_globs self) ->
  In file (rglob folder globstr) ->
  parallel acc ->
  parallel (visit_file rglob self folder file acc) /\
  (table (visit_file rglob self folder file acc) = table acc \/
   exists g, discovered rglob self g /\
             table (visit_file rglob self folder file acc) = table acc ++ [g]).
Proof.
  intros Hfolder Hfile Hpar.
  assert (Hskip : parallel acc /\
            (table acc = table acc \/
             exists g, discovered rglob self g /\ table acc = table acc ++ [g]))
    by (split; [assumption|now left]).
  unfold visit_file.
  destruct (is_NONE (analog_type self)) eqn:Ean; simpl;
    [|destruct (next_rglob rglob folder (stem file ++ "*analog*.txt")) as [af|] eqn:Eaf;
      [|exact Hskip]];
    (destruct (next_rglob rglob folder (stem file ++ "*results.npz")) as [rf|] eqn:Erf;
     [|exact Hskip]);
    (destruct (with_colabeled self) eqn:Eco;
     [destruct (next_rglob rglob folder (stem file ++ "*_colabeled*.npy")) as [cf|] eqn:Ecf;
      [|exact Hskip]|]);
    (destruct (next_rglob rglob folder (stem file ++ "*.nc")) as [nc|] eqn:Enc;
     [exact Hskip|]);
    destruct Hpar as (Hr & Ha & Hc);
    (split;
     [unfold parallel; simpl; rewrite !length_app; simpl; lia|]);
    right; eexists; (split; [|unfold table; simpl; apply make_table_app; assumption]);
    exists folder, globstr; simpl; rewrite ?Ean, ?Eco;
    repeat split; try assumption; try discriminate; try reflexivity;
    try (symmetry; assumption).
Qed.

Lemma visit_folder_table (entry : Path * string) (acc : found_files) :
  In entry (folder_globs self) ->
  parallel acc -> Forall (discovered rglob self) (table acc) ->
  parallel (visit_folder rglob self acc entry) /\
  Forall (discovered rglob self) (table (visit_folder rglob self acc entry)).
Proof.
  destruct entry as [folder globstr]. intros Hentry. unfold visit_folder.
  assert (Hgen : forall files acc0,
            (forall f, In f files -> In f (rglob folder globstr)) ->
            parallel acc0 -> Forall (discovered rglob self) (table acc0) ->
            parallel (fold_left (fun acc file => visit_file rglob self folder file acc)
                                files acc0) /\
            Forall (discovered rglob self)
                   (table (fold_left (fun acc file => visit_file rglob self folder file acc)
                                     files acc0))).
  { induction files as [|file rest IH]; intros acc0 Hin Hp Hd; simpl; [now split|].
    destruct (@visit_file_table folder globstr file acc0 Hentry
                (Hin file (or_introl eq_refl)) Hp)
      as (Hp' & [Ht|(g & Hg & Ht)]).
    - apply IH; [intros f Hf; apply Hin; now right|assumption|now rewrite Ht].
    - apply IH; [intros f Hf; apply Hin; now right|assumption|].
      rewrite Ht. apply Forall_app. split; [assumption|]. now constructor. }
  apply Hgen. auto.
Qed.

Lemma find_all_table :
  Forall (discovered rglob self) (table (_find_all_relevant_files rglob self)).
Proof.
  unfold _find_all_relevant_files.
  assert (Hgen : forall entries acc,
            (forall e, In e entries -> In e (folder_globs self)) ->
            parallel acc -> Forall (discovered rglob self) (table acc) ->
            Forall (discovered rglob self)
                   (table (fold_left (visit_folder rglob self) entries acc))).
  { induction entries as [|entry rest IH]; intros acc Hin Hp Hd; simpl; [assumption|].
    destruct (@visit_folder_table entry acc (Hin entry (or_introl eq_refl)) Hp Hd)
      as (Hp' & Hd').
    apply IH; [intros e He; apply Hin; now right|assumption|assumption]. }
  apply Hgen.
  - auto.
  - repeat split.
  - constructor.
Qed.

End Discovery.

(** C9: every group that file discovery returns has a primary file that
    matched the glob and a results file that was found for its stem (a
    file without one is skipped), and no .nc artifact exists for the stem
    of its primary file. *)
Theorem groups_are_complete (rglob : Path -> string -> list Path) (self : FileFinder)
    (g : RecordingGroup) :
  In g (find_files rglob self) ->
  exists folder globstr,
    In (folder, globstr) (folder_globs self) /\
    In (tif g) (rglob folder globstr) /\
    hd_error (rglob folder (stem (tif g) ++ "*results.npz")%string) = Some (caiman g) /\
    rglob folder (stem (tif g) ++ "*.nc")%string = [].
Proof.
  intros Hg.
  pose proof (find_all_table rglob self) as Hall.
  rewrite Forall_forall in Hall.
  destruct (Hall g Hg) as (folder & globstr & Hin & Htif & Hres & Hnc & _).
  exists folder, globstr. repeat split; try assumption.
  unfold next_rglob in Hnc.
  destruct (rglob folder (stem (tif g) ++ "*.nc")%string); [reflexivity|discriminate].
Qed.

Lemma groups_are_complete_witness :
  exists folder globstr,
    In (folder, globstr) (folder_globs example_finder) /\
    In (tif example_group) (example_rglob folder globstr) /\
    hd_error (example_rglob folder (stem (tif example_group) ++ "*results.npz")%string)
    = Some (caiman example_group) /\
    example_rglob folder (stem (tif example_group) ++ "*.nc")%string = [].
Proof.
  apply (@groups_are_complete example_rglob example_finder example_group).
  vm_compute. left. reflexivity.
Defined.

(** On the example file system discovery returns the first TIF only: the
    second has no results file and the third has a .nc file. *)
Example discovery_example :
  find_files example_rglob example_finder = [example_group].
Proof. vm_compute. reflexivity. Qed.

(** * Further properties *)

(** ** The spike matrix *)

Lemma length_concat_uniform {A : Type} (c : nat) (rows : list (list A)) :
  (forall row, In row rows -> length row = c) ->
  length (concat rows) = (length rows * c)%nat.
Proof.
  induction rows as [|row t IH]; intros H; simpl; [reflexivity|].
  rewrite length_app, IH by (intros r Hr; apply H; now right).
  rewrite (H row) by now left. reflexivity.
Qed.

Lemma concat_chunks (r c : nat) :
  forall l, length l = (r * c)%nat -> concat (chunks r c l) = l.
Proof.
  induction r as [|r IH]; intros l Hl; simpl in *.
  - destruct l; [reflexivity|discriminate].
  - rewrite IH by (rewrite length_skipn; lia). apply firstn_skipn.
Qed.

Lemma items_rows_of (a : ndarray) (r c : nat) :
  well_shaped a -> shape a = [r; c] -> items a = concat (rows_of a).
Proof.
  unfold well_shaped, rows_of. intros Hw Hs. rewrite Hs in *. simpl in Hw.
  symmetry. apply concat_chunks. lia.
Qed.

(** The detector returns a well-shaped array. *)
Lemma locate_spikes_well_shaped {rel : Peakutils.release} (data : ndarray) (fps thresh : Q) (out : ndarray) :
  well_shaped data ->
  locate_spikes_peakutils rel data fps thresh = Ok out ->
  well_shaped out.
Proof.
  intros Hw Hl.
  destruct (locate_spikes_rows _ _ Hw Hl) as (Hs & r & c & Hd & _ & Hlen & Hrows).
  unfold locate_spikes_peakutils in Hl. rewrite Hd in Hl.
  destruct (0 <? r)%nat; [|discriminate].
  destruct (spikes_loop rel _ _ _ _ _) as [rows|e] eqn:El; simpl in Hl; [|discriminate].
  injection Hl as <-. unfold well_shaped. simpl.
  apply spikes_loop_spec in El. destruct El as (Hl1 & _ & Hin).
  assert (Hnrows : length (rows_of data) = r)
    by (unfold rows_of; rewrite Hd; apply length_chunks).
  assert (Hr : length rows = r).
  { rewrite Hl1. unfold zeros_like. now rewrite length_map. }
  rewrite (@length_concat_uniform _ c); [lia|].
  intros row Hrow. apply (In_nth _ _ []) in Hrow. destruct Hrow as (k & Hk & <-).
  destruct (nth_error (rows_of data) k) as [cell|] eqn:Ec;
    [|apply nth_error_None in Ec; lia].
  destruct (Hin k cell Ec) as (_ & peaks & _ & Hn). simpl in Hn.
  rewrite Hn, length_set_many, nth_zeros_like, repeat_length, (nth_error_nth _ _ _ Ec).
  eapply rows_of_well_shaped; [exact Hw|exact Hd|]. eapply nth_error_In, Ec.
Qed.

(** X1: whenever the detector returns, the spike matrix has the shape of
    the input, as many items as its shape says, and every item is 0 or 1. *)
Theorem spike_matrix_is_binary {rel : Peakutils.release} (data : ndarray) (fps thresh : Q) (out : ndarray) :
  well_shaped data ->
  locate_spikes_peakutils rel data fps thresh = Ok out ->
  shape out = shape data /\ well_shaped out /\
  forall x, In x (items out) -> x = 0 \/ x = 1.
Proof.
  intros Hw Hl.
  pose proof (locate_spikes_well_shaped _ _ Hw Hl) as Hwo.
  destruct (locate_spikes_rows _ _ Hw Hl) as (Hs & r & c & Hd & _ & Hlen & Hrows).
  split; [assumption|]. split; [assumption|].
  intros x Hx.
  rewrite (@items_rows_of out r c Hwo) in Hx by congruence.
  apply in_concat in Hx. destruct Hx as (row & Hrow & Hx).
  apply (In_nth_error _ _) in Hrow. destruct Hrow as (k & Hk).
  assert (Hkr : (k < length (rows_of data))%nat).
  { unfold rows_of at 1. rewrite Hd, length_chunks, <- Hlen.
    apply nth_error_Some. congruence. }
  destruct (nth_error (rows_of data) k) as [cell|] eqn:Ec;
    [|apply nth_error_None in Ec; lia].
  destruct (Hrows k cell Ec) as (_ & peaks & _ & Ho).
  rewrite Hk in Ho. injection Ho as ->.
  apply (In_nth _ _ 0) in Hx. destruct Hx as (i & Hi & <-).
  rewrite nth_set_many, nth_repeat.
  destruct (_ && _); auto.
Qed.

Lemma spike_matrix_is_binary_witness :
  shape (NdArray [1%nat; 5%nat] [0; 1; 0; 1; 0]) = shape two_peaks /\
  well_shaped (NdArray [1%nat; 5%nat] [0; 1; 0; 1; 0]) /\
  forall x, In x (items (NdArray [1%nat; 5%nat] [0; 1; 0; 1; 0])) -> x = 0 \/ x = 1.
Proof.
  apply (@spike_matrix_is_binary Peakutils.from_1_3_5 two_peaks 1 (1 # 2)).
  - reflexivity.
  - vm_compute. reflexivity.
Defined.

(** ** Where the detector can mark a spike *)

Lemma length_fix_leftmost (st st' : list Q * list (list nat)) :
  Peakutils.fix_leftmost st = Ok st' -> length (fst st') = length (fst st).
Proof.
  destruct st as [dy runs]. unfold Peakutils.fix_leftmost.
  destruct runs as [|p0 ps]; [intros H; now injection H as <-|].
  destruct (_ =? _)%nat; [|intros H; now injection H as <-].
  destruct (getitem _ _); cbn [bind]; [|discriminate].
  intros H. injection H as <-. simpl. apply length_set_many.
Qed.

Lemma length_fix_rightmost (st st' : list Q * list (list nat)) :
  Peakutils.fix_rightmost st = Ok st' -> length (fst st') = length (fst st).
Proof.
  destruct st as [dy runs]. unfold Peakutils.fix_rightmost.
  destruct runs as [|p0 ps]; [intros H; now injection H as <-|].
  destruct (_ =? _)%nat; [|intros H; now injection H as <-].
  destruct (getitem _ _); cbn [bind]; [|discriminate].
  intros H. injection H as <-. simpl. apply length_set_many.
Qed.

Lemma length_fill_each (runs : list (list nat)) :
  forall dy dy', Peakutils.fill_each dy runs = Ok dy' -> length dy' = length dy.
Proof.
  induction runs as [|r rest IH]; intros dy dy' H; cbn [Peakutils.fill_each] in H.
  - now injection H as <-.
  - destruct (Peakutils.fill_plateau dy r) as [dy1|e] eqn:E; cbn [bind] in H;
      [|discriminate].
    rewrite (IH _ _ H). unfold Peakutils.fill_plateau in E.
    destruct (getitem dy _); cbn [bind] in E; [|discriminate].
    destruct (getitem _ _); cbn [bind] in E; [|discriminate].
    injection E as <-. now rewrite !length_set_many.
Qed.

Lemma length_fill_plateaus (dy dy' : list Q) (zeros : list nat) :
  Peakutils.fill_plateaus dy zeros = Ok dy' -> length dy' = length dy.
Proof.
  unfold Peakutils.fill_plateaus.
  destruct zeros as [|z zs]; [intros H; now injection H as <-|].
  destruct (Peakutils.fix_leftmost _) as [st1|e] eqn:E1; cbn [bind]; [|discriminate].
  destruct (Peakutils.fix_rightmost _) as [st2|e] eqn:E2; cbn [bind]; [|discriminate].
  intros H. rewrite (length_fill_each _ _ H).
  rewrite (length_fix_rightmost _ E2), (length_fix_leftmost _ E1). reflexivity.
Qed.

(** The thinning only removes peaks. *)
Lemma enforce_min_dist_subset (y : list Q) (peaks : list nat) (min_dist : Z) (i : nat) :
  In i (Peakutils.enforce_min_dist y peaks min_dist) -> In i peaks.
Proof.
  unfold Peakutils.enforce_min_dist.
  destruct (_ && _); [|trivial].
  rewrite in_np_where, nth_map_negb, negb_true_iff. intros [_ Hi].
  apply suppress_kept in Hi. rewrite nth_set_many in Hi.
  destruct (existsb (Nat.eqb i) peaks) eqn:E.
  - now apply existsb_eqb_In in E.
  - simpl in Hi. rewrite nth_repeat in Hi. discriminate.
Qed.

(** A peak lies strictly inside the signal and strictly above the
    threshold scaled to the signal's range. *)
Lemma indexes_peak {rel : Peakutils.release} (y : list Q) (thres : Q) (min_dist : Z) (ia : index_array) (i : nat) :
  Peakutils.indexes rel y thres min_dist = Ok ia ->
  In i (idx ia) ->
  (0 < i)%nat /\ (S i < length y)%nat /\
  exists ymax ymin,
    np_max y = Ok ymax /\ np_min y = Ok ymin /\
    thres * (ymax - ymin) + ymin < nth i y 0.
Proof.
  unfold Peakutils.indexes.
  destruct (np_max y) as [ymax|e]; cbn [bind]; [|discriminate].
  destruct (np_min y) as [ymin|e]; cbn [bind]; [|discriminate].
  destruct (_ =? _)%nat; [intros H; injection H as <-; intros []|].
  destruct (Peakutils.fill_plateaus _ _) as [dy|e] eqn:Ef; cbn [bind]; [|discriminate].
  intros H. injection H as <-. cbn [idx]. intros Hi.
  apply enforce_min_dist_subset in Hi.
  apply in_np_where in Hi. rewrite length_peak_mask in Hi. destruct Hi as [Hlt Hm].
  unfold Peakutils.peak_mask in Hm. rewrite nth_map_seq in Hm by assumption.
  apply andb_prop in Hm. destruct Hm as [Hm Habove].
  apply andb_prop in Hm. destruct Hm as [Hfall Hrise].
  apply length_fill_plateaus in Ef. rewrite length_np_diff in Ef.
  assert (Hi0 : (0 < i)%nat).
  { destruct i; [|lia]. simpl in Hrise. discriminate. }
  assert (Hil : (S i < length y)%nat).
  { destruct (Nat.ltb_spec (S i) (length y)) as [|Hge]; [assumption|].
    rewrite nth_app_zero, nth_overflow in Hfall by lia. discriminate. }
  split; [assumption|]. split; [assumption|].
  exists ymax, ymin. repeat split.
  unfold Qltb in Habove. apply negb_true_iff in Habove.
  apply Qnot_le_lt. intros Hle. apply Qle_bool_iff in Hle. congruence.
Qed.

(** X2: a spike is never marked at the first or at the last frame of a
    cell, and only where the trace is strictly above
    thresh * (max - min) + min of that cell. *)
Theorem spikes_inside_and_above {rel : Peakutils.release} (data : ndarray) (fps thresh : Q) (out : ndarray)
    (r i : nat) (row cell : list Q) :
  well_shaped data ->
  locate_spikes_peakutils rel data fps thresh = Ok out ->
  nth_error (rows_of data) r = Some cell ->
  nth_error (rows_of out) r = Some row ->
  nth i row 0 == 1 ->
  (0 < i)%nat /\ (S i < length cell)%nat /\
  exists ymax ymin,
    np_max cell = Ok ymax /\ np_min cell = Ok ymin /\
    thresh * (ymax - ymin) + ymin < nth i cell 0.
Proof.
  intros Hw Hl Hc Hrow Hi.
  destruct (locate_spikes_rows _ _ Hw Hl) as (_ & nr & c & _ & _ & _ & Hrows).
  destruct (Hrows r cell Hc) as (_ & peaks & Hp & Ho).
  rewrite Hrow in Ho. injection Ho as ->.
  apply (@indexes_peak _ _ _ _ _ i Hp). simpl.
  rewrite nth_set_many in Hi.
  destruct (existsb (Nat.eqb i) peaks) eqn:E; [now apply existsb_eqb_In in E|].
  simpl in Hi. rewrite nth_repeat in Hi. discriminate.
Qed.

Lemma spikes_inside_and_above_witness :
  (0 < 3)%nat /\ (S 3 < length [0; 3; 0; 5; 0])%nat /\
  exists ymax ymin,
    np_max [0; 3; 0; 5; 0] = Ok ymax /\ np_min [0; 3; 0; 5; 0] = Ok ymin /\
    (1 # 2) * (ymax - ymin) + ymin < nth 3 [0; 3; 0; 5; 0] 0.
Proof.
  apply (@spikes_inside_and_above Peakutils.from_1_3_5 two_peaks 1 (1 # 2)
           (NdArray [1%nat; 5%nat] [0; 1; 0; 1; 0]) 0 3 [0; 1; 0; 1; 0] [0; 3; 0; 5; 0]).
  - reflexivity.
  - vm_compute. reflexivity.
  - reflexivity.
  - reflexivity.
  - reflexivity.
Defined.

(** ** The mean number of spikes *)

Lemma fold_left_Qplus_acc (l : list Q) :
  forall acc, fold_left Qplus l acc == acc + fold_left Qplus l 0.
Proof.
  induction l as [|x t IH]; intros acc; simpl; [ring|].
  rewrite (IH (acc + x)), (IH (0 + x)). ring.
Qed.

Lemma of_count_S (n : nat) : of_count (S n) == of_count n + 1.
Proof.
  unfold of_count. rewrite Nat2Z.inj_succ, <- Z.add_1_r, inject_Z_plus. reflexivity.
Qed.

(** The sum of a row of 0s and 1s is its number of 1s. *)
Lemma np_sum_binary (row : list Q) :
  (forall x, In x row -> x = 0 \/ x = 1) ->
  np_sum row == of_count (count_spikes row).
Proof.
  unfold np_sum, count_spikes.
  induction row as [|x t IH]; intros H; simpl; [reflexivity|].
  rewrite fold_left_Qplus_acc, IH by (intros y Hy; apply H; now right).
  destruct (H x (or_introl eq_refl)) as [->| ->]; simpl.
  - ring.
  - rewrite of_count_S. ring.
Qed.

Lemma filter_nth_seq {A : Type} (f : A -> bool) (d : A) (l : list A) :
  forall a,
    length (filter (fun t => f (nth (t - a) l d)) (seq a (length l)))
    = length (filter f l).
Proof.
  induction l as [|x t IH]; intros a; simpl; [reflexivity|].
  rewrite Nat.sub_diag.
  rewrite (filter_ext_in (fun t0 => f (nth (t0 - a) (x :: t) d))
                         (fun t0 => f (nth (t0 - S a) t d))).
  - destruct (f x); simpl; now rewrite IH.
  - intros t0 Ht0. apply in_seq in Ht0.
    replace (t0 - a)%nat with (S (t0 - S a)) by lia. reflexivity.
Qed.

Lemma count_spikes_between (row : list Q) :
  count_spikes row = spikes_between row 0 (Z.of_nat (length row)).
Proof.
  unfold count_spikes, spikes_between.
  rewrite <- (filter_nth_seq (fun x => Qeq_bool x 1) 0 row 0).
  f_equal. apply filter_ext_in. intros t Ht. apply in_seq in Ht.
  rewrite Nat.sub_0_r.
  destruct (Z.leb_spec 0 (Z.of_nat t)); [|lia].
  destruct (Z.ltb_spec (Z.of_nat t) (Z.of_nat (length row))); [|lia].
  now rewrite !andb_true_r.
Qed.

Lemma count_spikes_marks (l : list nat) (n : nat) :
  NoDup l -> (forall i, In i l -> (i < n)%nat) ->
  count_spikes (set_many l 1 (repeat 0 n)) = length l.
Proof.
  intros Hnd Hb.
  rewrite count_spikes_between, length_set_many, repeat_length, count_marks
    by assumption.
  f_equal. apply forallb_filter_id. apply forallb_forall. intros i Hi.
  pose proof (Hb i Hi).
  destruct (Z.leb_spec 0 (Z.of_nat i)); [|lia].
  destruct (Z.ltb_spec (Z.of_nat i) (Z.of_nat n)); [reflexivity|lia].
Qed.

Lemma indexes_sorted {rel : Peakutils.release} (y : list Q) (thres : Q) (min_dist : Z) (ia : index_array) :
  Peakutils.indexes rel y thres min_dist = Ok ia -> StronglySorted lt (idx ia).
Proof.
  unfold Peakutils.indexes.
  destruct (np_max y); cbn [bind]; [|discriminate].
  destruct (np_min y); cbn [bind]; [|discriminate].
  destruct (_ =? _)%nat; [intros H; injection H as <-; constructor|].
  destruct (Peakutils.fill_plateaus _ _); cbn [bind]; [|discriminate].
  intros H. injection H as <-. cbn [idx].
  unfold Peakutils.enforce_min_dist.
  destruct (_ && _); apply sorted_filter_seq.
Qed.

(** Indices that keep more than [M] apart do not fit often below [c]. *)
Lemma spaced_indices_bound (M c : Z) (l : list nat) :
  (0 <= M)%Z ->
  StronglySorted lt l ->
  (forall i j, In i l -> In j l -> (i < j)%nat -> (M < Z.of_nat j - Z.of_nat i)%Z) ->
  forall lo, (forall i, In i l -> (lo <= Z.of_nat i < c)%Z) -> l <> [] ->
    (Z.of_nat (length l) * (M + 1) <= c - lo + M)%Z.
Proof.
  intros HM. induction l as [|a t IH]; intros Hs Hgap lo Hb Hne; [contradiction|].
  inversion Hs as [|? ? Hs' Hlt]; subst.
  pose proof (Hb a (or_introl eq_refl)) as Ha.
  destruct t as [|b t'].
  - change (Z.of_nat (length [a])) with 1%Z. lia.
  - assert (Hne' : b :: t' <> []) by discriminate.
    specialize (IH Hs'
                   (fun i j Hi Hj => Hgap i j (or_intror Hi) (or_intror Hj))
                   (Z.of_nat a + M + 1)%Z).
    assert (Hb' : forall i, In i (b :: t') -> (Z.of_nat a + M + 1 <= Z.of_nat i < c)%Z).
    { intros i Hi. rewrite Forall_forall in Hlt. pose proof (Hlt i Hi).
      pose proof (Hgap a i (or_introl eq_refl) (or_intror Hi) H).
      pose proof (Hb i (or_intror Hi)). lia. }
    specialize (IH Hb' Hne').
    change (length (a :: b :: t')) with (S (length (b :: t'))).
    rewrite Nat2Z.inj_succ. lia.
Qed.

(** X3: the mean spike number of a cell is its number of spikes divided
    by the number of frames; it lies between 0 and 1, and n spikes need
    at least (n - 1) * (int(fps) + 1) + 1 frames. *)
Theorem mean_spike_num_bounded {rel : Peakutils.release} (data : ndarray) (fps thresh : Q) (means : list Q) :
  well_shaped data ->
  calc_mean_spike_num rel data fps thresh = Ok means ->
  exists out r c,
    shape data = [r; c] /\
    locate_spikes_peakutils rel data fps thresh = Ok out /\
    length means = r /\
    forall k row, nth_error (rows_of out) k = Some row ->
      exists m, nth_error means k = Some m /\
        m == of_count (count_spikes row) / inject_Z (Z.of_nat c) /\
        0 <= m /\ m <= 1 /\
        (Z.of_nat (count_spikes row) * (Z.max 0 (py_int fps) + 1)
         <= Z.of_nat c + Z.max 0 (py_int fps))%Z.
Proof.
  intros Hw. unfold calc_mean_spike_num.
  destruct (locate_spikes_peakutils rel data fps thresh) as [out|e] eqn:Hl;
    cbn [bind]; [|discriminate].
  intros H. injection H as <-.
  destruct (locate_spikes_rows _ _ Hw Hl) as (Hs & r & c & Hd & Hr & Hlen & Hrows).
  exists out, r, c. rewrite Hd. cbn [nth].
  split; [reflexivity|]. split; [reflexivity|].
  split; [now rewrite length_map|].
  intros k row Hrow. rewrite nth_error_map, Hrow. cbn [option_map].
  eexists. split; [reflexivity|].
  assert (Hkr : (k < length (rows_of data))%nat).
  { unfold rows_of at 1. rewrite Hd, length_chunks, <- Hlen.
    apply nth_error_Some. congruence. }
  destruct (nth_error (rows_of data) k) as [cell|] eqn:Ec;
    [|apply nth_error_None in Ec; lia].
  destruct (Hrows k cell Ec) as (Hcl & peaks & Hp & Ho).
  rewrite Hrow in Ho. injection Ho as ->.
  pose proof (indexes_NoDup _ _ _ Hp) as Hnd. cbn [idx] in Hnd.
  pose proof (indexes_sorted _ _ _ Hp) as Hsorted. cbn [idx] in Hsorted.
  destruct (indexes_cases _ _ _ Hp) as [Hf|(_ & Hb & Hsp)]; [discriminate|].
  cbn [idx] in Hb, Hsp. rewrite Hcl in Hb.
  rewrite (count_spikes_marks Hnd Hb).
  assert (Hsum : np_sum (set_many peaks 1 (repeat 0 c)) == of_count (length peaks)).
  { rewrite np_sum_binary, (count_spikes_marks Hnd Hb); [reflexivity|].
    intros x Hx. apply (In_nth _ _ 0) in Hx. destruct Hx as (i & _ & <-).
    rewrite nth_set_many, nth_repeat. destruct (_ && _); auto. }
  assert (Hbound : (Z.of_nat (length peaks) * (Z.max 0 (py_int fps) + 1)
                    <= Z.of_nat c + Z.max 0 (py_int fps))%Z).
  { destruct peaks as [|p ps] eqn:Ep.
    - simpl. lia.
    - rewrite <- Ep in *.
      pose proof (@spaced_indices_bound (Z.max 0 (py_int fps)) (Z.of_nat c) peaks
                    ltac:(lia) Hsorted) as Hpack.
      specialize (Hpack (fun i j Hi Hj Hij =>
                           ltac:(pose proof (Hsp i j Hi Hj Hij); lia)) 0%Z).
      assert (Hne : peaks <> []) by (rewrite Ep; discriminate).
      specialize (Hpack (fun i Hi => ltac:(pose proof (Hb i Hi); lia)) Hne). lia. }
  assert (Hc : (0 < c)%nat).
  { destruct (indexes_cases _ _ _ Hp) as [Hf|_]; [discriminate|].
    destruct c; [|lia]. destruct cell; [|discriminate]. discriminate Hp. }
  assert (HcQ : 0 < inject_Z (Z.of_nat c)).
  { rewrite <- (Zlt_Qlt 0). lia. }
  assert (Hn0 : 0 <= of_count (length peaks)).
  { unfold of_count. rewrite <- (Zle_Qle 0). lia. }
  assert (Hnc : of_count (length peaks) <= inject_Z (Z.of_nat c)).
  { unfold of_count. rewrite <- Zle_Qle. nia. }
  split; [now rewrite Hsum|]. split; [|split; [|exact Hbound]].
  - rewrite Hsum. apply Qle_shift_div_l; [assumption|]. now rewrite Qmult_0_l.
  - rewrite Hsum. apply Qle_shift_div_r; [assumption|]. now rewrite Qmult_1_l.
Qed.

Lemma mean_spike_num_bounded_witness :
  exists out r c,
    shape two_peaks = [r; c] /\
    locate_spikes_peakutils Peakutils.from_1_3_5 two_peaks 1 (1 # 2) = Ok out /\
    length [(0 + 0 + 1 + 0 + 1 + 0) / inject_Z 5] = r /\
    forall k row, nth_error (rows_of out) k = Some row ->
      exists m, nth_error [(0 + 0 + 1 + 0 + 1 + 0) / inject_Z 5] k = Some m /\
        m == of_count (count_spikes row) / inject_Z (Z.of_nat c) /\
        0 <= m /\ m <= 1 /\
        (Z.of_nat (count_spikes row) * (Z.max 0 (py_int 1) + 1)
         <= Z.of_nat c + Z.max 0 (py_int 1))%Z.
Proof.
  apply (@mean_spike_num_bounded Peakutils.from_1_3_5 two_peaks 1 (1 # 2)).
  - reflexivity.
  - reflexivity.
Defined.

(** ** [_find_spikes] and the spike detector *)

Lemma find_spikes_loop_marks {rel : Peakutils.release} (thresh : Q) (min_dist before_occ summed_after_occ : Z)
    (norm_factor_during norm_factor_after : Q) (cells : list (list Q)) :
  forall row st,
    result_map fs_all_spikes
      (find_spikes_loop rel thresh min_dist before_occ summed_after_occ
                        norm_factor_during norm_factor_after cells row st)
    = spikes_loop rel thresh min_dist cells row (fs_all_spikes st).
Proof.
  induction cells as [|cell rest IH]; intros row st; [reflexivity|].
  cbn [find_spikes_loop spikes_loop].
  destruct (Peakutils.indexes rel cell thresh min_dist) as [peaks|e]; cbn [bind];
    [|reflexivity].
  destruct (setitem_row (fs_all_spikes st) row peaks 1) as [m'|e]; cbn [bind];
    [|reflexivity].
  now rewrite IH.
Qed.

(** X4: on a matrix with at least one cell and for epoch lengths that
    are not zero, the spike matrix of [_find_spikes] is the one the
    detector returns at threshold 0.8 and the same frame rate, and the
    two fail on the same inputs with the same exception. *)
Theorem find_spikes_agrees_with_detector {rel : Peakutils.release} (a : occ_attrs) (data : ndarray) (r c : nat) :
  shape data = [r; c] -> (0 < r)%nat ->
  frames_during_occ a <> 0%Z -> frames_after_occ a <> 0%Z ->
  locate_spikes_peakutils rel data (fps a) (8 # 10)
  = result_map (fun res => NdArray (shape data) (concat (fst res)))
               (_find_spikes rel a (rows_of data)).
Proof.
  intros Hs Hr Hd Ha. rewrite find_spikes_nonzero by (split; assumption).
  unfold locate_spikes_peakutils. rewrite Hs.
  apply Nat.ltb_lt in Hr. rewrite Hr. cbv zeta.
  pose proof (@find_spikes_loop_marks rel (8 # 10) (py_int (fps a)) (frames_before_occ a)
                (frames_before_occ a + frames_during_occ a)
                (inject_Z (frames_before_occ a) / inject_Z (frames_during_occ a))
                (inject_Z (frames_before_occ a) / inject_Z (frames_after_occ a))
                (rows_of data) 0
                (FindState (zeros_like (rows_of data)) [] [] [])) as Hm.
  cbn [fs_all_spikes] in Hm. rewrite <- Hm.
  destruct (find_spikes_loop rel _ _ _ _ _ _ _ _ _); reflexivity.
Qed.

Lemma find_spikes_agrees_with_detector_witness :
  locate_spikes_peakutils Peakutils.from_1_3_5 scenario_cell_matrix (fps scenario_attrs) (8 # 10)
  = result_map (fun res => NdArray (shape scenario_cell_matrix) (concat (fst res)))
               (_find_spikes Peakutils.from_1_3_5 scenario_attrs (rows_of scenario_cell_matrix)).
Proof.
  apply (@find_spikes_agrees_with_detector Peakutils.from_1_3_5 scenario_attrs scenario_cell_matrix 1 200).
  - reflexivity.
  - lia.
  - discriminate.
  - discriminate.
Defined.

Lemma filter_three_way {A : Type} (f g h : A -> bool) (l : list A) :
  (forall x, In x l ->
     (f x = true /\ g x = false /\ h x = false) \/
     (f x = false /\ g x = true /\ h x = false) \/
     (f x = false /\ g x = false /\ h x = true)) ->
  (length (filter f l) + length (filter g l) + length (filter h l) = length l)%nat.
Proof.
  induction l as [|x t IH]; intros H; [reflexivity|].
  specialize (IH (fun y Hy => H y (or_intror Hy))).
  simpl.
  destruct (H x (or_introl eq_refl)) as [(-> & -> & ->)|[(-> & -> & ->)|(-> & -> & ->)]];
    simpl; lia.
Qed.

(** X5: for an occlusion of positive length and a remainder that is not
    zero, whatever the number of frames before the occlusion and the sign
    of the remainder, the three columns of a cell are its number of
    spikes before the occlusion, the number during it times
    before/during and the number from its end on times before/after, and
    the three numbers add up to the number of spikes of the cell: every
    spike is counted in exactly one epoch. *)
Theorem epochs_partition_spikes {rel : Peakutils.release} (a : occ_attrs) (dff all_spikes : list (list Q))
    (counts : spike_counts) (k : nat) (row : list Q) :
  (0 < frames_during_occ a)%Z ->
  frames_after_occ a <> 0%Z ->
  _find_spikes rel a dff = Ok (all_spikes, counts) ->
  nth_error all_spikes k = Some row ->
  let b := frames_before_occ a in
  let d := frames_during_occ a in
  let n1 := spikes_between row 0 b in
  let n2 := spikes_between row b (b + d) in
  let n3 := spikes_between row (b + d) (Z.of_nat (length row)) in
  nth_error (before counts) k = Some n1 /\
  nth_error (during counts) k = Some (of_count n2 * (inject_Z b / inject_Z d)) /\
  nth_error (after counts) k
  = Some (of_count n3 * (inject_Z b / inject_Z (frames_after_occ a))) /\
  (n1 + n2 + n3 = count_spikes row)%nat.
Proof.
  intros Hd Ha H Hrow. rewrite find_spikes_nonzero in H by (split; [lia|assumption]).
  destruct (find_spikes_loop rel _ _ _ _ _ _ dff 0 _) as [st|e] eqn:E;
    cbn [bind] in H; [|discriminate].
  injection H as <- <-. cbn [before during after].
  apply find_spikes_loop_spec in E. cbn [fs_all_spikes idx_section1 idx_section2
                                          idx_section3 app] in E.
  destruct E as (Hl & pl & Hf & H1 & H2 & H3).
  apply spikes_loop_spec in Hl. destruct Hl as (Hlen & _ & Hin).
  assert (Hk : (k < length dff)%nat).
  { unfold zeros_like in Hlen. rewrite length_map in Hlen. rewrite <- Hlen.
    apply nth_error_Some. congruence. }
  destruct (nth_error dff k) as [cell|] eqn:Hc; [|apply nth_error_None in Hc; lia].
  destruct (Hin k cell Hc) as (_ & peaks & Hp & Hn). simpl in Hn.
  destruct (Forall2_nth_error_l Hf k Hc) as (ia & Hia & Hia').
  rewrite Hp in Hia'. injection Hia' as <-.
  rewrite nth_zeros_like, (nth_error_nth _ _ _ Hc) in Hn.
  rewrite (nth_error_nth _ _ [] Hrow) in Hn. subst row.
  pose proof (indexes_NoDup _ _ _ Hp) as Hnd. cbn [idx] in Hnd.
  destruct (indexes_cases _ _ _ Hp) as [Hfl|(_ & Hb & _)]; [discriminate|].
  cbn [idx] in Hb. cbv zeta.
  rewrite (count_spikes_marks Hnd Hb).
  rewrite length_set_many, repeat_length, !count_marks by assumption.
  rewrite H1, H2, H3, !nth_error_map, Hia. cbn [option_map].
  unfold count_idx. cbn [idx].
  assert (E1 : filter (fun i => (0 <=? Z.of_nat i)%Z
                                && (Z.of_nat i <? frames_before_occ a)%Z) peaks
               = filter (fun i => (Z.of_nat i <? frames_before_occ a)%Z) peaks).
  { apply filter_ext. intros i.
    destruct (Z.leb_spec 0 (Z.of_nat i)); [reflexivity|lia]. }
  assert (E3 : filter (fun i => (frames_before_occ a + frames_during_occ a
                                 <=? Z.of_nat i)%Z
                                && (Z.of_nat i <? Z.of_nat (length cell))%Z) peaks
               = filter (fun i => (frames_before_occ a + frames_during_occ a
                                   <=? Z.of_nat i)%Z) peaks).
  { apply filter_ext_in. intros i Hi. apply Hb in Hi.
    apply inj_lt, Z.ltb_lt in Hi. rewrite Hi. apply andb_true_r. }
  rewrite E1, E3. repeat split.
  apply filter_three_way.
  intros i _.
  destruct (Z.ltb_spec (Z.of_nat i) (frames_before_occ a));
    destruct (Z.leb_spec (frames_before_occ a) (Z.of_nat i));
    destruct (Z.ltb_spec (Z.of_nat i) (frames_before_occ a + frames_during_occ a));
    destruct (Z.leb_spec (frames_before_occ a + frames_during_occ a) (Z.of_nat i));
    simpl; try lia; auto.
Qed.

Lemma epochs_partition_spikes_witness :
  nth_error (before scenario_counts) 0 = Some (spikes_between scenario_cell 0 100) /\
  nth_error (during scenario_counts) 0
  = Some (of_count (spikes_between scenario_cell 100 (100 + 50))
          * (inject_Z 100 / inject_Z 50)) /\
  nth_error (after scenario_counts) 0
  = Some (of_count (spikes_between scenario_cell (100 + 50)
                                   (Z.of_nat (length scenario_cell)))
          * (inject_Z 100 / inject_Z 50)) /\
  (spikes_between scenario_cell 0 100
   + spikes_between scenario_cell 100 (100 + 50)
   + spikes_between scenario_cell (100 + 50) (Z.of_nat (length scenario_cell))
   = count_spikes scenario_cell)%nat.
Proof.
  apply (@epochs_partition_spikes Peakutils.from_1_3_5 scenario_attrs [scenario_cell] [scenario_cell]
           scenario_counts 0 scenario_cell).
  - simpl. lia.
  - discriminate.
  - vm_compute. reflexivity.
  - reflexivity.
Defined.

(** ** File discovery, file by file *)

Section DiscoveryExact.

Variable rglob : Path -> string -> list Path.
Variable self : FileFinder.

Lemma visit_file_exact (folder file : Path) (acc : found_files) :
  parallel acc ->
  parallel (visit_file rglob self folder file acc) /\
  table (visit_file rglob self folder file acc)
  = table acc ++ option_list (group_of rglob self folder file).
Proof.
  intros Hpar.
  assert (Hskip : parallel acc /\ table acc = table acc ++ [])
    by (split; [assumption|now rewrite app_nil_r]).
  unfold visit_file, group_of.
  destruct (is_NONE (analog_type self)); cbn [negb];
    [|destruct (next_rglob rglob folder (stem file ++ "*analog*.txt")) as [af|];
      cbn [option_map]; [|exact Hskip]];
    (destruct (next_rglob rglob folder (stem file ++ "*results.npz")) as [rf|];
     [|exact Hskip]);
    (destruct (with_colabeled self);
     [destruct (next_rglob rglob folder (stem file ++ "*_colabeled*.npy")) as [cf|];
      cbn [option_map]; [|exact Hskip]|]);
    (destruct (next_rglob rglob folder (stem file ++ "*.nc")) as [nc|];
     [exact Hskip|]);
    destruct Hpar as (Hr & Ha & Hc);
    (split;
     [unfold parallel; simpl; rewrite !length_app; simpl; lia
     |unfold table; simpl; apply make_table_app; assumption]).
Qed.

Lemma visit_folder_exact (entry : Path * string) (acc : found_files) :
  parallel acc ->
  parallel (visit_folder rglob self acc entry) /\
  table (visit_folder rglob self acc entry)
  = table acc
    ++ flat_map (fun file => option_list (group_of rglob self (fst entry) file))
                (rglob (fst entry) (snd entry)).
Proof.
  destruct entry as [folder globstr]. unfold visit_folder. cbn [fst snd].
  generalize (rglob folder globstr) as files. intros files. revert acc.
  induction files as [|file rest IH]; intros acc Hp; simpl.
  - split; [assumption|now rewrite app_nil_r].
  - destruct (@visit_file_exact folder file acc Hp) as (Hp' & Ht).
    destruct (IH _ Hp') as (Hp'' & Ht').
    split; [assumption|]. now rewrite Ht', Ht, <- app_assoc.
Qed.

(** Discovery is a pass over the folders and their files that keeps the
    group of each file that has one. *)
Lemma find_files_exact :
  find_files rglob self
  = flat_map (fun entry =>
                flat_map (fun file => option_list (group_of rglob self (fst entry) file))
                         (rglob (fst entry) (snd entry)))
             (folder_globs self).
Proof.
  unfold find_files. fold (table (_find_all_relevant_files rglob self)).
  unfold _find_all_relevant_files.
  assert (Hgen : forall entries acc, parallel acc ->
            table (fold_left (visit_folder rglob self) entries acc)
            = table acc
              ++ flat_map (fun entry =>
                   flat_map (fun file =>
                               option_list (group_of rglob self (fst entry) file))
                            (rglob (fst entry) (snd entry))) entries).
  { induction entries as [|entry rest IH]; intros acc Hp; simpl.
    - now rewrite app_nil_r.
    - destruct (@visit_folder_exact entry acc Hp) as (Hp' & Ht).
      now rewrite (IH _ Hp'), Ht, <- app_assoc. }
  rewrite Hgen by (repeat split). reflexivity.
Qed.

End DiscoveryExact.

Lemma group_of_tif (rglob : Path -> string -> list Path) (self : FileFinder)
    (folder file : Path) (g : RecordingGroup) :
  group_of rglob self folder file = Some g -> tif g = file.
Proof.
  unfold group_of.
  destruct (if negb _ then _ else _); [|discriminate].
  destruct (next_rglob rglob folder (stem file ++ "*results.npz")); [|discriminate].
  destruct (if with_colabeled self then _ else _); [|discriminate].
  destruct (next_rglob rglob folder (stem file ++ "*.nc")); [discriminate|].
  intros H. now injection H as <-.
Qed.

(** X6: the analog and colabeled files of a returned group follow the
    finder's settings: absent when not asked for, and otherwise the first
    match of their pattern in the folder where the TIF was found. *)
Theorem optional_files_follow_settings (rglob : Path -> string -> list Path)
    (self : FileFinder) (g : RecordingGroup) :
  In g (find_files rglob self) ->
  exists folder globstr,
    In (folder, globstr) (folder_globs self) /\
    In (tif g) (rglob folder globstr) /\
    (if is_NONE (analog_type self) then analog g = None
     else exists analog_file,
         analog g = Some analog_file /\
         hd_error (rglob folder (stem (tif g) ++ "*analog*.txt")%string)
         = Some analog_file) /\
    (if with_colabeled self
     then exists colabeled_file,
         colabeled g = Some colabeled_file /\
         hd_error (rglob folder (stem (tif g) ++ "*_colabeled*.npy")%string)
         = Some colabeled_file
     else colabeled g = None).
Proof.
  intros Hg.
  pose proof (find_all_table rglob self) as Hall.
  rewrite Forall_forall in Hall.
  destruct (Hall g Hg) as (folder & globstr & Hin & Htif & _ & _ & Han & Hco).
  exists folder, globstr. split; [assumption|]. split; [assumption|]. split.
  - destruct (is_NONE (analog_type self)); [assumption|].
    destruct Han as [Hne Heq]. destruct (analog g) as [af|]; [|contradiction].
    exists af. split; [reflexivity|]. symmetry. exact Heq.
  - destruct (with_colabeled self); [|assumption].
    destruct Hco as [Hne Heq]. destruct (colabeled g) as [cf|]; [|contradiction].
    exists cf. split; [reflexivity|]. symmetry. exact Heq.
Qed.

Lemma optional_files_follow_settings_witness :
  exists folder globstr,
    In (folder, globstr) (folder_globs example_finder) /\
    In (tif example_group) (example_rglob folder globstr) /\
    (if is_NONE (analog_type example_finder) then analog example_group = None
     else exists analog_file,
         analog example_group = Some analog_file /\
         hd_error (example_rglob folder (stem (tif example_group) ++ "*analog*.txt")%string)
         = Some analog_file) /\
    (if with_colabeled example_finder
     then exists colabeled_file,
         colabeled example_group = Some colabeled_file /\
         hd_error (example_rglob folder
                     (stem (tif example_group) ++ "*_colabeled*.npy")%string)
         = Some colabeled_file
     else colabeled example_group = None).
Proof.
  apply (@optional_files_follow_settings example_rglob example_finder example_group).
  vm_compute. left. reflexivity.
Defined.

(** X7: discovery misses no file: a file that matches the glob of a
    folder, has a results file and every counterpart that is asked for
    in that folder, and no .nc file there, is the TIF of a returned
    group, with the first results match as its results file. *)
Theorem eligible_files_are_returned (rglob : Path -> string -> list Path)
    (self : FileFinder) (folder file result_file : Path) (globstr : string) :
  In (folder, globstr) (folder_globs self) ->
  In file (rglob folder globstr) ->
  hd_error (rglob folder (stem file ++ "*results.npz")%string) = Some result_file ->
  (is_NONE (analog_type self) = false ->
   rglob folder (stem file ++ "*analog*.txt")%string <> []) ->
  (with_colabeled self = true ->
   rglob folder (stem file ++ "*_colabeled*.npy")%string <> []) ->
  rglob folder (stem file ++ "*.nc")%string = [] ->
  exists g, In g (find_files rglob self) /\ tif g = file /\ caiman g = result_file.
Proof.
  intros Hentry Hfile Hres Han Hco Hnc.
  assert (Hg : exists g, group_of rglob self folder file = Some g /\
                         tif g = file /\ caiman g = result_file).
  { unfold group_of, next_rglob. rewrite Hres, Hnc. cbn [hd_error].
    destruct (is_NONE (analog_type self)); cbn [negb].
    - destruct (with_colabeled self).
      + destruct (rglob folder (stem file ++ "*_colabeled*.npy")%string) as [|cf ?];
          [now specialize (Hco eq_refl)|].
        cbn. eexists. repeat split.
      + eexists. repeat split.
    - destruct (rglob folder (stem file ++ "*analog*.txt")%string) as [|af ?];
        [now specialize (Han eq_refl)|]. cbn.
      destruct (with_colabeled self).
      + destruct (rglob folder (stem file ++ "*_colabeled*.npy")%string) as [|cf ?];
          [now specialize (Hco eq_refl)|].
        cbn. eexists. repeat split.
      + eexists. repeat split. }
  destruct Hg as (g & Hg & Ht & Hc). exists g. split; [|now split].
  rewrite find_files_exact. apply in_flat_map. exists (folder, globstr).
  split; [assumption|]. apply in_flat_map. exists file. split; [assumption|].
  cbn [fst]. rewrite Hg. now left.
Qed.

Lemma eligible_files_are_returned_witness :
  exists g, In g (find_files example_rglob example_finder) /\
            tif g = MkPath "/data" "fov1.tif" /\
            caiman g = MkPath "/data" "fov1_results.npz".
Proof.
  apply (@eligible_files_are_returned example_rglob example_finder data_dir
           (MkPath "/data" "fov1.tif") (MkPath "/data" "fov1_results.npz") "*.tif").
  - left. reflexivity.
  - left. reflexivity.
  - reflexivity.
  - intros H. discriminate H.
  - intros H. discriminate H.
  - reflexivity.
Defined.

Lemma subseq_refl {A : Type} (l : list A) : subseq l l.
Proof. induction l; [constructor|now apply subseq_keep]. Qed.

Lemma subseq_app {A : Type} (a1 a2 b1 b2 : list A) :
  subseq a1 a2 -> subseq b1 b2 -> subseq (a1 ++ b1) (a2 ++ b2).
Proof.
  induction 1; intros Hb; simpl;
    [assumption|apply subseq_skip; auto|apply subseq_keep; auto].
Qed.

Lemma subseq_length {A : Type} (l1 l2 : list A) :
  subseq l1 l2 -> (length l1 <= length l2)%nat.
Proof. induction 1; simpl; lia. Qed.

(** X8: the groups come in discovery order: their TIFs are the globbed
    files, folder by folder in the order of [folder_globs] and file by
    file in traversal order, with the skipped files left out; so there
    are at most as many groups as globbed files. *)
Theorem groups_in_discovery_order (rglob : Path -> string -> list Path)
    (self : FileFinder) :
  let globbed := flat_map (fun entry => rglob (fst entry) (snd entry)) (folder_globs self) in
  subseq (map tif (find_files rglob self)) globbed /\
  (length (find_files rglob self) <= length globbed)%nat.
Proof.
  intros globbed.
  assert (Hsub : subseq (map tif (find_files rglob self)) globbed).
  { subst globbed. rewrite find_files_exact.
    induction (folder_globs self) as [|entry rest IH]; simpl; [constructor|].
    rewrite map_app. apply subseq_app; [|assumption].
    induction (rglob (fst entry) (snd entry)) as [|file files IHf]; simpl; [constructor|].
    rewrite map_app.
    destruct (group_of rglob self (fst entry) file) as [g|] eqn:Eg; simpl.
    - rewrite (group_of_tif _ _ _ _ Eg). now apply subseq_keep.
    - now apply subseq_skip. }
  split; [assumption|].
  apply subseq_length in Hsub. now rewrite length_map in Hsub.
Qed.

(** ** The metadata of a day *)

(** X9: [_get_metadata] returns the value that the first DataArray with
    the key carries, whatever later DataArrays carry, and the default
    only when no DataArray has the key. *)
Theorem get_metadata_first_match (key : string) (default : Q) (das : list DataArray) :
  (forall skipped da later v,
     das = skipped ++ da :: later ->
     (forall d, In d skipped -> attrs_get key (attrs d) = None) ->
     attrs_get key (attrs da) = Some v ->
     _get_metadata das key default = v) /\
  ((forall d, In d das -> attrs_get key (attrs d) = None) ->
   _get_metadata das key default = default).
Proof.
  split.
  - intros skipped da later v -> Hskip Hv.
    induction skipped as [|d t IH]; simpl.
    + now rewrite Hv.
    + rewrite (Hskip d (or_introl eq_refl)).
      apply IH. intros d' Hd'. apply Hskip. now right.
  - induction das as [|d t IH]; intros H; simpl; [reflexivity|].
    rewrite (H d (or_introl eq_refl)). apply IH. intros d' Hd'. apply H. now right.
Qed.

Lemma get_metadata_first_match_witness :
  _get_metadata [rec_no_fps; rec_fps_30; rec_fps_58] "fps" 15 = 30 /\
  _get_metadata [rec_no_fps] "fps" 15 = 15.
Proof.
  split.
  - apply (proj1 (get_metadata_first_match "fps" 15 [rec_no_fps; rec_fps_30; rec_fps_58])
             [rec_no_fps] rec_fps_30 [rec_fps_58] 30).
    + reflexivity.
    + intros d [<-|[]]. reflexivity.
    + reflexivity.
  - apply (proj2 (get_metadata_first_match "fps" 15 [rec_no_fps])).
    intros d [<-|[]]. reflexivity.
Defined.

(** ** Stacking the dF/F matrices of several files *)

Lemma chunks_app (r1 r2 c : nat) :
  forall l1 l2, length l1 = (r1 * c)%nat ->
  chunks (r1 + r2) c (l1 ++ l2) = chunks r1 c l1 ++ chunks r2 c l2.
Proof.
  induction r1 as [|r1 IH]; intros l1 l2 Hl; simpl in *.
  - destruct l1; [reflexivity|discriminate].
  - rewrite firstn_app, skipn_app.
    replace (c - length l1)%nat with 0%nat by lia. simpl.
    rewrite app_nil_r. f_equal.
    apply IH. rewrite length_skipn. lia.
Qed.

Lemma same_tail_matrix (c : nat) (a : ndarray) :
  is_matrix c a -> same_tail [c] a = true.
Proof.
  intros (_ & r & Hs). unfold same_tail. rewrite Hs.
  now destruct (list_eq_dec Nat.eq_dec [c] [c]).
Qed.

Lemma stacked_rows (c : nat) (arrays : list ndarray) :
  Forall (is_matrix c) arrays ->
  length (concat (map items arrays))
  = (list_sum (map (fun b => hd 0%nat (shape b)) arrays) * c)%nat /\
  chunks (list_sum (map (fun b => hd 0%nat (shape b)) arrays)) c
         (concat (map items arrays))
  = concat (map rows_of arrays).
Proof.
  induction 1 as [|a rest Ha _ (IHl & IHc)]; simpl; [split; reflexivity|].
  destruct Ha as (Hw & r & Hs).
  assert (Hl : length (items a) = (r * c)%nat).
  { unfold well_shaped in Hw. rewrite Hs in Hw. simpl in Hw. lia. }
  rewrite Hs. simpl. split.
  - rewrite length_app, IHl, Hl. lia.
  - rewrite chunks_app by assumption. rewrite IHc.
    unfold rows_of at 2. now rewrite Hs.
Qed.

(** Matrices with the same number of columns are stacked row by row. *)
Lemma np_concatenate_matrices (c : nat) (arrays : list ndarray) :
  arrays <> [] -> Forall (is_matrix c) arrays ->
  exists out,
    np_concatenate arrays = Ok out /\ is_matrix c out /\
    shape out = [list_sum (map (fun b => hd 0%nat (shape b)) arrays); c] /\
    rows_of out = concat (map rows_of arrays).
Proof.
  intros Hne Hall. destruct arrays as [|a rest]; [congruence|].
  pose proof (stacked_rows Hall) as (Hl & Hc).
  inversion Hall as [|? ? Ha Hrest]; subst.
  destruct Ha as (Hw & r & Hs).
  unfold np_concatenate. rewrite Hs.
  assert (Hf : forallb (same_tail [c]) rest = true).
  { apply forallb_forall. intros b Hb. apply same_tail_matrix.
    rewrite Forall_forall in Hrest. now apply Hrest. }
  rewrite Hf. eexists. split; [reflexivity|].
  split; [|split].
  - split.
    + unfold well_shaped. cbn [items shape fold_right]. rewrite Hl. lia.
    + eexists. reflexivity.
  - reflexivity.
  - unfold rows_of at 1. cbn [shape items]. exact Hc.
Qed.


Lemma for_each_inv {A B : Type} (f : A -> outcome B) (l : list A) (ys : list B) :
  for_each f l = Returns ys -> Forall2 (fun x y => f x = Returns y) l ys.
Proof.
  revert ys. induction l as [|x l IH]; simpl; intros ys H.
  - injection H as <-. constructor.
  - destruct (f x) as [y|e] eqn:Ex; simpl in H; [|discriminate].
    destruct (for_each f l) as [ys'|e] eqn:El; simpl in H; [|discriminate].
    injection H as <-. constructor; [assumption|]. now apply IH.
Qed.



Section CalcDffFacts.

Variable np_load : Path -> outcome npz.
Variable detrend_df_f_auto :
  ndarray -> ndarray -> ndarray -> ndarray -> ndarray -> option ndarray.





End CalcDffFacts.



(** A file that cannot be loaded: the exception of [np.load] goes out of
    the batch reader as it is. *)
Example dff_batch_missing_file :
  calc_dff_batch example_load (fun _ _ _ _ _ => None) [results_a; results_missing]
  = Raises FileNotFoundError.
Proof. reflexivity. Qed.

(** ** The colabeled indices of several files *)

Lemma fold_max_le (t : list Z) (n : Z) :
  forall a, (fold_left Z.max t a <= n)%Z <-> (a <= n)%Z /\ forall i, In i t -> (i <= n)%Z.
Proof.
  induction t as [|b t IH]; intros a; simpl.
  - split; [intros H; split; [assumption|contradiction]|tauto].
  - rewrite IH. split.
    + intros (Hm & Ht). split; [lia|]. intros i [<-|Hi]; [lia|now apply Ht].
    + intros (Ha & Ht). split; [|intros i Hi; apply Ht; now right].
      specialize (Ht b (or_introl eq_refl)). lia.
Qed.

Lemma np_max_Z_le (l : list Z) (m n : Z) :
  np_max_Z l = Ok m -> ((m <= n)%Z <-> forall i, In i l -> (i <= n)%Z).
Proof.
  destruct l as [|a t]; simpl; [discriminate|]. intros H. injection H as <-.
  rewrite fold_max_le. split.
  - intros (Ha & Ht) i [<-|Hi]; [assumption|now apply Ht].
  - intros H. split; [apply H; now left|intros i Hi; apply H; now right].
Qed.

Lemma row_accepted_cells (row : data_row) (a : ndarray) (n : nat) (tail : list nat) :
  npz_get "F_dff" (row_caiman row) = Returns a -> shape a = n :: tail ->
  row_cells row = n.
Proof. intros Ha Hs. unfold row_cells. now rewrite Ha, Hs. Qed.

Lemma load_colabeled_loop_returns (rows : list data_row) :
  forall num acc out,
    load_colabeled_loop rows num acc = Returns out ->
    Forall row_accepted rows /\ out = acc ++ shifted_from rows num.
Proof.
  induction rows as [|row rest IH]; intros num acc out H; simpl in H.
  - injection H as <-. split; [constructor|]. simpl. now rewrite app_nil_r.
  - destruct (npz_get "F_dff" (row_caiman row)) as [a|e] eqn:Ea; simpl in H;
      [|discriminate].
    destruct (np_max_Z (row_colabeled row)) as [m|e] eqn:Em; simpl in H;
      [|discriminate].
    unfold shape0 in H. destruct (shape a) as [|n tail] eqn:Es; simpl in H;
      [discriminate|].
    destruct (Z.leb_spec m (Z.of_nat n)) as [Hle|Hgt]; [|discriminate].
    apply IH in H. destruct H as (Hrest & ->).
    split.
    + constructor; [|assumption].
      exists a, n, tail. repeat split; try assumption.
      * intros E. rewrite E in Em. discriminate.
      * now apply (proj1 (@np_max_Z_le _ _ (Z.of_nat n) Em)).
    + simpl. rewrite (@row_accepted_cells _ _ _ _ Ea Es), <- app_assoc. reflexivity.
Qed.

Lemma load_colabeled_loop_accepts (rows : list data_row) :
  Forall row_accepted rows ->
  forall num acc, load_colabeled_loop rows num acc = Returns (acc ++ shifted_from rows num).
Proof.
  induction 1 as [|row rest Hrow _ IH]; intros num acc; simpl.
  - now rewrite app_nil_r.
  - destruct Hrow as (a & n & tail & Ha & Hs & Hne & Hle).
    rewrite Ha. simpl.
    destruct (np_max_Z (row_colabeled row)) as [m|e] eqn:Em.
    + simpl. unfold shape0. rewrite Hs. simpl.
      apply (@np_max_Z_le _ _ (Z.of_nat n) Em) in Hle.
      destruct (Z.leb_spec m (Z.of_nat n)); [|lia].
      rewrite IH, (@row_accepted_cells _ _ _ _ Ha Hs), <- app_assoc. reflexivity.
    + destruct (row_colabeled row); [congruence|discriminate].
Qed.

Lemma rows_before_S (row : data_row) (rest : list data_row) (k : nat) :
  rows_before (row :: rest) (S k) = (row_cells row + rows_before rest k)%nat.
Proof. reflexivity. Qed.

Lemma rows_before_succ (rows : list data_row) :
  forall k row, nth_error rows k = Some row ->
  rows_before rows (S k) = (rows_before rows k + row_cells row)%nat.
Proof.
  induction rows as [|r rest IH]; intros k row Hk; [destruct k; discriminate|].
  destruct k as [|k].
  - injection Hk as ->. unfold rows_before. simpl. lia.
  - rewrite !rows_before_S. rewrite (IH k row Hk). lia.
Qed.

Lemma shifted_from_seq (rows : list data_row) :
  forall num,
    shifted_from rows num
    = map (fun k =>
             map (fun i => (i + Z.of_nat (num + rows_before rows k))%Z)
                 (row_colabeled (nth k rows no_row)))
          (seq 0 (length rows)).
Proof.
  induction rows as [|row rest IH]; intros num; [reflexivity|].
  cbn [shifted_from length seq map nth]. f_equal.
  - unfold rows_before. simpl. now rewrite Nat.add_0_r.
  - rewrite IH, <- seq_shift, map_map. apply map_ext. intros k.
    rewrite rows_before_S. cbn [nth]. apply map_ext. intros i. lia.
Qed.

Lemma load_colabeled_idx_returns (rows : list data_row) (out : list Z) :
  _load_colabeled_idx rows = Returns out ->
  Forall row_accepted rows /\
  out = flat_map (fun k =>
                    map (fun i => (i + Z.of_nat (rows_before rows k))%Z)
                        (row_colabeled (nth k rows no_row)))
                 (seq 0 (length rows)).
Proof.
  unfold _load_colabeled_idx. intros H.
  destruct (load_colabeled_loop rows 0 []) as [l|e] eqn:El; [|discriminate].
  apply load_colabeled_loop_returns in El. destruct El as (Hacc & ->).
  simpl in H. injection H as <-. split; [assumption|].
  rewrite shifted_from_seq, flat_map_concat_map. reflexivity.
Qed.

(** X12: the loader of the colabeled indices returns exactly when every
    file has an F_dff array with a first axis and an index array that is
    not empty and whose entries do not exceed the number of cells; it
    then returns the indices in file order, those of a file shifted by
    the number of cells of the files before it. *)
Theorem colabeled_loader_accepts (rows : list data_row) :
  ((exists out, _load_colabeled_idx rows = Returns out) <-> Forall row_accepted rows) /\
  forall out, _load_colabeled_idx rows = Returns out ->
    out = flat_map (fun k =>
                      map (fun i => (i + Z.of_nat (rows_before rows k))%Z)
                          (row_colabeled (nth k rows no_row)))
                   (seq 0 (length rows)).
Proof.
  split; [split|].
  - intros (out & H). now apply load_colabeled_idx_returns in H.
  - intros H. unfold _load_colabeled_idx.
    rewrite (load_colabeled_loop_accepts H). simpl. eexists. reflexivity.
  - intros out H. now apply load_colabeled_idx_returns in H.
Qed.

Lemma colabeled_loader_accepts_witness :
  Forall row_accepted [fov_a; fov_b] /\
  [1; 2; 2]%Z
  = flat_map (fun k =>
                map (fun i => (i + Z.of_nat (rows_before [fov_a; fov_b] k))%Z)
                    (row_colabeled (nth k [fov_a; fov_b] no_row)))
             (seq 0 (length [fov_a; fov_b])).
Proof.
  split.
  - apply (proj1 (proj1 (colabeled_loader_accepts [fov_a; fov_b]))).
    eexists. reflexivity.
  - apply (proj2 (colabeled_loader_accepts [fov_a; fov_b])). reflexivity.
Defined.

Lemma map_firstn_Forall2 {A B C : Type} (P : A -> B -> Prop) (f : A -> C) (g : B -> C)
    (l : list A) (m : list B) :
  Forall2 P l m -> (forall x y, P x y -> f x = g y) ->
  forall k, map f (firstn k l) = map g (firstn k m).
Proof.
  intros H Hfg. induction H as [|x y l m Hxy _ IH]; intros k.
  - now rewrite !firstn_nil.
  - destruct k; simpl; [reflexivity|]. now rewrite (Hfg _ _ Hxy), IH.
Qed.

Lemma Forall2_nth_error_left {A B : Type} (P : A -> B -> Prop) (l : list A) (m : list B) :
  Forall2 P l m -> forall k x, nth_error l k = Some x ->
  exists y, nth_error m k = Some y /\ P x y.
Proof.
  induction 1 as [|x0 y0 l m Hxy _ IH]; intros k x Hk; [destruct k; discriminate|].
  destruct k; simpl in *.
  - injection Hk as <-. now exists y0.
  - now apply IH.
Qed.

Lemma matrix_rows (c : nat) (a : ndarray) :
  is_matrix c a -> length (rows_of a) = hd 0%nat (shape a).
Proof.
  intros (_ & r & Hs). unfold rows_of. rewrite Hs. simpl. apply length_chunks.
Qed.

(** Row [j] of the F_dff of the file at position [k] is row
    [rows_before rows k + j] of what [_load_dff] returns. *)
Lemma load_dff_block (rows : list data_row) (c : nat) (dff : ndarray) :
  (forall row, In row rows ->
     exists a, npz_get "F_dff" (row_caiman row) = Returns a /\ is_matrix c a) ->
  _load_dff rows = Returns dff ->
  forall k row a j,
    nth_error rows k = Some row ->
    npz_get "F_dff" (row_caiman row) = Returns a ->
    (j < length (rows_of a))%nat ->
    nth_error (rows_of dff) (rows_before rows k + j) = nth_error (rows_of a) j.
Proof.
  intros Hall Hd k row a j Hk Ha Hj. unfold _load_dff in Hd.
  destruct (for_each _ rows) as [mats|e] eqn:Ef; simpl in Hd; [|discriminate].
  apply for_each_inv in Ef.
  destruct (np_concatenate mats) as [out|e] eqn:Ec; simpl in Hd; [|discriminate].
  injection Hd as ->.
  assert (E2 : Forall2 (fun row a => npz_get "F_dff" (row_caiman row) = Returns a /\
                                     is_matrix c a) rows mats).
  { clear -Ef Hall. induction Ef as [|row a rows mats Hra _ IH]; constructor.
    - split; [assumption|].
      destruct (Hall row (or_introl eq_refl)) as (a' & Ha' & Hm). congruence.
    - apply IH. intros r Hr. apply Hall. now right. }
  assert (Hm : Forall (is_matrix c) mats).
  { clear -E2. induction E2 as [|row a rows mats (_ & Hra) _ IH]; now constructor. }
  assert (Hne : mats <> []).
  { intros ->. discriminate. }
  destruct (np_concatenate_matrices Hne Hm) as (out' & Ho & _ & _ & Hr).
  rewrite Ho in Ec. injection Ec as ->. rewrite Hr.
  assert (Hb : rows_before rows k
               = list_sum (map (@length (list Q)) (firstn k (map rows_of mats)))).
  { unfold rows_before. rewrite firstn_map, map_map. f_equal.
    refine (map_firstn_Forall2 row_cells (fun a => length (rows_of a)) E2 _ k).
    intros x y (Hxy & Hy). unfold row_cells. rewrite Hxy.
    symmetry. exact (matrix_rows Hy). }
  rewrite Hb. apply nth_error_concat_block; [|assumption].
  destruct (Forall2_nth_error_left E2 _ Hk) as (a' & Hk' & Ha' & _).
  rewrite nth_error_map, Hk'. simpl. congruence.
Qed.

(** X13: the colabeled indices and the dF/F matrix of the colabeling
    branch agree: an index [i] of the file at position [k] that names one
    of its cells is returned as [i] plus the number of cells of the files
    before, and that row of the stacked matrix is row [i] of the file's
    own F_dff. *)
Theorem colabeled_indices_follow_stacking (rows : list data_row) (c : nat)
    (dff : ndarray) (out : list Z) (k : nat) (row : data_row) (a : ndarray) (i : Z) :
  (forall row, In row rows ->
     exists a, npz_get "F_dff" (row_caiman row) = Returns a /\ is_matrix c a) ->
  _load_dff rows = Returns dff ->
  _load_colabeled_idx rows = Returns out ->
  nth_error rows k = Some row ->
  npz_get "F_dff" (row_caiman row) = Returns a ->
  In i (row_colabeled row) ->
  (0 <= i < Z.of_nat (length (rows_of a)))%Z ->
  let j := (i + Z.of_nat (rows_before rows k))%Z in
  In j out /\
  nth_error (rows_of dff) (Z.to_nat j) = nth_error (rows_of a) (Z.to_nat i).
Proof.
  intros Hall Hd Hc Hk Ha Hi Hr j. split.
  - rewrite (proj2 (load_colabeled_idx_returns _ Hc)).
    apply in_flat_map. exists k. split.
    + apply in_seq. assert (k < length rows)%nat by (apply nth_error_Some; congruence). lia.
    + rewrite (nth_error_nth _ _ _ Hk). apply in_map_iff. now exists i.
  - subst j.
    replace (Z.to_nat (i + Z.of_nat (rows_before rows k)))
      with (rows_before rows k + Z.to_nat i)%nat by lia.
    apply (@load_dff_block rows c dff Hall Hd k row a _ Hk Ha). lia.
Qed.

Lemma colabeled_indices_follow_stacking_witness :
  In (1 + Z.of_nat (rows_before [fov_b; fov_a] 1))%Z [0; 4; 5]%Z /\
  nth_error (rows_of (NdArray [5%nat; 2%nat] [30; 31; 40; 41; 50; 51; 10; 11; 20; 21]))
            (Z.to_nat (1 + Z.of_nat (rows_before [fov_b; fov_a] 1)))
  = nth_error (rows_of (NdArray [2%nat; 2%nat] [10; 11; 20; 21])) (Z.to_nat 1).
Proof.
  apply (@colabeled_indices_follow_stacking [fov_b; fov_a] 2
           (NdArray [5%nat; 2%nat] [30; 31; 40; 41; 50; 51; 10; 11; 20; 21])
           [0; 4; 5]%Z 1 fov_a (NdArray [2%nat; 2%nat] [10; 11; 20; 21]) 1%Z).
  - intros row [<-|[<-|[]]]; eexists; (split; [reflexivity|]);
      (split; [reflexivity|eexists; reflexivity]).
  - reflexivity.
  - reflexivity.
  - reflexivity.
  - reflexivity.
  - left. reflexivity.
  - simpl. lia.
Defined.

(** X14: the assertion of the loader lets through an index equal to the
    number of cells of its file; in the stacked dF/F matrix that index
    denotes the first cell of the next file. *)
Theorem colabeled_index_past_last_cell (rows : list data_row) (c : nat)
    (dff : ndarray) (out : list Z) (k : nat) (row next : data_row) (a b : ndarray) :
  (forall row, In row rows ->
     exists a, npz_get "F_dff" (row_caiman row) = Returns a /\ is_matrix c a) ->
  _load_dff rows = Returns dff ->
  _load_colabeled_idx rows = Returns out ->
  nth_error rows k = Some row ->
  nth_error rows (S k) = Some next ->
  npz_get "F_dff" (row_caiman row) = Returns a ->
  npz_get "F_dff" (row_caiman next) = Returns b ->
  (0 < length (rows_of b))%nat ->
  In (Z.of_nat (length (rows_of a))) (row_colabeled row) ->
  In (Z.of_nat (rows_before rows (S k))) out /\
  nth_error (rows_of dff) (rows_before rows (S k)) = nth_error (rows_of b) 0.
Proof.
  intros Hall Hd Hc Hk Hk1 Ha Hb Hpos Hin.
  assert (Hs : rows_before rows (S k) = (rows_before rows k + length (rows_of a))%nat).
  { destruct (Hall row (nth_error_In _ _ Hk)) as (a' & Ha' & Hm).
    assert (a' = a) by congruence. subst a'.
    rewrite (matrix_rows Hm).
    replace (hd 0%nat (shape a)) with (row_cells row)
      by (unfold row_cells; now rewrite Ha).
    now apply rows_before_succ. }
  split.
  - rewrite (proj2 (load_colabeled_idx_returns _ Hc)).
    apply in_flat_map. exists k. split.
    + apply in_seq. assert (k < length rows)%nat by (apply nth_error_Some; congruence). lia.
    + rewrite (nth_error_nth _ _ _ Hk). apply in_map_iff.
      exists (Z.of_nat (length (rows_of a))). split; [lia|assumption].
  - rewrite <- (Nat.add_0_r (rows_before rows (S k))).
    apply (@load_dff_block rows c dff Hall Hd (S k) next b _ Hk1 Hb). assumption.
Qed.

Lemma colabeled_index_past_last_cell_witness :
  In (Z.of_nat (rows_before [fov_a; fov_b] 1)) [1; 2; 2]%Z /\
  nth_error (rows_of (NdArray [5%nat; 2%nat] [10; 11; 20; 21; 30; 31; 40; 41; 50; 51]))
            (rows_before [fov_a; fov_b] 1)
  = nth_error (rows_of (NdArray [3%nat; 2%nat] [30; 31; 40; 41; 50; 51])) 0.
Proof.
  apply (@colabeled_index_past_last_cell [fov_a; fov_b] 2
           (NdArray [5%nat; 2%nat] [10; 11; 20; 21; 30; 31; 40; 41; 50; 51])
           [1; 2; 2]%Z 0 fov_a fov_b
           (NdArray [2%nat; 2%nat] [10; 11; 20; 21])
           (NdArray [3%nat; 2%nat] [30; 31; 40; 41; 50; 51])).
  - intros row [<-|[<-|[]]]; eexists; (split; [reflexivity|]);
      (split; [reflexivity|eexists; reflexivity]).
  - reflexivity.
  - reflexivity.
  - reflexivity.
  - reflexivity.
  - reflexivity.
  - reflexivity.
  - simpl. lia.
  - right. left. reflexivity.
Defined.

(** ** Concatenating records of the same size *)

Lemma reindexed_list_same_time (ce : list string) (das : list DataArray) :
  forall num ct,
    (forall da, In da das -> length (time da) = length ct) ->
    Forall (fun da' => time da' = ct) (reindexed_list ce das num ct).
Proof.
  induction das as [|d rest IH]; intros num ct H; simpl; [constructor|].
  rewrite (proj2 (Nat.eqb_eq _ _) (H d (or_introl eq_refl))). simpl.
  constructor; [reflexivity|]. apply IH. intros da Hda. apply H. now right.
Qed.

Lemma outer_join_same (ct : list Q) (news : list DataArray) :
  news <> [] -> Forall (fun da' => time da' = ct) news ->
  Xr.outer_join (map time news) = ct.
Proof.
  intros Hne H. destruct news as [|x xs]; [congruence|].
  inversion H as [|? ? Hx Hxs]; subst. simpl.
  replace (forallb (Xr.index_eqb (time x)) (map time xs)) with true; [reflexivity|].
  symmetry. apply forallb_forall. intros t Ht.
  apply in_map_iff in Ht. destruct Ht as (d & <- & Hd).
  rewrite Forall_forall in Hxs. rewrite (Hxs d Hd). apply index_eqb_refl.
Qed.

Lemma needs_reindex_same (ct : list Q) (news : list DataArray) :
  Forall (fun da' => time da' = ct) news ->
  Xr.needs_reindex (map time news) = false.
Proof.
  intros H. destruct news as [|x xs]; [reflexivity|].
  inversion H as [|? ? Hx Hxs]; subst. simpl. apply negb_false_iff.
  apply forallb_forall. intros t Ht.
  apply in_map_iff in Ht. destruct Ht as (d & <- & Hd).
  rewrite Forall_forall in Hxs. rewrite (Hxs d Hd). apply index_eqb_refl.
Qed.

Lemma reindex_row_same (ct : list Q) (row : list float) :
  Xr.reindex_row ct ct row = row.
Proof. unfold Xr.reindex_row. now rewrite index_eqb_refl. Qed.

(** Records of the same size are stacked cell by cell under the
    coordinates of the first. *)
Lemma concat_same_frame (da0 : DataArray) (rest : list DataArray) :
  (forall da, In da (da0 :: rest) -> same_frame da0 da) ->
  concat_vasc_occ_dataarrays (da0 :: rest) = Ok (stack_cells da0 rest).
Proof.
  intros H.
  rewrite concat_vasc_occ_equal_epochs by (intros da Hda; apply (H da Hda)).
  pose proof (@reindexed_list_same_time (epoch da0) (da0 :: rest) 0 (time da0)
                (fun da Hda => proj2 (H da Hda))) as Ht.
  rewrite concat_neuron_reindexed by (now rewrite (needs_reindex_same Ht)).
  cbv zeta.
  pose proof (reindexed_list_neurons (epoch da0) (da0 :: rest) 0 (time da0)) as Hn.
  pose proof (map_data_reindexed_list (epoch da0) (da0 :: rest) 0 (time da0)) as Hd.
  assert (Hne : reindexed_list (epoch da0) (da0 :: rest) 0 (time da0) <> [])
    by discriminate.
  set (news := reindexed_list (epoch da0) (da0 :: rest) 0 (time da0)) in *.
  clearbody news.
  rewrite (outer_join_same Hne Ht), Hn. unfold stack_cells. do 2 f_equal.
  apply map_ext. intros e. f_equal.
  transitivity (map (fun d => nth e d []) (map data news)).
  - rewrite map_map. apply map_ext_in. intros da Hda.
    rewrite Forall_forall in Ht. rewrite (Ht da Hda).
    erewrite map_ext; [apply map_id|]. intros row. apply reindex_row_same.
  - rewrite Hd, map_map. reflexivity.
Qed.

(** X15: concatenating a single well-formed record returns it with its
    cells renumbered from 0 and nothing else changed, and concatenating
    the result once more changes nothing. *)
Theorem single_record_is_renumbered (da : DataArray) :
  well_formed da ->
  let ds := MkDataArray (epoch da) (seq 0 (ncells da)) (time da) (data da) (attrs da) in
  concat_vasc_occ_dataarrays [da] = Ok ds /\
  concat_vasc_occ_dataarrays [ds] = Ok ds.
Proof.
  intros (Hl & _) ds.
  assert (Hone : forall d, length (data d) = length (epoch d) ->
            concat_vasc_occ_dataarrays [d]
            = Ok (MkDataArray (epoch d) (seq 0 (ncells d)) (time d) (data d) (attrs d))).
  { intros d Hd. rewrite concat_same_frame
      by (intros x [<-|[]]; split; reflexivity).
    unfold stack_cells.
    replace (list_sum (map ncells [d])) with (ncells d) by (simpl; lia).
    do 2 f_equal.
    rewrite <- Hd. apply nth_ext with (d := []) (d' := []).
    - now rewrite length_map, length_seq.
    - intros e He. rewrite length_map, length_seq in He.
      rewrite nth_map_seq by assumption. cbn [concat]. apply app_nil_r. }
  split; [now apply Hone|].
  rewrite (Hone ds Hl). unfold ds, ncells. cbn [epoch time data attrs neuron].
  now rewrite length_seq.
Qed.

Lemma single_record_is_renumbered_witness :
  concat_vasc_occ_dataarrays [rec_5cells]
  = Ok (MkDataArray (epoch rec_5cells) (seq 0 (ncells rec_5cells)) (time rec_5cells)
                    (data rec_5cells) (attrs rec_5cells)) /\
  concat_vasc_occ_dataarrays
    [MkDataArray (epoch rec_5cells) (seq 0 (ncells rec_5cells)) (time rec_5cells)
                 (data rec_5cells) (attrs rec_5cells)]
  = Ok (MkDataArray (epoch rec_5cells) (seq 0 (ncells rec_5cells)) (time rec_5cells)
                    (data rec_5cells) (attrs rec_5cells)).
Proof.
  apply (@single_record_is_renumbered rec_5cells).
  split; [reflexivity|].
  intros plane [<-|[]]. split; [reflexivity|].
  intros row Hrow. simpl in Hrow.
  repeat (destruct Hrow as [<-|Hrow]; [reflexivity|]). contradiction.
Defined.

(** X16: for records of the same size, concatenating in two steps gives
    what one concatenation of all the records gives: the merged
    recording of some files, concatenated with further files, is the
    concatenation of all the files. *)
Theorem concat_in_two_steps (da0 : DataArray) (first second : list DataArray)
    (merged : DataArray) :
  (forall da, In da (da0 :: first ++ second) -> same_frame da0 da) ->
  concat_vasc_occ_dataarrays (da0 :: first) = Ok merged ->
  concat_vasc_occ_dataarrays (merged :: second)
  = concat_vasc_occ_dataarrays (da0 :: first ++ second).
Proof.
  intros H Hm.
  rewrite concat_same_frame in Hm
    by (intros da Hda; apply H; destruct Hda as [->|Hda];
        [now left|right; apply in_or_app; now left]).
  injection Hm as <-.
  rewrite (@concat_same_frame da0 (first ++ second)) by assumption.
  rewrite concat_same_frame.
  - assert (Hn : list_sum (map ncells (stack_cells da0 first :: second))
                 = list_sum (map ncells (da0 :: first ++ second))).
    { change (list_sum (map ncells (stack_cells da0 first :: second)))
        with (ncells (stack_cells da0 first) + list_sum (map ncells second))%nat.
      change (list_sum (map ncells (da0 :: first ++ second)))
        with (ncells da0 + list_sum (map ncells (first ++ second)))%nat.
      rewrite map_app, list_sum_app.
      unfold ncells at 1. unfold stack_cells. cbn [neuron]. rewrite length_seq.
      change (list_sum (map ncells (da0 :: first)))
        with (ncells da0 + list_sum (map ncells first))%nat.
      lia. }
    assert (Hd : map (fun e => concat (map (fun da => nth e (data da) [])
                                           (stack_cells da0 first :: second)))
                     (seq 0 (length (epoch da0)))
                 = map (fun e => concat (map (fun da => nth e (data da) [])
                                             (da0 :: first ++ second)))
                       (seq 0 (length (epoch da0)))).
    { apply map_ext_in. intros e He. apply in_seq in He.
      cbn [map concat]. unfold stack_cells. cbn [data].
      rewrite nth_map_seq by lia.
      cbn [map concat]. rewrite map_app, concat_app, app_assoc. reflexivity. }
    change (stack_cells (stack_cells da0 first) second)
      with (MkDataArray
              (epoch da0)
              (seq 0 (list_sum (map ncells (stack_cells da0 first :: second))))
              (time da0)
              (map (fun e => concat (map (fun da => nth e (data da) [])
                                         (stack_cells da0 first :: second)))
                   (seq 0 (length (epoch da0))))
              (attrs da0)).
    rewrite Hn, Hd. reflexivity.
  - intros da [<-|Hda]; [split; reflexivity|].
    apply H. right. apply in_or_app. now right.
Qed.

Lemma concat_in_two_steps_witness :
  concat_vasc_occ_dataarrays [merged_8cells; rec_3cells]
  = concat_vasc_occ_dataarrays [rec_3cells; rec_5cells; rec_3cells].
Proof.
  apply (@concat_in_two_steps rec_3cells [rec_5cells] [rec_3cells] merged_8cells).
  - intros da [<-|[<-|[<-|[]]]]; split; reflexivity.
  - vm_compute. reflexivity.
Defined.

(** ** Mean dF/F and area under the curve *)

Lemma half (x : Q) : x / 2 == x * (1 # 2).
Proof. reflexivity. Qed.

Lemma fold_Qminb_spec (t : list Q) :
  forall a, In (fold_left Qminb t a) (a :: t) /\
            forall x, In x (a :: t) -> fold_left Qminb t a <= x.
Proof.
  induction t as [|b t IH]; intros a; simpl.
  - split; [now left|]. intros x [<-|[]]. apply Qle_refl.
  - destruct (IH (Qminb a b)) as (Hin & Hle). split.
    + destruct Hin as [Hm|Hin]; [|right; now right].
      rewrite <- Hm. unfold Qminb. destruct (Qle_bool a b); [now left|right; now left].
    + assert (Ha : Qminb a b <= a /\ Qminb a b <= b).
      { unfold Qminb. destruct (Qle_bool a b) eqn:E.
        - split; [apply Qle_refl|now apply Qle_bool_iff].
        - split; [|apply Qle_refl].
          apply Qlt_le_weak, Qnot_le_lt. intros H. apply Qle_bool_iff in H. congruence. }
      intros x [<-|[<-|Hx]].
      * eapply Qle_trans; [apply Hle; now left|apply Ha].
      * eapply Qle_trans; [apply Hle; now left|apply Ha].
      * apply Hle. now right.
Qed.

Lemma np_min_spec (y : list Q) (m : Q) :
  np_min y = Ok m -> In m y /\ forall x, In x y -> m <= x.
Proof.
  destruct y as [|a t]; simpl; [discriminate|]. intros H. injection H as <-.
  apply fold_Qminb_spec.
Qed.

Lemma np_min_ok (y : list Q) : y <> [] -> exists m, np_min y = Ok m.
Proof. destruct y; [congruence|]. intros _. eexists. reflexivity. Qed.

(** All samples of a flat signal are equal. *)
Lemma flat_all_equal (y : list Q) :
  flat y -> forall i j, (i < length y)%nat -> (j < length y)%nat -> nth i y 0 == nth j y 0.
Proof.
  intros Hf.
  assert (H0 : forall i, (i < length y)%nat -> nth i y 0 == nth 0 y 0).
  { induction i as [|i IH]; intros Hi; [reflexivity|].
    rewrite <- (Hf i Hi). apply IH. lia. }
  intros i j Hi Hj. rewrite (H0 i Hi), (H0 j Hj). reflexivity.
Qed.

Lemma flat_In_equal (y : list Q) (a b : Q) : flat y -> In a y -> In b y -> a == b.
Proof.
  intros Hf Ha Hb.
  apply (In_nth _ _ 0) in Ha. destruct Ha as (i & Hi & <-).
  apply (In_nth _ _ 0) in Hb. destruct Hb as (j & Hj & <-).
  now apply flat_all_equal.
Qed.

Lemma collect_map {A B : Type} (f : A -> result B) (g : A -> B) (l : list A) :
  (forall x, In x l -> f x = Ok (g x)) -> collect f l = Ok (map g l).
Proof.
  induction l as [|x t IH]; intros H; simpl; [reflexivity|].
  rewrite (H x (or_introl eq_refl)). cbn [bind].
  rewrite IH by (intros y Hy; apply H; now right). reflexivity.
Qed.


Lemma pos_columns (ncols : nat) : (0 < ncols)%nat -> 0 < inject_Z (Z.of_nat ncols).
Proof. intros H. unfold Qlt. simpl. lia. Qed.




Section FloatFacts.

Variables fadd fsub fmul fdiv : Q -> Q -> Q.
Variable fsum : list Q -> Q.
Variable area_div : Q -> Q -> result float.

(** The sign rules of the rounded operations on finite floats: rounding
    keeps the order and is exact on 0, so the difference of a number and
    a smaller one, and the sum, product and quotient of numbers that are
    not negative, are not negative; [x - x] is 0, a sum of zeros is 0,
    and 0 divided by a positive number is 0. *)
Hypothesis fsub_nonneg : forall x y, y <= x -> 0 <= fsub x y.
Hypothesis fsub_diag : forall x y, x == y -> fsub x y == 0.
Hypothesis fadd_nonneg : forall x y, 0 <= x -> 0 <= y -> 0 <= fadd x y.
Hypothesis fmul_nonneg : forall x y, 0 <= x -> 0 <= y -> 0 <= fmul x y.
Hypothesis fmul_pos : forall n x, 1 <= n -> 0 < x -> 0 < fmul n x.
Hypothesis fdiv_nonneg : forall x n, 0 <= x -> 0 < n -> 0 <= fdiv x n.
Hypothesis fdiv_zero : forall x n, x == 0 -> 0 < n -> fdiv x n == 0.
Hypothesis fsum_nonneg : forall l, (forall x, In x l -> 0 <= x) -> 0 <= fsum l.
Hypothesis fsum_zero : forall l, (forall x, In x l -> x == 0) -> fsum l == 0.
Hypothesis area_div_pos :
  forall x n, 0 < n -> exists q, area_div x n = Ok (Some q) /\ (0 <= x -> 0 <= q).

Lemma min_axis1_rows (ncols : nat) (rows : list (list Q)) :
  (0 < ncols)%nat -> (forall row, In row rows -> length row = ncols) ->
  min_axis1 ncols rows
  = Ok (map (fun row => match np_min row with Ok m => m | Raise _ => 0 end) rows).
Proof.
  intros Hc Hrows. unfold min_axis1.
  destruct (Nat.eqb_spec ncols 0) as [->|_]; [lia|].
  apply collect_map. intros row Hrow.
  destruct (@np_min_ok row) as (m & ->); [|reflexivity].
  intros ->. specialize (Hrows _ Hrow). simpl in Hrows. lia.
Qed.

(** X17: on a matrix with at least one frame, [calc_mean_dff] returns one
    value per cell; no value is negative, and the value of a cell that is
    constant over time is 0. *)
Theorem mean_dff_not_negative (ncols : nat) (rows : list (list Q)) :
  (0 < ncols)%nat ->
  (forall row, In row rows -> length row = ncols) ->
  exists means,
    calc_mean_dff fsub fdiv fsum ncols rows = Ok means /\
    length means = length rows /\
    Forall (fun m => 0 <= m) means /\
    forall k row, nth_error rows k = Some row -> flat row ->
      exists m, nth_error means k = Some m /\ m == 0.
Proof.
  intros Hc Hrows. unfold calc_mean_dff. rewrite min_axis1_rows by assumption.
  cbn [bind]. cbv zeta. eexists. split; [reflexivity|].
  set (lo := fun row : list Q => match np_min row with Ok m => m | Raise _ => 0 end).
  assert (Hcomb : combine rows (map lo rows) = map (fun row => (row, lo row)) rows).
  { clear. induction rows as [|r t IH]; simpl; [reflexivity|]. now rewrite IH. }
  rewrite Hcomb, !map_map. cbn [fst snd].
  assert (Hmin : forall row, In row rows -> In (lo row) row /\ forall x, In x row -> lo row <= x).
  { intros row Hrow. unfold lo.
    destruct (@np_min_ok row) as (m & Hm).
    - intros ->. specialize (Hrows _ Hrow). simpl in Hrows. lia.
    - rewrite Hm. now apply np_min_spec. }
  split; [apply length_map|]. split.
  - apply Forall_forall. intros m Hm. apply in_map_iff in Hm.
    destruct Hm as (row & <- & Hrow).
    apply fdiv_nonneg; [|now apply pos_columns].
    apply fsum_nonneg. intros x Hx. apply in_map_iff in Hx.
    destruct Hx as (v & <- & Hv). apply fsub_nonneg. now apply (Hmin row Hrow).
  - intros k row Hk Hflat. rewrite nth_error_map, Hk. cbn [option_map].
    eexists. split; [reflexivity|].
    pose proof (nth_error_In _ _ Hk) as Hrow.
    apply fdiv_zero; [|now apply pos_columns].
    apply fsum_zero. intros x Hx. apply in_map_iff in Hx.
    destruct Hx as (v & <- & Hv). apply fsub_diag.
    apply (@flat_In_equal row v (lo row) Hflat Hv). now apply (Hmin row Hrow).
Qed.




(** X19: a matrix with a cell and fewer than two frames makes [calc_auc]
    raise ValueError, whatever the normalisation. *)
Theorem auc_needs_two_frames (ncols : nat) (rows : list (list Q)) (norm_factor : Q) :
  rows <> [] ->
  (forall row, In row rows -> length row = ncols) ->
  (ncols < 2)%nat ->
  calc_auc fadd fsub fmul fdiv fsum area_div ncols rows norm_factor = Raise ValueError.
Proof.
  intros Hne Hrows Hc. destruct rows as [|row rest]; [congruence|].
  pose proof (Hrows row (or_introl eq_refl)) as Hl.
  unfold calc_auc. cbn [collect].
  destruct row as [|a t]; [reflexivity|].
  destruct (@np_min_ok (a :: t)) as (m & ->); [discriminate|].
  cbn [bind]. cbv zeta. unfold sklearn_auc.
  assert (Hx : length (np_arange ncols) = ncols)
    by (unfold np_arange; now rewrite length_map, length_seq).
  rewrite Hx, length_map, Hl, Nat.eqb_refl. cbn [negb].
  destruct (Nat.ltb_spec ncols 2) as [_|Hge]; [reflexivity|lia].
Qed.

End FloatFacts.

(** The exact operations obey the sign rules. *)
Lemma exact_sum_cons (x : Q) (t : list Q) : exact_sum (x :: t) == x + exact_sum t.
Proof. unfold exact_sum. simpl. rewrite fold_left_Qplus_acc. ring. Qed.

Lemma exact_sum_nonneg (l : list Q) : (forall x, In x l -> 0 <= x) -> 0 <= exact_sum l.
Proof.
  induction l as [|x t IH]; intros H; [apply Qle_refl|].
  rewrite exact_sum_cons.
  specialize (IH (fun y Hy => H y (or_intror Hy))).
  specialize (H x (or_introl eq_refl)). lra.
Qed.

Lemma exact_sum_zero (l : list Q) : (forall x, In x l -> x == 0) -> exact_sum l == 0.
Proof.
  induction l as [|x t IH]; intros H; [reflexivity|].
  rewrite exact_sum_cons, (H x (or_introl eq_refl)), IH by (intros y Hy; apply H; now right).
  ring.
Qed.

Lemma Qdiv_nonneg (x n : Q) : 0 <= x -> 0 < n -> 0 <= x / n.
Proof. intros Hx Hn. apply Qle_shift_div_l; [assumption|]. lra. Qed.

Lemma Qdiv_zero (x n : Q) : x == 0 -> 0 < n -> x / n == 0.
Proof. intros Hx Hn. rewrite Hx. field. lra. Qed.


Lemma mean_dff_not_negative_witness :
  exists means,
    calc_mean_dff Qminus Qdiv exact_sum 3 two_cells = Ok means /\
    length means = length two_cells /\
    Forall (fun m => 0 <= m) means /\
    forall k row, nth_error two_cells k = Some row -> flat row ->
      exists m, nth_error means k = Some m /\ m == 0.
Proof.
  apply (@mean_dff_not_negative Qminus Qdiv exact_sum).
  - intros x y H. lra.
  - intros x y H. lra.
  - apply Qdiv_nonneg.
  - apply Qdiv_zero.
  - apply exact_sum_nonneg.
  - apply exact_sum_zero.
  - lia.
  - intros row [<-|[<-|[]]]; reflexivity.
Defined.


Lemma auc_needs_two_frames_witness :
  calc_auc Qplus Qminus Qmult Qdiv exact_sum exact_div 1 [[7]] 1 = Raise ValueError.
Proof.
  apply (@auc_needs_two_frames Qplus Qminus Qmult Qdiv exact_sum exact_div 1 [[7]] 1).
  - discriminate.
  - intros row [<-|[]]. reflexivity.
  - lia.
Defined.

(** The two cells of the example, without rounding: means 1 and 0, areas
    2.5 / (3 * 2) and 0. *)
Example mean_dff_and_auc_of_two_cells :
  calc_mean_dff Qminus Qdiv exact_sum 3 two_cells
  = Ok [(0 + 0 + 2 + 1) / 3; (0 + 0 + 0 + 0) / 3] /\
  exists a b,
    calc_auc Qplus Qminus Qmult Qdiv exact_sum exact_div 3 two_cells 2
    = Ok [Some a; Some b] /\
    a == 5 # 12 /\ b == 0.
Proof.
  split; [reflexivity|].
  eexists _, _. split; [vm_compute; reflexivity|]. split; reflexivity.
Qed.

(** ** Flat cells and the release of peakutils *)

(** X20: whether a cell that is constant over time stops the detector
    depends on the release of peakutils.  Up to release 1.3.4, on a
    well-shaped matrix with at least one frame a single flat cell makes
    [locate_spikes_peakutils] raise IndexError, wherever it is, and
    [_find_spikes] does not return; from release 1.3.5 on, the detector
    returns on the same matrix. *)
Theorem flat_cell_stops_detector (data : ndarray) (fps thresh : Q) (a : occ_attrs)
    (r c : nat) (cell : list Q) :
  well_shaped data -> shape data = [r; c] -> (0 < c)%nat ->
  In cell (rows_of data) -> flat cell ->
  locate_spikes_peakutils Peakutils.upto_1_3_4 data fps thresh = Raise IndexError /\
  (forall res, _find_spikes Peakutils.upto_1_3_4 a (rows_of data) <> Ok res) /\
  exists out, locate_spikes_peakutils Peakutils.from_1_3_5 data fps thresh = Ok out.
Proof.
  intros Hw Hs Hc Hin Hflat.
  assert (Hne : forall row, In row (rows_of data) -> row <> []).
  { intros row Hrow E. pose proof (rows_of_well_shaped _ Hw Hs Hrow) as Hl.
    rewrite E in Hl. simpl in Hl. lia. }
  assert (Hrows : length (rows_of data) = r)
    by (unfold rows_of; rewrite Hs; apply length_chunks).
  assert (Hr : (0 < r)%nat).
  { destruct (rows_of data); [contradiction|simpl in Hrows; lia]. }
  assert (Hbad : exists bad, In bad (rows_of data) /\ flat bad) by (now exists cell).
  split; [|split].
  - unfold locate_spikes_peakutils. rewrite Hs.
    apply Nat.ltb_lt in Hr. rewrite Hr. cbv zeta.
    now rewrite (@spikes_loop_flat thresh (py_int fps) (rows_of data) 0
                   (zeros_like (rows_of data)) Hne Hbad).
  - intros res Hres.
    destruct (Z.eq_dec (frames_during_occ a) 0) as [Hd|Hd];
      [rewrite find_spikes_zero_length in Hres by (now left); discriminate|].
    destruct (Z.eq_dec (frames_after_occ a) 0) as [Ha|Ha];
      [rewrite find_spikes_zero_length in Hres by (now right); discriminate|].
    rewrite find_spikes_nonzero in Hres by (split; assumption).
    destruct (find_spikes_loop _ _ _ _ _ _ _ _ _ _) as [st|e] eqn:El; [|discriminate].
    apply find_spikes_loop_spec in El. destruct El as (El & _).
    cbn [fs_all_spikes] in El.
    rewrite (@spikes_loop_flat _ _ (rows_of data) _ _ Hne Hbad) in El. discriminate.
  - destruct (@locate_spikes_returns data fps thresh r c Hw Hs Hr Hc) as (out & Ho & _).
    now exists out.
Qed.

Lemma flat_cell_stops_detector_witness :
  locate_spikes_peakutils Peakutils.upto_1_3_4 scenario_matrix 30 (65 # 100)
  = Raise IndexError /\
  (forall res,
     _find_spikes Peakutils.upto_1_3_4 scenario_attrs (rows_of scenario_matrix) <> Ok res) /\
  exists out,
    locate_spikes_peakutils Peakutils.from_1_3_5 scenario_matrix 30 (65 # 100) = Ok out.
Proof.
  apply (@flat_cell_stops_detector scenario_matrix 30 (65 # 100) scenario_attrs
           2 10 (nth 1 (rows_of scenario_matrix) [])).
  - reflexivity.
  - reflexivity.
  - lia.
  - right. left. reflexivity.
  - intros k Hk. simpl in Hk.
    do 10 (destruct k as [|k]; [reflexivity|]). lia.
Defined.
